(** * Signalling server of the video-call backend: a shallow embedding

    The development follows [signaling-server.js].  The three process-wide
    collections ([connectedUsers], [waitingUsers], [activeRooms]) and the
    [User] objects they share by reference are modelled as one explicit
    state; every socket handler, the search-timeout closure and the periodic
    sweep become a function from a state to a new state and the list of
    messages it emits. *)

From Stdlib Require Import ZArith Sorted.
From stdpp Require Import gmap strings list fin_maps pretty.

Open Scope string_scope.

(** ** Data model *)

(** [matchingPreferences] (lines 32-36).  The source binds one constant
    object; the server below is modelled for an arbitrary setting [mp] of it,
    so that the matching rule can be stated for every setting of its flags. *)
Record MatchingPreferences := {
  sameUniversity : bool;
  sameGender : bool;
  maxWaitTime : Z
}.

Definition matchingPreferences : MatchingPreferences :=
  {| sameUniversity := false; sameGender := false; maxWaitTime := 30000 |}.

Section Server.

(** The preferences the server runs with. *)
Variable mp : MatchingPreferences.

(** The [userInfo] object of a [register-user] payload: each property may be
    absent. *)
Record UserInfo := {
  info_university : option string;
  info_gender : option string;
  info_year : option string
}.

(** [class User] (lines 38-50). *)
Record User := {
  socketId : string;
  userId : string;
  university : string;
  gender : string;
  year : string;
  joinedAt : Z;
  isWaiting : bool;
  currentRoom : option string;
  partnerId : option string
}.

(** [x || ''] on a property that is a string or absent. *)
Definition or_empty (x : option string) : string :=
  match x with
  | Some s => s
  | None => ""
  end.

(** [new User(socketId, userId, userInfo)]; [now] is the value of
    [Date.now()]. *)
Definition newUser (sid uid : string) (userInfo : UserInfo) (now : Z) : User :=
  {| socketId := sid;
     userId := uid;
     university := or_empty (info_university userInfo);
     gender := or_empty (info_gender userInfo);
     year := or_empty (info_year userInfo);
     joinedAt := now;
     isWaiting := false;
     currentRoom := None;
     partnerId := None |}.

Definition set_isWaiting (b : bool) (u : User) : User :=
  {| socketId := socketId u; userId := userId u; university := university u;
     gender := gender u; year := year u; joinedAt := joinedAt u;
     isWaiting := b;
     currentRoom := currentRoom u; partnerId := partnerId u |}.

(** [u.currentRoom = r; u.partnerId = p; u.isWaiting = false] (lines 170-176). *)
Definition bind_room (r p : string) (u : User) : User :=
  {| socketId := socketId u; userId := userId u; university := university u;
     gender := gender u; year := year u; joinedAt := joinedAt u;
     isWaiting := false;
     currentRoom := Some r; partnerId := Some p |}.

(** [u.currentRoom = null; u.partnerId = null]. *)
Definition clear_room (u : User) : User :=
  {| socketId := socketId u; userId := userId u; university := university u;
     gender := gender u; year := year u; joinedAt := joinedAt u;
     isWaiting := isWaiting u;
     currentRoom := None; partnerId := None |}.

(** Truthiness of [user.currentRoom]: [null] and the empty string are falsy. *)
Definition truthy (r : option string) : bool :=
  match r with
  | Some s => negb (String.eqb s "")
  | None => false
  end.

(** User objects live in a store and are named by their index: the registry,
    the rooms and the timer closures all hold references to them. *)
Abbreviation Ref := nat (only parsing).
Abbreviation Heap := (list User) (only parsing).

(** [class Room] (lines 52-58): [users] is the two-element array of
    references handed to the constructor. *)
Record Room := {
  roomId : string;
  users : list nat;
  createdAt : Z;
  isActive : bool
}.

Definition newRoom (rid : string) (user1 user2 : Ref) (now : Z) : Room :=
  {| roomId := rid; users := [user1; user2]; createdAt := now; isActive := true |}.

(** [Array.prototype.find] over an array of references. *)
Fixpoint find_ref (h : Heap) (p : User -> bool) (l : list nat) : option nat :=
  match l with
  | [] => None
  | a :: l' =>
      match h !! a with
      | Some u => if p u then Some a else find_ref h p l'
      | None => find_ref h p l'
      end
  end.

(** [Room.getOtherUser] (lines 60-62): the first member whose [userId]
    differs from the argument. *)
Definition getOtherUser (h : Heap) (room : Room) (uid : string) : option nat :=
  find_ref h (fun user => negb (String.eqb (userId user) uid)) (users room).

(** [generateRoomId] (lines 66-68): [rnd] stands for the digits
    [Math.random().toString(36).substr(2, 9)], [now] for [Date.now()]. *)
Definition generateRoomId (rnd : string) (now : Z) : string :=
  "room_" +:+ rnd +:+ "_" +:+ pretty now.

(** [areUsersCompatible] (lines 71-86). *)
Definition areUsersCompatible (user1 user2 : User) : bool :=
  if String.eqb (userId user1) (userId user2) then false
  else if sameUniversity mp && negb (String.eqb (university user1) (university user2)) then false
  else if sameGender mp && negb (String.eqb (gender user1) (gender user2)) then false
  else true.

(** ** Server state *)

(** A pending [setTimeout] closure (lines 212-219) captures the socket and
    the [user] object that was registered when the search began. *)
Record Timer := {
  t_socket : string;
  t_user : nat;
  t_delay : Z
}.

Record State := {
  heap : list User;
  connectedUsers : gmap string nat;      (* Map: socket.id -> User *)
  waitingUsers : list string;            (* Set of socket ids, in insertion order *)
  activeRooms : gmap string Room;        (* Map: roomId -> Room *)
  sockets : gset string;                 (* io.sockets.sockets: live connections *)
  ioRooms : gmap string (gset string);   (* socket.io rooms: name -> joined sockets *)
  timers : list Timer
}.

Definition initial : State :=
  {| heap := []; connectedUsers := ∅; waitingUsers := []; activeRooms := ∅;
     sockets := ∅; ioRooms := ∅; timers := [] |}.

(** [Set.prototype.add], [delete] and [has] on an insertion-ordered set. *)
Definition set_add (x : string) (l : list string) : list string :=
  if decide (x ∈ l) then l else l ++ [x].

Definition set_delete (x : string) (l : list string) : list string :=
  filter (λ y, y ≠ x) l.

Definition set_has (x : string) (l : list string) : bool :=
  bool_decide (x ∈ l).

(** [socket.join(name)]. *)
Definition io_join (sid name : string) (rooms : gmap string (gset string))
  : gmap string (gset string) :=
  <[name := {[sid]} ∪ default ∅ (rooms !! name)]> rooms.

(** ** Messages *)

Inductive Msg :=
| RegistrationSuccess (uid : string)
| Error (message : string)
| SearchingForPartner
| PartnerFound (rid partner university year : string)
| IncomingCall (rid caller university year : string)
| PartnerSearchTimeout
| CallAccepted (rid acceptedBy : string)
| CallRejected (rejectedBy : string)
| OfferMsg (sdp type from : string)
| AnswerMsg (sdp type from : string)
| IceCandidateMsg (candidate from : string)
| UserLeft (uid : string)
| Pong.

(** Where an emit is addressed: [socket.emit(..)] answers on the handling
    socket, [io.to(name).emit(..)] goes to every socket joined to [name]
    (each socket is joined to the room named by its own id). *)
Inductive Target :=
| SocketEmit (sid : string)
| IoTo (name : string).

Definition recipients (st : State) (t : Target) : gset string :=
  match t with
  | SocketEmit sid => if decide (sid ∈ sockets st) then {[sid]} else ∅
  | IoTo name => default ∅ (ioRooms st !! name)
  end.

(** The messages of [out] that reach socket [sid]. *)
Definition inbox (st : State) (out : list (Target * Msg)) (sid : string) : list Msg :=
  (filter (λ e, sid ∈ recipients st e.1) out).*2.

(** ** Matching *)

(** [findPartner] (lines 89-97): scan [waitingUsers] in insertion order. *)
Fixpoint findPartner_scan (h : Heap)
    (connected : gmap string nat) (user : User) (ws : list string) : option nat :=
  match ws with
  | [] => None
  | waitingUser :: ws' =>
      match connected !! waitingUser with
      | Some potentialPartner =>
          match h !! potentialPartner with
          | Some p =>
              if areUsersCompatible user p then Some potentialPartner
              else findPartner_scan h connected user ws'
          | None => findPartner_scan h connected user ws'
          end
      | None => findPartner_scan h connected user ws'
      end
  end.

Definition findPartner (st : State) (user : User) : option nat :=
  findPartner_scan (heap st) (connectedUsers st) user (waitingUsers st).

(** ** Field updates of the state *)

Definition set_heap (h : list User) (st : State) : State :=
  {| heap := h; connectedUsers := connectedUsers st; waitingUsers := waitingUsers st;
     activeRooms := activeRooms st; sockets := sockets st; ioRooms := ioRooms st;
     timers := timers st |}.

Definition set_connectedUsers (c : gmap string nat) (st : State) : State :=
  {| heap := heap st; connectedUsers := c; waitingUsers := waitingUsers st;
     activeRooms := activeRooms st; sockets := sockets st; ioRooms := ioRooms st;
     timers := timers st |}.

Definition set_waitingUsers (w : list string) (st : State) : State :=
  {| heap := heap st; connectedUsers := connectedUsers st; waitingUsers := w;
     activeRooms := activeRooms st; sockets := sockets st; ioRooms := ioRooms st;
     timers := timers st |}.

Definition set_activeRooms (r : gmap string Room) (st : State) : State :=
  {| heap := heap st; connectedUsers := connectedUsers st; waitingUsers := waitingUsers st;
     activeRooms := r; sockets := sockets st; ioRooms := ioRooms st;
     timers := timers st |}.

Definition set_sockets (s : gset string) (st : State) : State :=
  {| heap := heap st; connectedUsers := connectedUsers st; waitingUsers := waitingUsers st;
     activeRooms := activeRooms st; sockets := s; ioRooms := ioRooms st;
     timers := timers st |}.

Definition set_ioRooms (r : gmap string (gset string)) (st : State) : State :=
  {| heap := heap st; connectedUsers := connectedUsers st; waitingUsers := waitingUsers st;
     activeRooms := activeRooms st; sockets := sockets st; ioRooms := r;
     timers := timers st |}.

Definition set_timers (t : list Timer) (st : State) : State :=
  {| heap := heap st; connectedUsers := connectedUsers st; waitingUsers := waitingUsers st;
     activeRooms := activeRooms st; sockets := sockets st; ioRooms := ioRooms st;
     timers := t |}.

(** [connectedUsers.get(sid)], together with the object it refers to. *)
Definition get_user (st : State) (sid : string) : option (nat * User) :=
  match connectedUsers st !! sid with
  | Some a =>
      match heap st !! a with
      | Some u => Some (a, u)
      | None => None
      end
  | None => None
  end.

(** [const p = connectedUsers.get(sid); if (p) { p.currentRoom = null;
    p.partnerId = null }] (lines 265-269, 346-350, 372-376). *)
Definition clear_partner (sid : string) (st : State) : State :=
  match connectedUsers st !! sid with
  | Some a => set_heap (alter clear_room a (heap st)) st
  | None => st
  end.

(** ** Socket handlers *)

(** [register-user] (lines 133-140); the payload carries a [userInfo]
    object. *)
Definition register_user (sid uid : string) (userInfo : UserInfo) (now : Z)
    (st : State) : State * list (Target * Msg) :=
  let user := length (heap st) in
  let st1 := set_heap (heap st ++ [newUser sid uid userInfo now]) st in
  let st2 := set_connectedUsers (<[sid := user]> (connectedUsers st1)) st1 in
  (st2, [(SocketEmit sid, RegistrationSuccess uid)]).

(** The branch of [find-random-partner] taken when a partner was found
    (lines 160-201); [rid] is the generated room id. *)
Definition start_call (sid rid : string) (now : Z) (user : nat) (u : User)
    (partner : nat) (p : User) (st : State) : State * list (Target * Msg) :=
  let st1 := set_waitingUsers
               (set_delete (socketId p) (set_delete (socketId u) (waitingUsers st))) st in
  let st2 := set_activeRooms (<[rid := newRoom rid user partner now]> (activeRooms st1)) st1 in
  let st3 := set_heap (alter (bind_room rid (userId p)) user (heap st2)) st2 in
  let st4 := set_heap (alter (bind_room rid (userId u)) partner (heap st3)) st3 in
  let st5 := set_ioRooms (io_join sid rid (ioRooms st4)) st4 in
  let st6 := if decide (socketId p ∈ sockets st5)
             then set_ioRooms (io_join (socketId p) rid (ioRooms st5)) st5
             else st5 in
  (st6, [(SocketEmit sid, PartnerFound rid (userId p) (university p) (year p));
         (IoTo (socketId p), IncomingCall rid (userId u) (university u) (year u))]).

(** The branch taken when nobody is compatible (lines 204-219). *)
Definition start_waiting (sid : string) (user : nat)
    (st : State) : State * list (Target * Msg) :=
  let st1 := set_heap (alter (set_isWaiting true) user (heap st)) st in
  let st2 := set_waitingUsers (set_add sid (waitingUsers st1)) st1 in
  let st3 := set_timers (timers st2 ++
               [{| t_socket := sid; t_user := user; t_delay := maxWaitTime mp |}]) st2 in
  (st3, [(SocketEmit sid, SearchingForPartner)]).

(** [find-random-partner] (lines 142-221); [rnd] is the random part of the
    room id that is generated when a partner is found. *)
Definition find_random_partner (sid rnd : string) (now : Z)
    (st : State) : State * list (Target * Msg) :=
  match get_user st sid with
  | None => (st, [(SocketEmit sid, Error "User not registered")])
  | Some (user, u) =>
      if isWaiting u then (st, [(SocketEmit sid, Error "Already searching for partner")])
      else
        match findPartner st u with
        | Some partner =>
            match heap st !! partner with
            | Some p => start_call sid (generateRoomId rnd now) now user u partner p st
            | None => (st, [])
            end
        | None => start_waiting sid user st
        end
  end.

(** The closure handed to [setTimeout] (lines 212-219), run for the timer
    it was created for. *)
Definition search_timeout (t : Timer) (st : State) : State * list (Target * Msg) :=
  match heap st !! t_user t with
  | Some u =>
      if isWaiting u && set_has (t_socket t) (waitingUsers st) then
        let st1 := set_waitingUsers (set_delete (t_socket t) (waitingUsers st)) st in
        let st2 := set_heap (alter (set_isWaiting false) (t_user t) (heap st1)) st1 in
        (st2, [(SocketEmit (t_socket t), PartnerSearchTimeout)])
      else (st, [])
  | None => (st, [])
  end.

(** The guard shared by the relay handlers:
    [if (!user || !user.currentRoom) return; const room =
    activeRooms.get(user.currentRoom); if (!room) return;]. *)
Definition current_session (st : State) (sid : string) : option (nat * User * Room) :=
  match get_user st sid with
  | Some (user, u) =>
      if truthy (currentRoom u) then
        match activeRooms st !! or_empty (currentRoom u) with
        | Some room => Some (user, u, room)
        | None => None
        end
      else None
  | None => None
  end.

(** [accept-call] (lines 223-244). *)
Definition accept_call (sid : string) (st : State) : State * list (Target * Msg) :=
  match get_user st sid with
  | None => (st, [(SocketEmit sid, Error "No active call to accept")])
  | Some (user, u) =>
      if truthy (currentRoom u) then
        match activeRooms st !! or_empty (currentRoom u) with
        | None => (st, [(SocketEmit sid, Error "Room not found")])
        | Some room =>
            match getOtherUser (heap st) room (userId u) with
            | Some partner =>
                (st, [(IoTo (roomId room), CallAccepted (roomId room) (userId u))])
            | None => (st, [])
            end
        end
      else (st, [(SocketEmit sid, Error "No active call to accept")])
  end.

(** [activeRooms.delete(room.roomId); user.currentRoom = null;
    user.partnerId = null; const partnerUser =
    connectedUsers.get(partnerSocket); if (partnerUser) {..}]
    (lines 261-269 and 342-350). *)
Definition close_room (room : Room) (user : nat) (partnerSocket : option string)
    (st : State) : State :=
  let st1 := set_activeRooms (delete (roomId room) (activeRooms st)) st in
  let st2 := set_heap (alter clear_room user (heap st1)) st1 in
  match partnerSocket with
  | Some psid => clear_partner psid st2
  | None => st2
  end.

(** [reject-call] (lines 246-271). *)
Definition reject_call (sid : string) (st : State) : State * list (Target * Msg) :=
  match current_session st sid with
  | None => (st, [])
  | Some (user, u, room) =>
      match getOtherUser (heap st) room (userId u) with
      | Some partner =>
          match heap st !! partner with
          | Some p =>
              (close_room room user (Some (socketId p)) st,
               [(IoTo (socketId p), CallRejected (userId u))])
          | None => (st, [])
          end
      | None => (st, [])
      end
  end.

(** The three WebRTC relays [offer], [answer] and [ice-candidate]
    (lines 274-324) differ only in the message they build. *)
Definition relay (mk : string -> Msg) (sid : string) (st : State)
    : State * list (Target * Msg) :=
  match current_session st sid with
  | None => (st, [])
  | Some (user, u, room) =>
      match getOtherUser (heap st) room (userId u) with
      | Some partner =>
          match heap st !! partner with
          | Some p => (st, [(IoTo (socketId p), mk (userId u))])
          | None => (st, [])
          end
      | None => (st, [])
      end
  end.

Definition offer (sid sdp type : string) : State -> State * list (Target * Msg) :=
  relay (OfferMsg sdp type) sid.

Definition answer (sid sdp type : string) : State -> State * list (Target * Msg) :=
  relay (AnswerMsg sdp type) sid.

Definition ice_candidate (sid candidate : string) : State -> State * list (Target * Msg) :=
  relay (IceCandidateMsg candidate) sid.

(** [end-call] (lines 326-351): the room is closed whether or not a partner
    was found in it. *)
Definition end_call (sid : string) (st : State) : State * list (Target * Msg) :=
  match current_session st sid with
  | None => (st, [])
  | Some (user, u, room) =>
      match getOtherUser (heap st) room (userId u) with
      | Some partner =>
          match heap st !! partner with
          | Some p =>
              (close_room room user (Some (socketId p)) st,
               [(IoTo (socketId p), UserLeft (userId u))])
          | None => (close_room room user None st, [])
          end
      | None => (close_room room user None st, [])
      end
  end.

(** The [disconnect] handler (lines 353-388). *)
Definition disconnect (sid : string) (st : State) : State * list (Target * Msg) :=
  match get_user st sid with
  | None => (st, [])
  | Some (user, u) =>
      let st1 := set_waitingUsers (set_delete sid (waitingUsers st)) st in
      let '(st2, out) :=
        match current_session st1 sid with
        | Some (_, _, room) =>
            let '(st', out) :=
              match getOtherUser (heap st1) room (userId u) with
              | Some partner =>
                  match heap st1 !! partner with
                  | Some p =>
                      (clear_partner (socketId p) st1,
                       [(IoTo (socketId p), UserLeft (userId u))])
                  | None => (st1, [])
                  end
              | None => (st1, [])
              end in
            (set_activeRooms (delete (roomId room) (activeRooms st')) st', out)
        | None => (st1, [])
        end in
      (set_connectedUsers (delete sid (connectedUsers st2)) st2, out)
  end.

(** [ping] (lines 391-393). *)
Definition ping (sid : string) (st : State) : State * list (Target * Msg) :=
  (st, [(SocketEmit sid, Pong)]).

(** The socket id of the room member that [getOtherUser] finds for the user
    registered on [sid], when that user holds a session. *)
Definition partner_socket (st : State) (sid : string) : option string :=
  match current_session st sid with
  | Some (user, u, room) =>
      match getOtherUser (heap st) room (userId u) with
      | Some partner => socketId <$> heap st !! partner
      | None => None
      end
  | None => None
  end.

(** The object at a reference holds no room. *)
Definition room_cleared (h : list User) (a : nat) : Prop :=
  forall u, h !! a = Some u -> currentRoom u = None.

(** ** The periodic sweep *)

Definition maxInactiveTime : Z := 5 * 60 * 1000.

(** The test of line 105 on one registry entry. *)
Definition inactive (h : Heap) (now : Z) (user : nat) : bool :=
  match h !! user with
  | Some u => (maxInactiveTime <? now - joinedAt u)%Z && negb (truthy (currentRoom u))
  | None => false
  end.

(** One iteration of the loop of [cleanupInactiveUsers] (lines 104-110). *)
Definition cleanup_user (h : Heap) (now : Z) (entry : string * nat)
    (acc : gmap string nat * list string) : gmap string nat * list string :=
  if inactive h now entry.2
  then (delete entry.1 acc.1, set_delete entry.1 acc.2)
  else acc.

(** [cleanupInactiveUsers] (lines 100-111). *)
Definition cleanupInactiveUsers (now : Z) (st : State) : State :=
  let r := foldr (cleanup_user (heap st) now)
                 (connectedUsers st, waitingUsers st)
                 (map_to_list (connectedUsers st)) in
  set_waitingUsers r.2 (set_connectedUsers r.1 st).

(** [room.users.filter(user => connectedUsers.has(user.socketId))]
    (line 116). *)
Definition has_connection (st : State) (user : nat) : bool :=
  match heap st !! user with
  | Some u => bool_decide (is_Some (connectedUsers st !! socketId u))
  | None => false
  end.

Definition activeUsers (st : State) (room : Room) : list nat :=
  filter (λ user, has_connection st user = true) (users room).

(** One iteration of the loop of [cleanupEmptyRooms] (lines 115-121). *)
Definition cleanup_room (st : State) (entry : string * Room)
    (acc : gmap string Room) : gmap string Room :=
  if decide (length (activeUsers st entry.2) = 0)
  then delete entry.1 acc
  else acc.

(** [cleanupEmptyRooms] (lines 114-122). *)
Definition cleanupEmptyRooms (st : State) : State :=
  set_activeRooms (foldr (cleanup_room st) (activeRooms st)
                         (map_to_list (activeRooms st))) st.

(** The [setInterval] callback (lines 125-128). *)
Definition cleanup (now : Z) (st : State) : State :=
  cleanupEmptyRooms (cleanupInactiveUsers now st).

(** ** Events and the transition function *)

(** What the server reacts to: a new connection, a message on a connected
    socket, a firing search timer (named by its position among the pending
    ones) and the tick of the sweep.  Values the handlers draw from the
    environment ([Date.now()], [Math.random()]) travel with the event. *)
Inductive Event :=
| Connection (sid : string)
| RegisterUser (sid uid : string) (userInfo : UserInfo) (now : Z)
| FindRandomPartner (sid rnd : string) (now : Z)
| AcceptCall (sid : string)
| RejectCall (sid : string)
| Offer (sid sdp type : string)
| Answer (sid sdp type : string)
| IceCandidate (sid candidate : string)
| EndCall (sid : string)
| Disconnect (sid : string)
| Ping (sid : string)
| TimerFired (k : nat)
| CleanupTick (now : Z).

(** [io.on('connection', ..)]: the socket becomes live and joins the room
    named by its own id. *)
Definition connection (sid : string) (st : State) : State :=
  if decide (sid ∈ sockets st) then st
  else set_ioRooms (io_join sid sid (ioRooms st)) (set_sockets ({[sid]} ∪ sockets st) st).

(** What socket.io does before the [disconnect] handler runs: the socket is
    dropped and leaves every room. *)
Definition socket_closed (sid : string) (st : State) : State :=
  set_ioRooms ((λ members, members ∖ {[sid]}) <$> ioRooms st)
              (set_sockets (sockets st ∖ {[sid]}) st).

(** Handlers are attached to live sockets only. *)
Definition on_socket (sid : string) (handler : State -> State * list (Target * Msg))
    (st : State) : State * list (Target * Msg) :=
  if decide (sid ∈ sockets st) then handler st else (st, []).

Definition step (ev : Event) (st : State) : State * list (Target * Msg) :=
  match ev with
  | Connection sid => (connection sid st, [])
  | RegisterUser sid uid userInfo now => on_socket sid (register_user sid uid userInfo now) st
  | FindRandomPartner sid rnd now => on_socket sid (find_random_partner sid rnd now) st
  | AcceptCall sid => on_socket sid (accept_call sid) st
  | RejectCall sid => on_socket sid (reject_call sid) st
  | Offer sid sdp type => on_socket sid (offer sid sdp type) st
  | Answer sid sdp type => on_socket sid (answer sid sdp type) st
  | IceCandidate sid candidate => on_socket sid (ice_candidate sid candidate) st
  | EndCall sid => on_socket sid (end_call sid) st
  | Disconnect sid => on_socket sid (λ st, disconnect sid (socket_closed sid st)) st
  | Ping sid => on_socket sid (ping sid) st
  | TimerFired k =>
      match timers st !! k with
      | Some t => search_timeout t (set_timers (delete k (timers st)) st)
      | None => (st, [])
      end
  | CleanupTick now => (cleanup now st, [])
  end.

(** The state after a sequence of events. *)
Fixpoint run (evs : list Event) (st : State) : State :=
  match evs with
  | [] => st
  | ev :: evs' => run evs' (step ev st).1
  end.

(** Everything socket [sid] is sent while a sequence of events is handled. *)
Fixpoint received (evs : list Event) (st : State) (sid : string) : list Msg :=
  match evs with
  | [] => []
  | ev :: evs' =>
      let r := step ev st in
      inbox r.1 r.2 sid ++ received evs' r.1 sid
  end.

(** Every emit made while a sequence of events is handled, with its
    address. *)
Fixpoint emitted (evs : list Event) (st : State) : list (Target * Msg) :=
  match evs with
  | [] => []
  | ev :: evs' =>
      let r := step ev st in
      (r.2 ++ emitted evs' r.1)%list
  end.

(** States the server can be in. *)
Inductive reachable : State -> Prop :=
| reachable_initial : reachable initial
| reachable_step st ev : reachable st -> reachable (step ev st).1.

Definition noInfo : UserInfo :=
  {| info_university := None; info_gender := None; info_year := None |}.

(** ** Vocabulary of the properties *)

(** The fields of a [User] that are written by the constructor only. *)
Definition same_identity (u u' : User) : Prop :=
  socketId u' = socketId u /\ userId u' = userId u /\
  university u' = university u /\ gender u' = gender u /\ year u' = year u /\
  joinedAt u' = joinedAt u.

(** Every object of [h] is still in [h'], at the same reference and with the
    same constructor-written fields. *)
Definition heap_extends (h h' : list User) : Prop :=
  forall a u, h !! a = Some u -> exists u', h' !! a = Some u' /\ same_identity u u'.


(** The user registered on [sid] passes the test of the sweep at [now]. *)
Definition swept (st : State) (now : Z) (sid : string) : bool :=
  match connectedUsers st !! sid with
  | Some a => inactive (heap st) now a
  | None => false
  end.

(** Every registry entry belongs to a live socket and refers to a user
    object that carries the socket's id. *)
Definition registry_sound (st : State) : Prop :=
  forall s a, connectedUsers st !! s = Some a ->
    s ∈ sockets st /\ exists u, heap st !! a = Some u /\ socketId u = s.

(** Generated room ids start with ["room_"]. *)
Definition is_room_name (s : string) : bool := String.prefix "room_" s.

(** Every stored room is filed under its own id and has two members, with
    different user ids and different sockets. *)
Definition rooms_sound (st : State) : Prop :=
  forall rid room, activeRooms st !! rid = Some room ->
    roomId room = rid /\
    exists x y ux uy,
      users room = [x; y] /\ heap st !! x = Some ux /\ heap st !! y = Some uy /\
      userId ux <> userId uy /\ socketId ux <> socketId uy.

(** A user object that names a stored room is one of its members. *)
Definition members_sound (st : State) : Prop :=
  forall a u rid room,
    heap st !! a = Some u -> currentRoom u = Some rid ->
    activeRooms st !! rid = Some room -> a ∈ users room.

(** Socket.io rooms: a socket is joined to the room of its own id and to
    call rooms only, and socket ids are not room names. *)
Definition io_sound (st : State) : Prop :=
  (forall name members s,
     ioRooms st !! name = Some members -> s ∈ members ->
     name = s \/ is_room_name name = true) /\
  (forall s, s ∈ sockets st -> is_room_name s = false) /\
  (forall a u, heap st !! a = Some u -> is_room_name (socketId u) = false).

(** The socket of a registered user who names a room is joined to it. *)
Definition joined_sound (st : State) : Prop :=
  forall a u rid,
    heap st !! a = Some u -> connectedUsers st !! socketId u = Some a ->
    currentRoom u = Some rid ->
    exists members, ioRooms st !! rid = Some members /\ socketId u ∈ members.

Definition session_inv (st : State) : Prop :=
  registry_sound st /\ rooms_sound st /\ members_sound st /\
  io_sound st /\ joined_sound st.

(** No user object names the room id. *)
Definition room_fresh (st : State) (rid : string) : Prop :=
  forall a u, heap st !! a = Some u -> currentRoom u <> Some rid.

(** What is assumed of the values the environment supplies: the id of a
    new socket does not look like a room id, and a generated room id is not
    in use. *)
Definition env_ok (st : State) (ev : Event) : Prop :=
  match ev with
  | Connection sid => is_room_name sid = false
  | FindRandomPartner sid rnd now => room_fresh st (generateRoomId rnd now)
  | _ => True
  end.

(** States the server can be in when the environment keeps to [env_ok]. *)
Inductive reachable_env : State -> Prop :=
| reachable_env_initial : reachable_env initial
| reachable_env_step st ev :
    reachable_env st -> env_ok st ev -> reachable_env (step ev st).1.

(** Every event of a sequence satisfies [ok] in the state it is handled
    in. *)
Fixpoint events_ok (ok : State -> Event -> Prop) (evs : list Event) (st : State) : Prop :=
  match evs with
  | [] => True
  | ev :: evs' => ok st ev /\ events_ok ok evs' (step ev st).1
  end.

(** Every object of [h'] was in [h], with the same constructor-written
    fields and the same room unless the room was cleared. *)
Definition heap_back (h h' : list User) : Prop :=
  forall a u', h' !! a = Some u' ->
    exists u, h !! a = Some u /\ same_identity u u' /\
              (currentRoom u' = currentRoom u \/ currentRoom u' = None).

(** A step that creates no user, no room and no membership. *)
Definition quiet (st st' : State) : Prop :=
  heap_extends (heap st) (heap st') /\
  heap_back (heap st) (heap st') /\
  (forall rid room, activeRooms st' !! rid = Some room -> activeRooms st !! rid = Some room) /\
  (forall s a, connectedUsers st' !! s = Some a -> connectedUsers st !! s = Some a) /\
  ioRooms st' = ioRooms st /\
  sockets st' = sockets st.

(** The participant registered on socket [s] is searching. *)
Definition searching (st : State) (s : string) : Prop :=
  exists a u, connectedUsers st !! s = Some a /\ heap st !! a = Some u /\ isWaiting u = true.

(** The waiting set holds exactly the sockets of searching participants. *)
Definition queue_sound (st : State) : Prop :=
  forall s, s ∈ waitingUsers st <-> searching st s.

(** No two user objects were created for the same socket. *)
Definition one_user_per_socket (st : State) : Prop :=
  forall a b ua ub,
    heap st !! a = Some ua -> heap st !! b = Some ub -> socketId ua = socketId ub -> a = b.

(** A pending timer holds the user object of its own socket. *)
Definition timers_sound (st : State) : Prop :=
  forall t, t ∈ timers st ->
    exists u, heap st !! t_user t = Some u /\ socketId u = t_socket t.

Definition queue_inv (st : State) : Prop :=
  registry_sound st /\ one_user_per_socket st /\ timers_sound st /\ queue_sound st.

(** The event is not a registration on a socket that already had a user
    object: every connection registers at most once. *)
Definition registers_once (st : State) (ev : Event) : Prop :=
  match ev with
  | RegisterUser sid _ _ _ => forall a u, heap st !! a = Some u -> socketId u <> sid
  | _ => True
  end.

(** States reached when every connection registers at most once. *)
Inductive reachable_once : State -> Prop :=
| reachable_once_initial : reachable_once initial
| reachable_once_step st ev :
    reachable_once st -> registers_once st ev -> reachable_once (step ev st).1.

(** The two stores agree on who is waiting. *)
Definition same_waiting (h h' : list User) : Prop :=
  forall a, isWaiting <$> h' !! a = isWaiting <$> h !! a.

(** The socket a relayed event comes from, and the message the server
    builds from it for a sender with user id [from]: the payload fields are
    copied and the sender is named. *)
Definition sender (ev : Event) : option string :=
  match ev with
  | Offer sid _ _ | Answer sid _ _ | IceCandidate sid _
  | RejectCall sid | EndCall sid => Some sid
  | _ => None
  end.


End Server.

(** Two registered users, as a store of two objects. *)
Definition twoUsers : list User :=
  [newUser "sA" "A" noInfo 0; newUser "sB" "B" noInfo 1].

(** One user registered on socket ["sA"]. *)
Definition registeredA : State :=
  run matchingPreferences [Connection "sA"; RegisterUser "sA" "A" noInfo 0] initial.

(** The same user, searching with nobody else around. *)
Definition searchingA : State :=
  run matchingPreferences [FindRandomPartner "sA" "k3j" 2] registeredA.

(** The scenario of two strangers: both connect and register, ["A"] searches
    first and ["B"] second. *)
Definition twoStrangers : list Event :=
  [Connection "sA"; Connection "sB";
   RegisterUser "sA" "A" noInfo 0; RegisterUser "sB" "B" noInfo 1;
   FindRandomPartner "sA" "k3j" 2; FindRandomPartner "sB" "x9" 3].

Definition inCall : State := run matchingPreferences twoStrangers initial.

(** The user object of ["A"] and the room, once the two are in a call. *)
Definition userAinCall : User :=
  bind_room (generateRoomId "x9" 3) "B" (set_isWaiting true (newUser "sA" "A" noInfo 0)).

Definition roomAB : Room := newRoom (generateRoomId "x9" 3) 1 0 3.

(** The timer armed by the search of ["A"], and what happens after it
    fired: ["B"] arrives and searches. *)
Definition timerA : Timer := {| t_socket := "sA"; t_user := 0; t_delay := 30000 |}.

Definition lateArrival : list Event :=
  [Connection "sB"; RegisterUser "sB" "B" noInfo 40000; FindRandomPartner "sB" "x9" 40001].

(** ["A"] registers again on its socket while searching. *)
Definition registeredAgain : State :=
  run matchingPreferences [RegisterUser "sA" "A" noInfo 5] searchingA.

(** ["A"], in a call with ["B"], registers again on its socket. *)
Definition reregisteredInCall : State :=
  run matchingPreferences [RegisterUser "sA" "A" noInfo 10] inCall.

(** ["C"] arrives and searches, then ["A"] searches and is matched with
    ["C"]. *)
Definition newCall : list Event :=
  [Connection "sC"; RegisterUser "sC" "C" noInfo 11;
   FindRandomPartner "sC" "m4" 12; FindRandomPartner "sA" "p7" 13].

Definition inNewCall : State := run matchingPreferences newCall reregisteredInCall.

(** ** Vocabulary of the further properties of the signalling core *)

(** The user registered on waiting socket [w] exists and is compatible with
    [u]: the test [findPartner] makes on one entry of the waiting set. *)
Definition compatible_entry (mp : MatchingPreferences) (st : State) (u : User)
    (w : string) : Prop :=
  exists a p, connectedUsers st !! w = Some a /\ heap st !! a = Some p /\
              areUsersCompatible mp u p = true.

(** The waiting set holds no socket twice, and each of its sockets is live
    and registered. *)
Definition queue_registered (st : State) : Prop :=
  NoDup (waitingUsers st) /\
  forall s, s ∈ waitingUsers st -> s ∈ sockets st /\ is_Some (connectedUsers st !! s).

(** Two strangers registered, the first of them searching. *)
Definition strangersWaiting : State :=
  run matchingPreferences
      [Connection "sA"; Connection "sB";
       RegisterUser "sA" "A" noInfo 0; RegisterUser "sB" "B" noInfo 1;
       FindRandomPartner "sA" "k3j" 2] initial.

(** * The REST endpoints

    The follow, status and chat endpoints of [signaling-server.js] keep
    three further process-wide maps.  Each handler becomes a function from
    the stores to the new stores and the reply.  The fields of a request
    body or query are strings, or absent; the clock readings of one request
    are taken as one value [now], and [rnd] stands for the digits
    [Math.random().toString(36).substr(2, 9)]. *)

(** ** A JS [Map] with string keys

    The entries in insertion order; a key is entered at most once. *)
Section JsMap.

Context {V : Type}.

Definition Map_has (k : string) (m : list (string * V)) : bool :=
  bool_decide (k ∈ m.*1).

Fixpoint Map_get (k : string) (m : list (string * V)) : option V :=
  match m with
  | [] => None
  | (k', v) :: m' => if decide (k' = k) then Some v else Map_get k m'
  end.

(** [Map.prototype.set]: a present key keeps its place. *)
Fixpoint Map_set (k : string) (v : V) (m : list (string * V)) : list (string * V) :=
  match m with
  | [] => [(k, v)]
  | (k', v') :: m' => if decide (k' = k) then (k, v) :: m' else (k', v') :: Map_set k v m'
  end.

Definition Map_delete (k : string) (m : list (string * V)) : list (string * V) :=
  filter (λ e, e.1 ≠ k) m.

End JsMap.

(** ** Stored objects *)

(** A value of [followRelationships] (lines 595-599). *)
Record Relationship := {
  followerId : string;
  followingId : string;
  follow_createdAt : Z
}.

(** A status update (lines 707-718); the two dates are kept as instants in
    milliseconds, of which the stored ISO strings are the rendering. *)
Record Status := {
  statusId : string;
  status_userId : string;
  status_content : string;
  status_type : string;
  status_mediaUrl : option string;
  status_backgroundColor : string;
  status_createdAt : Z;
  status_expiresAt : Z;
  status_views : list string;
  status_isActive : bool
}.

(** A chat message (lines 1067-1077); [msg_duration] is the client's
    number, passed through. *)
Record Message := {
  messageId : string;
  msg_conversationId : string;
  msg_senderId : string;
  msg_content : option string;
  msg_type : string;
  msg_duration : option Z;
  msg_timestamp : Z;
  msg_isRead : bool;
  msg_reactions : list string
}.

Record Db := {
  followRelationships : list (string * Relationship);   (* Map: followKey -> relationship *)
  userStatuses : list (string * list Status);           (* Map: userId -> statuses *)
  chatMessages : list (string * list Message)           (* Map: conversationId -> messages *)
}.

Definition empty_db : Db :=
  {| followRelationships := []; userStatuses := []; chatMessages := [] |}.

Definition set_followRelationships (m : list (string * Relationship)) (db : Db) : Db :=
  {| followRelationships := m; userStatuses := userStatuses db;
     chatMessages := chatMessages db |}.

Definition set_userStatuses (m : list (string * list Status)) (db : Db) : Db :=
  {| followRelationships := followRelationships db; userStatuses := m;
     chatMessages := chatMessages db |}.

Definition set_chatMessages (m : list (string * list Message)) (db : Db) : Db :=
  {| followRelationships := followRelationships db; userStatuses := userStatuses db;
     chatMessages := m |}.

(** ** Replies *)

(** The JSON bodies of the successful replies; [success: true] is part of
    each. *)
Inductive Body :=
| FollowDone (message : string) (isFollowing : bool)
| StatusCreated (status : Status) (message : string)
| Done (message : string)
| MessageSent (message : Message) (messageId : string).

(** [res.json(body)] or [res.status(code).json({ error })]. *)
Inductive Reply :=
| Json (body : Body)
| HttpError (code : Z) (error : string).

(** ** Follow and unfollow *)

(** [`${currentUserId}_${targetUserId}`]. *)
Definition followKey (currentUserId targetUserId : string) : string :=
  currentUserId +:+ "_" +:+ targetUserId.

(** [POST /api/discover/follow] (lines 581-612). *)
Definition follow (currentUserId targetUserId : option string) (now : Z)
    (db : Db) : Db * Reply :=
  if negb (truthy currentUserId) || negb (truthy targetUserId)
  then (db, HttpError 400 "Missing required fields")
  else
    let key := followKey (or_empty currentUserId) (or_empty targetUserId) in
    if Map_has key (followRelationships db)
    then (db, HttpError 400 "Already following this user")
    else
      (set_followRelationships
         (Map_set key {| followerId := or_empty currentUserId;
                         followingId := or_empty targetUserId;
                         follow_createdAt := now |}
                  (followRelationships db)) db,
       Json (FollowDone "Successfully followed user" true)).

(** [POST /api/discover/unfollow] (lines 614-641). *)
Definition unfollow (currentUserId targetUserId : option string)
    (db : Db) : Db * Reply :=
  if negb (truthy currentUserId) || negb (truthy targetUserId)
  then (db, HttpError 400 "Missing required fields")
  else
    let key := followKey (or_empty currentUserId) (or_empty targetUserId) in
    if negb (Map_has key (followRelationships db))
    then (db, HttpError 400 "Not following this user")
    else
      (set_followRelationships (Map_delete key (followRelationships db)) db,
       Json (FollowDone "Successfully unfollowed user" false)).

(** A template literal renders an absent value as ["undefined"]. *)
Definition template (x : option string) : string :=
  match x with
  | Some s => s
  | None => "undefined"
  end.

(** The [isFollowing] flag the discover endpoints attach to a profile
    (lines 526-527, 568-569, 683-684); [currentUserId] comes from the
    query. *)
Definition isFollowing_flag (currentUserId : option string) (userId : string)
    (db : Db) : bool :=
  Map_has (followKey (template currentUserId) userId) (followRelationships db).

(** ** Status updates *)

Definition dayMs : Z := 24 * 60 * 60 * 1000.

(** The object built at lines 706-718; a default of the destructuring
    applies to an absent field only. *)
Definition newStatus (userId content : string) (type mediaUrl backgroundColor : option string)
    (rnd : string) (now : Z) : Status :=
  {| statusId := "status_" +:+ pretty now +:+ "_" +:+ rnd;
     status_userId := userId;
     status_content := content;
     status_type := default "text" type;
     status_mediaUrl := mediaUrl;
     status_backgroundColor := default "#667eea" backgroundColor;
     status_createdAt := now;
     status_expiresAt := now + dayMs;
     status_views := [];
     status_isActive := true |}.

(** [if (!m.has(k)) m.set(k, []); m.get(k).push(x)] (lines 721-724 and
    1080-1083). *)
Definition Map_push {A : Type} (k : string) (x : A) (m : list (string * list A))
  : list (string * list A) :=
  let m1 := if Map_has k m then m else Map_set k [] m in
  Map_set k (default [] (Map_get k m1) ++ [x])%list m1.

(** [POST /api/status/create] (lines 698-737). *)
Definition status_create (userId content type mediaUrl backgroundColor : option string)
    (rnd : string) (now : Z) (db : Db) : Db * Reply :=
  if negb (truthy userId) || negb (truthy content)
  then (db, HttpError 400 "Missing required fields")
  else
    let status := newStatus (or_empty userId) (or_empty content) type mediaUrl
                            backgroundColor rnd now in
    (set_userStatuses (Map_push (or_empty userId) status (userStatuses db)) db,
     Json (StatusCreated status "Status created successfully")).

(** [status.isActive && new Date(status.expiresAt) > now] (lines 748-751
    and 793-796). *)
Definition listed (now : Z) (status : Status) : bool :=
  status_isActive status && (now <? status_expiresAt status)%Z.

Definition activeStatuses (now : Z) (userStatusList : list Status) : list Status :=
  filter (λ status, listed now status = true) userStatusList.

(** [status.views.includes(viewerId)]; the views hold strings only. *)
Definition includes (viewerId : option string) (views : list string) : bool :=
  match viewerId with
  | Some v => bool_decide (v ∈ views)
  | None => false
  end.

(** What a listing adds to a status (lines 754-759 and 799-804), but for
    the [userProfile] that [generateUserProfile] draws at random. *)
Record ListedStatus := {
  shown : Status;
  hasViewed : bool;
  viewCount : nat
}.

Definition with_viewer (viewerId : option string) (status : Status) : ListedStatus :=
  {| shown := status;
     hasViewed := includes viewerId (status_views status);
     viewCount := length (status_views status) |}.

(** [GET /api/status/user/:userId] (lines 739-769): the statuses and their
    total. *)
Definition status_user (userId : string) (viewerId : option string) (now : Z)
    (db : Db) : list ListedStatus * nat :=
  let userStatusList := default [] (Map_get userId (userStatuses db)) in
  let statusesWithProfile := with_viewer viewerId <$> activeStatuses now userStatusList in
  (statusesWithProfile, length statusesWithProfile).

(** [status.views.push(viewerId)]. *)
Definition push_view (viewerId : string) (status : Status) : Status :=
  {| statusId := statusId status; status_userId := status_userId status;
     status_content := status_content status; status_type := status_type status;
     status_mediaUrl := status_mediaUrl status;
     status_backgroundColor := status_backgroundColor status;
     status_createdAt := status_createdAt status;
     status_expiresAt := status_expiresAt status;
     status_views := (status_views status ++ [viewerId])%list;
     status_isActive := status_isActive status |}.

(** [status.isActive = false]. *)
Definition deactivate (status : Status) : Status :=
  {| statusId := statusId status; status_userId := status_userId status;
     status_content := status_content status; status_type := status_type status;
     status_mediaUrl := status_mediaUrl status;
     status_backgroundColor := status_backgroundColor status;
     status_createdAt := status_createdAt status;
     status_expiresAt := status_expiresAt status;
     status_views := status_views status;
     status_isActive := false |}.

(** The loop of lines 848-856 over the entries of [userStatuses]: in each
    list the first status with the id is looked at; the first one found
    that the viewer has not viewed yet records the view and ends the
    loop. *)
Fixpoint status_view_scan (sid viewerId : string) (m : list (string * list Status))
    : option (list (string * list Status)) :=
  match m with
  | [] => None
  | (userId, statusList) :: m' =>
      match list_find (λ s, statusId s = sid) statusList with
      | Some (i, status) =>
          if bool_decide (viewerId ∈ status_views status)
          then cons (userId, statusList) <$> status_view_scan sid viewerId m'
          else Some ((userId, <[i := push_view viewerId status]> statusList) :: m')
      | None => cons (userId, statusList) <$> status_view_scan sid viewerId m'
      end
  end.

(** [POST /api/status/view] (lines 838-870). *)
Definition status_view (sid viewerId : option string) (db : Db) : Db * Reply :=
  if negb (truthy sid) || negb (truthy viewerId)
  then (db, HttpError 400 "Missing required fields")
  else
    match status_view_scan (or_empty sid) (or_empty viewerId) (userStatuses db) with
    | Some m => (set_userStatuses m db, Json (Done "Status view recorded"))
    | None => (db, HttpError 404 "Status not found")
    end.

(** [DELETE /api/status/:statusId] (lines 872-901); the id is a segment of
    the path. *)
Definition status_delete (sid : string) (userId : option string) (db : Db) : Db * Reply :=
  if negb (truthy userId) then (db, HttpError 400 "Missing userId")
  else
    let userStatusList := default [] (Map_get (or_empty userId) (userStatuses db)) in
    match list_find (λ s, statusId s = sid) userStatusList with
    | None => (db, HttpError 404 "Status not found")
    | Some (statusIndex, status) =>
        (set_userStatuses
           (Map_set (or_empty userId) (<[statusIndex := deactivate status]> userStatusList)
                    (userStatuses db)) db,
         Json (Done "Status deleted successfully"))
    end.

(** ** The feed of followed users *)

(** The users whose statuses the feed of [userId] collects (lines
    776-785): the [followingId] of every relationship whose [followerId] is
    [userId], then [userId] itself. *)
Definition followingUsers (userId : string) (db : Db) : list string :=
  (((λ e, followingId e.2) <$>
      filter (λ e, followerId e.2 = userId) (followRelationships db))
   ++ [userId])%list.

(** [Array.prototype.sort] is stable; with the comparator of line 809 it
    yields the stable arrangement by decreasing [createdAt]. *)
Fixpoint insert_newest (x : ListedStatus) (l : list ListedStatus) : list ListedStatus :=
  match l with
  | [] => [x]
  | y :: l' =>
      if (status_createdAt (shown y) <=? status_createdAt (shown x))%Z
      then x :: y :: l'
      else y :: insert_newest x l'
  end.

Definition sort_newest_first (l : list ListedStatus) : list ListedStatus :=
  foldr insert_newest [] l.

(** [allStatuses] of [GET /api/status/following/:userId], collected (lines
    788-806) and sorted (line 809). *)
Definition collected (userId : string) (now : Z) (db : Db) : list ListedStatus :=
  followedUserId ← followingUsers userId db;
  with_viewer (Some userId) <$>
    activeStatuses now (default [] (Map_get followedUserId (userStatuses db))).

Definition allStatuses (userId : string) (now : Z) (db : Db) : list ListedStatus :=
  sort_newest_first (collected userId now db).

(** ** Chat *)

(** [POST /api/chat/send] (lines 1058-1096). *)
Definition chat_send (conversationId senderId content type : option string)
    (duration : option Z) (rnd : string) (now : Z) (db : Db) : Db * Reply :=
  let type := default "text" type in
  if negb (truthy conversationId) || negb (truthy senderId)
     || (negb (truthy content) && negb (String.eqb type "voice"))
  then (db, HttpError 400 "Missing required fields")
  else
    let message :=
      {| messageId := "msg_" +:+ pretty now +:+ "_" +:+ rnd;
         msg_conversationId := or_empty conversationId;
         msg_senderId := or_empty senderId;
         msg_content := content;
         msg_type := type;
         msg_duration := if String.eqb type "voice" then duration else None;
         msg_timestamp := now;
         msg_isRead := false;
         msg_reactions := [] |} in
    (set_chatMessages (Map_push (or_empty conversationId) message (chatMessages db)) db,
     Json (MessageSent message (messageId message))).

(** ** Monitoring *)

(** The body of [GET /stats] (lines 1099-1109), but for [uptime]. *)
Record Stats := {
  stats_connectedUsers : nat;
  stats_waitingUsers : nat;
  stats_activeRooms : nat;
  totalFollowRelationships : nat;
  totalStatuses : nat;
  totalConversations : nat
}.

Definition stats (st : State) (db : Db) : Stats :=
  {| stats_connectedUsers := size (connectedUsers st);
     stats_waitingUsers := length (waitingUsers st);
     stats_activeRooms := size (activeRooms st);
     totalFollowRelationships := length (followRelationships db);
     totalStatuses := foldl (λ sum statuses, sum + length statuses) 0 (userStatuses db).*2;
     totalConversations := length (chatMessages db) |}.

(** ** Requests that change the stores *)

Inductive Request :=
| Follow (currentUserId targetUserId : option string) (now : Z)
| Unfollow (currentUserId targetUserId : option string)
| StatusCreate (userId content type mediaUrl backgroundColor : option string)
               (rnd : string) (now : Z)
| StatusView (sid viewerId : option string)
| StatusDelete (sid : string) (userId : option string)
| ChatSend (conversationId senderId content type : option string)
           (duration : option Z) (rnd : string) (now : Z).

Definition handle (req : Request) (db : Db) : Db * Reply :=
  match req with
  | Follow currentUserId targetUserId now => follow currentUserId targetUserId now db
  | Unfollow currentUserId targetUserId => unfollow currentUserId targetUserId db
  | StatusCreate userId content type mediaUrl backgroundColor rnd now =>
      status_create userId content type mediaUrl backgroundColor rnd now db
  | StatusView sid viewerId => status_view sid viewerId db
  | StatusDelete sid userId => status_delete sid userId db
  | ChatSend conversationId senderId content type duration rnd now =>
      chat_send conversationId senderId content type duration rnd now db
  end.

(** The stores the requests can build. *)
Inductive reachable_db : Db -> Prop :=
| reachable_db_empty : reachable_db empty_db
| reachable_db_handle db req : reachable_db db -> reachable_db (handle req db).1.

(** ** Vocabulary of the properties of the REST endpoints *)

(** The number of stored items over all keys. *)
Definition sum_lengths {A : Type} (m : list (string * list A)) : nat :=
  sum_list (length <$> m.*2).

(** The statuses stored for a user are that user's, and nobody occurs twice
    among the viewers of a status. *)
Definition statuses_sound (db : Db) : Prop :=
  forall uid l s, Map_get uid (userStatuses db) = Some l -> s ∈ l ->
    status_userId s = uid /\ NoDup (status_views s).

(** Every relationship is filed once, under the key of its two ids. *)
Definition follows_sound (db : Db) : Prop :=
  NoDup (followRelationships db).*1 /\
  forall k r, (k, r) ∈ followRelationships db ->
    k = followKey (followerId r) (followingId r).

(** [x] was created no earlier than [y]. *)
Definition newer_or_equal (x y : ListedStatus) : Prop :=
  (status_createdAt (shown y) <= status_createdAt (shown x))%Z.

(** ["alice"] follows ["bob"], ["bob"] posts a status and ["alice"] views
    it. *)
Definition aliceFollowsBob : Db :=
  (handle (Follow (Some "alice") (Some "bob") 1000) empty_db).1.

Definition bobPosted : Db :=
  (handle (StatusCreate (Some "bob") (Some "hello") None None None "q1w2e3" 5000)
          aliceFollowsBob).1.

Definition bobStatus : Status := newStatus "bob" "hello" None None None "q1w2e3" 5000.

Definition bobViewed : Db :=
  (handle (StatusView (Some (statusId bobStatus)) (Some "alice")) bobPosted).1.

(** A stored message is filed under its own conversation, is unread and
    without reactions, and lacks a content or carries a duration only if it
    is a voice message. *)
Definition messages_sound (db : Db) : Prop :=
  forall cid l m, Map_get cid (chatMessages db) = Some l -> m ∈ l ->
    msg_conversationId m = cid /\ msg_isRead m = false /\ msg_reactions m = [] /\
    (truthy (msg_content m) = false -> msg_type m = "voice") /\
    (msg_duration m <> None -> msg_type m = "voice").

(** One message sent to a new conversation. *)
Definition chatted : Db :=
  (handle (ChatSend (Some "c1") (Some "alice") (Some "hi") None None "z9" 7000) empty_db).1.

Definition firstMessage : Message :=
  {| messageId := "msg_" +:+ pretty 7000%Z +:+ "_" +:+ "z9";
     msg_conversationId := "c1"; msg_senderId := "alice"; msg_content := Some "hi";
     msg_type := "text"; msg_duration := None; msg_timestamp := 7000;
     msg_isRead := false; msg_reactions := [] |}.

(** * Properties *)

(** ** Compatibility rule *)

Lemma areUsersCompatible_true mp a b :
  areUsersCompatible mp a b = true <->
    userId a <> userId b /\
    (sameUniversity mp = true -> university a = university b) /\
    (sameGender mp = true -> gender a = gender b).
Proof.
  unfold areUsersCompatible.
  destruct (String.eqb_spec (userId a) (userId b)) as [Hid|Hid].
  { split; [discriminate | intros [? _]; contradiction]. }
  destruct (sameUniversity mp), (sameGender mp);
    destruct (String.eqb_spec (university a) (university b));
    destruct (String.eqb_spec (gender a) (gender b)); simpl;
    split; try discriminate; try (intros _; repeat split; congruence);
    intros (_ & Hu & Hg); try (specialize (Hu eq_refl)); try (specialize (Hg eq_refl));
    congruence.
Qed.

(** C2. [areUsersCompatible] answers [false] for two users with the same
    [userId]; for different ids it answers [true] exactly when every enabled
    option of the matching preferences finds the two profile fields equal;
    fields left out of [userInfo] and empty fields are both stored as the
    empty string and so compare equal; and with [sameUniversity] enabled,
    different universities give [false] whatever the other fields are. *)
Theorem areUsersCompatible_spec (mp : MatchingPreferences) :
  (forall a b, userId a = userId b -> areUsersCompatible mp a b = false) /\
  (forall a b, userId a <> userId b ->
     (areUsersCompatible mp a b = true <->
        (sameUniversity mp = true -> university a = university b) /\
        (sameGender mp = true -> gender a = gender b))) /\
  (forall sid1 uid1 i1 now1 sid2 uid2 i2 now2,
     (info_university i1 = None \/ info_university i1 = Some "") ->
     (info_university i2 = None \/ info_university i2 = Some "") ->
     (info_gender i1 = None \/ info_gender i1 = Some "") ->
     (info_gender i2 = None \/ info_gender i2 = Some "") ->
     uid1 <> uid2 ->
     areUsersCompatible mp (newUser sid1 uid1 i1 now1) (newUser sid2 uid2 i2 now2) = true) /\
  (forall a b, sameUniversity mp = true -> university a <> university b ->
     areUsersCompatible mp a b = false).
Proof.
  split; [|split; [|split]].
  - intros a b Hid. unfold areUsersCompatible.
    rewrite (proj2 (String.eqb_eq _ _) Hid). reflexivity.
  - intros a b Hid. rewrite areUsersCompatible_true. tauto.
  - intros sid1 uid1 i1 now1 sid2 uid2 i2 now2 Hu1 Hu2 Hg1 Hg2 Hne.
    apply areUsersCompatible_true. simpl.
    split; [exact Hne|].
    split; intros _.
    + destruct Hu1 as [-> | ->], Hu2 as [-> | ->]; reflexivity.
    + destruct Hg1 as [-> | ->], Hg2 as [-> | ->]; reflexivity.
  - intros a b Hmp Hne.
    destruct (areUsersCompatible mp a b) eqn:E; [|reflexivity].
    apply areUsersCompatible_true in E. destruct E as (_ & Hu & _).
    elim Hne. auto.
Qed.

(** ** [Room.getOtherUser] *)

(** C7, as stated, fails: for a user id that belongs to neither member the
    lookup does not fail, it answers with the first member. *)
Lemma getOtherUser_stranger_found :
  ~ (forall h room uid,
       (forall a u, a ∈ users room -> h !! a = Some u -> userId u <> uid) ->
       getOtherUser h room uid = None).
Proof.
  intros H.
  specialize (H twoUsers (newRoom "room_r_5" 0 1 5) "C").
  assert (Hn : getOtherUser twoUsers (newRoom "room_r_5" 0 1 5) "C" = None).
  { apply H. intros a u Ha Hu. simpl in Ha.
    apply elem_of_cons in Ha as [-> | Ha].
    - injection Hu as <-. discriminate.
    - apply elem_of_cons in Ha as [-> | Ha].
      + injection Hu as <-. discriminate.
      + apply elem_of_nil in Ha. contradiction. }
  vm_compute in Hn. discriminate.
Qed.

(** C7 (amended). For a room of two members, [getOtherUser] returns the peer
    when the user id is that of exactly one member; when it is the id of
    neither it returns the first member; it returns nothing only when both
    members carry that id. *)
Theorem getOtherUser_two_members h rid a1 a2 now u1 u2 uid :
  h !! a1 = Some u1 -> h !! a2 = Some u2 ->
  (userId u1 = uid -> userId u2 <> uid ->
     getOtherUser h (newRoom rid a1 a2 now) uid = Some a2) /\
  (userId u1 <> uid -> userId u2 = uid ->
     getOtherUser h (newRoom rid a1 a2 now) uid = Some a1) /\
  (userId u1 <> uid -> userId u2 <> uid ->
     getOtherUser h (newRoom rid a1 a2 now) uid = Some a1) /\
  (userId u1 = uid -> userId u2 = uid ->
     getOtherUser h (newRoom rid a1 a2 now) uid = None).
Proof.
  intros H1 H2. unfold getOtherUser. simpl. rewrite H1, H2.
  destruct (String.eqb_spec (userId u1) uid), (String.eqb_spec (userId u2) uid);
    simpl; repeat split; intros; congruence.
Qed.

Lemma getOtherUser_two_members_witness :
  getOtherUser twoUsers (newRoom "room_r_5" 0 1 5) "A" = Some 1 /\
  getOtherUser twoUsers (newRoom "room_r_5" 0 1 5) "B" = Some 0 /\
  getOtherUser twoUsers (newRoom "room_r_5" 0 1 5) "C" = Some 0.
Proof.
  pose proof (getOtherUser_two_members twoUsers "room_r_5" 0 1 5 _ _ "A" eq_refl eq_refl)
    as (HA & _).
  pose proof (getOtherUser_two_members twoUsers "room_r_5" 0 1 5 _ _ "B" eq_refl eq_refl)
    as (_ & HB & _).
  pose proof (getOtherUser_two_members twoUsers "room_r_5" 0 1 5 _ _ "C" eq_refl eq_refl)
    as (_ & _ & HC & _).
  split; [|split].
  - apply HA; [reflexivity | discriminate].
  - apply HB; [discriminate | reflexivity].
  - apply HC; discriminate.
Defined.

(** ** Messages without a session *)

Lemma on_socket_live sid handler st :
  sid ∈ sockets st -> on_socket sid handler st = handler st.
Proof. intros H. unfold on_socket. rewrite decide_True; auto. Qed.

Lemma relay_no_session mk sid st :
  current_session st sid = None -> relay mk sid st = (st, []).
Proof. intros H. unfold relay. rewrite H. reflexivity. Qed.

Lemma accept_call_no_session sid st :
  current_session st sid = None ->
  exists message, accept_call sid st = (st, [(SocketEmit sid, Error message)]).
Proof.
  unfold current_session, accept_call.
  destruct (get_user st sid) as [[user u]|]; [|eauto].
  destruct (truthy (currentRoom u)); [|eauto].
  destruct (activeRooms st !! or_empty (currentRoom u)); [discriminate|eauto].
Qed.

(** C5, as stated, fails for [reject-call]: a registered socket without a
    call that rejects gets no answer at all. *)
Lemma reject_call_no_feedback :
  ~ (forall st sid, sid ∈ sockets st -> current_session st sid = None ->
       exists message,
         (SocketEmit sid, Error message) ∈ (step matchingPreferences (RejectCall sid) st).2).
Proof.
  intros H.
  destruct (H registeredA "sA") as [message Hm].
  - apply (bool_decide_unpack _). vm_compute. exact I.
  - reflexivity.
  - vm_compute in Hm. apply elem_of_nil in Hm. exact Hm.
Qed.

(** C5 (amended). On a live socket that holds no active session,
    [accept-call] is answered with an error message on that socket and
    changes nothing; [reject-call], [offer], [answer], [ice-candidate] and
    [end-call] are dropped: nothing is emitted and nothing changes. *)
Theorem no_session_feedback mp sid st :
  sid ∈ sockets st ->
  current_session st sid = None ->
  (exists message,
     step mp (AcceptCall sid) st = (st, [(SocketEmit sid, Error message)])) /\
  step mp (RejectCall sid) st = (st, []) /\
  (forall sdp type, step mp (Offer sid sdp type) st = (st, [])) /\
  (forall sdp type, step mp (Answer sid sdp type) st = (st, [])) /\
  (forall candidate, step mp (IceCandidate sid candidate) st = (st, [])) /\
  step mp (EndCall sid) st = (st, []).
Proof.
  intros Hlive Hnone. simpl. rewrite !on_socket_live by exact Hlive.
  split; [apply accept_call_no_session; exact Hnone|].
  split; [unfold reject_call; rewrite Hnone; reflexivity|].
  split; [intros; rewrite on_socket_live by exact Hlive; apply relay_no_session; exact Hnone|].
  split; [intros; rewrite on_socket_live by exact Hlive; apply relay_no_session; exact Hnone|].
  split; [intros; rewrite on_socket_live by exact Hlive; apply relay_no_session; exact Hnone|].
  unfold end_call. rewrite Hnone. reflexivity.
Qed.

Lemma no_session_feedback_witness :
  (exists message,
     step matchingPreferences (AcceptCall "sA") registeredA
       = (registeredA, [(SocketEmit "sA", Error message)])) /\
  step matchingPreferences (RejectCall "sA") registeredA = (registeredA, []).
Proof.
  assert (Hlive : "sA" ∈ sockets registeredA).
  { apply (bool_decide_unpack _). vm_compute. exact I. }
  destruct (no_session_feedback matchingPreferences "sA" registeredA Hlive eq_refl)
    as (Ha & Hr & _).
  exact (conj Ha Hr).
Defined.

(** ** Closing a room *)

Lemma room_cleared_alter_eq h a : room_cleared (alter clear_room a h) a.
Proof.
  intros u. rewrite list_lookup_alter_eq.
  destruct (h !! a); simpl; [|discriminate]. intros [= <-]. reflexivity.
Qed.

Lemma room_cleared_alter_mono h a b :
  room_cleared h b -> room_cleared (alter clear_room a h) b.
Proof.
  intros H. destruct (decide (a = b)) as [->|Hne].
  - apply room_cleared_alter_eq.
  - intros u. rewrite list_lookup_alter_ne by exact Hne. apply H.
Qed.

Lemma current_session_unregistered st sid :
  connectedUsers st !! sid = None -> current_session st sid = None.
Proof. intros H. unfold current_session, get_user. rewrite H. reflexivity. Qed.

Lemma current_session_cleared st sid a :
  connectedUsers st !! sid = Some a -> room_cleared (heap st) a ->
  current_session st sid = None.
Proof.
  intros Hc Hr. unfold current_session, get_user. rewrite Hc.
  destruct (heap st !! a) as [u|] eqn:Hu; [|reflexivity].
  rewrite (Hr u Hu). reflexivity.
Qed.

Lemma current_session_Some st sid user u room :
  current_session st sid = Some (user, u, room) ->
  connectedUsers st !! sid = Some user /\ heap st !! user = Some u /\
  truthy (currentRoom u) = true /\
  activeRooms st !! or_empty (currentRoom u) = Some room.
Proof.
  unfold current_session, get_user.
  destruct (connectedUsers st !! sid) as [a|]; [|discriminate].
  destruct (heap st !! a) as [u0|] eqn:Hu; [|discriminate].
  destruct (truthy (currentRoom u0)) eqn:Ht; [|discriminate].
  destruct (activeRooms st !! or_empty (currentRoom u0)) eqn:Hr; [|discriminate].
  intros [= <- <- <-]. auto.
Qed.

Lemma clear_partner_connectedUsers psid st :
  connectedUsers (clear_partner psid st) = connectedUsers st.
Proof. unfold clear_partner. destruct (connectedUsers st !! psid); reflexivity. Qed.

Lemma clear_partner_cleared psid st a :
  room_cleared (heap st) a -> room_cleared (heap (clear_partner psid st)) a.
Proof.
  intros H. unfold clear_partner. destruct (connectedUsers st !! psid); [|exact H].
  simpl. apply room_cleared_alter_mono, H.
Qed.

Lemma clear_partner_no_session psid st :
  current_session (clear_partner psid st) psid = None.
Proof.
  destruct (connectedUsers st !! psid) as [pa|] eqn:Hp.
  - apply current_session_cleared with pa.
    + rewrite clear_partner_connectedUsers. exact Hp.
    + unfold clear_partner. rewrite Hp. simpl. apply room_cleared_alter_eq.
  - apply current_session_unregistered.
    rewrite clear_partner_connectedUsers. exact Hp.
Qed.

Lemma close_room_connectedUsers room user ps st :
  connectedUsers (close_room room user ps st) = connectedUsers st.
Proof.
  unfold close_room. destruct ps; [rewrite clear_partner_connectedUsers|]; reflexivity.
Qed.

Lemma close_room_cleared room user ps st :
  room_cleared (heap (close_room room user ps st)) user.
Proof.
  unfold close_room. destruct ps.
  - apply clear_partner_cleared. simpl. apply room_cleared_alter_eq.
  - simpl. apply room_cleared_alter_eq.
Qed.

Lemma close_room_no_session room user ps st sid :
  connectedUsers st !! sid = Some user ->
  current_session (close_room room user ps st) sid = None.
Proof.
  intros H. apply current_session_cleared with user.
  - rewrite close_room_connectedUsers. exact H.
  - apply close_room_cleared.
Qed.

Lemma close_room_partner_no_session room user psid st :
  current_session (close_room room user (Some psid) st) psid = None.
Proof. unfold close_room. apply clear_partner_no_session. Qed.

Lemma no_session_noop mp s st :
  current_session st s = None ->
  step mp (EndCall s) st = (st, []) /\ step mp (RejectCall s) st = (st, []).
Proof.
  intros Hn. cbn [step]. unfold on_socket, end_call, reject_call. rewrite Hn.
  destruct (decide (s ∈ sockets st)); auto.
Qed.

Lemma end_call_closes sid st : current_session (end_call sid st).1 sid = None.
Proof.
  unfold end_call.
  destruct (current_session st sid) as [[[user u] room]|] eqn:Hs; [|exact Hs].
  apply current_session_Some in Hs as (Hc & _).
  destruct (getOtherUser (heap st) room (userId u)) as [partner|];
    [destruct (heap st !! partner) as [p|]|]; cbn [fst];
    apply close_room_no_session; exact Hc.
Qed.

Lemma reject_call_twice sid st :
  reject_call sid (reject_call sid st).1 = ((reject_call sid st).1, []).
Proof.
  unfold reject_call at 2 3.
  destruct (current_session st sid) as [[[user u] room]|] eqn:Hs.
  - destruct (getOtherUser (heap st) room (userId u)) as [partner|] eqn:Hg;
      [destruct (heap st !! partner) as [p|] eqn:Hp|]; cbn [fst].
    + apply current_session_Some in Hs as (Hc & _).
      unfold reject_call. rewrite close_room_no_session by exact Hc. reflexivity.
    + unfold reject_call. rewrite Hs, Hg, Hp. reflexivity.
    + unfold reject_call. rewrite Hs, Hg. reflexivity.
  - cbn [fst]. unfold reject_call. rewrite Hs. reflexivity.
Qed.

(** After the user registered on [sid] closed the room it shared with the
    user on [psid], neither socket holds a session. *)
Lemma end_call_closes_both sid psid st s :
  partner_socket st sid = Some psid -> s = sid \/ s = psid ->
  current_session (end_call sid st).1 s = None.
Proof.
  intros Hp [->| ->]; [apply end_call_closes|]. revert Hp.
  unfold partner_socket, end_call.
  destruct (current_session st sid) as [[[user u] room]|]; [|discriminate].
  destruct (getOtherUser (heap st) room (userId u)) as [partner|]; [|discriminate].
  destruct (heap st !! partner) as [p|]; [|discriminate].
  cbn [fst fmap option_fmap option_map]. intros [= <-].
  apply close_room_partner_no_session.
Qed.

Lemma reject_call_closes_both sid psid st s :
  partner_socket st sid = Some psid -> s = sid \/ s = psid ->
  current_session (reject_call sid st).1 s = None.
Proof.
  unfold partner_socket, reject_call.
  destruct (current_session st sid) as [[[user u] room]|] eqn:Hs; [|discriminate].
  apply current_session_Some in Hs as (Hc & _).
  destruct (getOtherUser (heap st) room (userId u)) as [partner|]; [|discriminate].
  destruct (heap st !! partner) as [p|]; [|discriminate].
  cbn [fst fmap option_fmap option_map]. intros [= <-] [->| ->].
  - apply close_room_no_session. exact Hc.
  - apply close_room_partner_no_session.
Qed.

Lemma disconnect_closes_both sid psid st s :
  partner_socket st sid = Some psid -> s = sid \/ s = psid ->
  current_session (disconnect sid st).1 s = None.
Proof.
  unfold partner_socket, disconnect.
  destruct (current_session st sid) as [[[user u] room]|] eqn:Hs; [|discriminate].
  destruct (current_session_Some _ _ _ _ _ Hs) as (Hc & Hu & _).
  unfold get_user. rewrite Hc, Hu.
  change (current_session (set_waitingUsers (set_delete sid (waitingUsers st)) st) sid)
    with (current_session st sid).
  rewrite Hs. cbn [heap set_waitingUsers].
  destruct (getOtherUser (heap st) room (userId u)) as [partner|]; [|discriminate].
  destruct (heap st !! partner) as [p|]; [|discriminate].
  cbn [fst fmap option_fmap option_map]. intros [= <-] Hwho.
  set (st1 := set_waitingUsers (set_delete sid (waitingUsers st)) st).
  destruct (decide (s = sid)) as [->|Hne].
  { apply current_session_unregistered. cbn [connectedUsers set_connectedUsers].
    apply lookup_delete_eq. }
  destruct Hwho as [->| ->]; [contradiction|].
  destruct (connectedUsers st !! socketId p) as [pa|] eqn:Hp.
  - apply current_session_cleared with pa.
    + cbn [connectedUsers set_connectedUsers set_activeRooms].
      rewrite lookup_delete_ne by congruence.
      rewrite clear_partner_connectedUsers. exact Hp.
    + cbn [heap set_connectedUsers set_activeRooms].
      unfold clear_partner, st1. cbn [connectedUsers set_waitingUsers].
      rewrite Hp. cbn [heap set_heap set_waitingUsers].
      apply room_cleared_alter_eq.
  - apply current_session_unregistered.
    cbn [connectedUsers set_connectedUsers set_activeRooms].
    rewrite lookup_delete_ne by congruence.
    rewrite clear_partner_connectedUsers. exact Hp.
Qed.

Lemma partner_socket_socket_closed sid st :
  partner_socket (socket_closed sid st) sid = partner_socket st sid.
Proof. reflexivity. Qed.

(** C9. Closing is idempotent.  A second [end-call] (or [reject-call]) on
    the same socket changes nothing and emits nothing; and once the user on
    a socket has closed the room it shares with a partner, by [end-call],
    [reject-call] or disconnection, any further [end-call] or [reject-call]
    from either of the two sockets leaves the registry, the queue, the rooms
    and everything else as the first close left them, emits nothing and
    raises no error. *)
Theorem close_idempotent (mp : MatchingPreferences) :
  (forall st sid,
     let st' := (step mp (EndCall sid) st).1 in
     step mp (EndCall sid) st' = (st', [])) /\
  (forall st sid,
     let st' := (step mp (RejectCall sid) st).1 in
     step mp (RejectCall sid) st' = (st', [])) /\
  (forall st sid psid, sid ∈ sockets st -> partner_socket st sid = Some psid ->
     forall closing s again,
       closing = EndCall sid \/ closing = RejectCall sid \/ closing = Disconnect sid ->
       s = sid \/ s = psid ->
       again = EndCall s \/ again = RejectCall s ->
       let st' := (step mp closing st).1 in
       step mp again st' = (st', [])).
Proof.
  split; [|split].
  - intros st sid st'. subst st'.
    destruct (decide (sid ∈ sockets st)) as [Hin|Hout].
    + apply no_session_noop. cbn [step]. rewrite on_socket_live by exact Hin.
      apply end_call_closes.
    + assert (Hst : step mp (EndCall sid) st = (st, [])).
      { cbn [step]. unfold on_socket. rewrite decide_False by exact Hout. reflexivity. }
      rewrite Hst. exact Hst.
  - intros st sid st'. subst st'.
    destruct (decide (sid ∈ sockets st)) as [Hin|Hout].
    + assert (Hst : step mp (RejectCall sid) st = reject_call sid st).
      { cbn [step]. apply on_socket_live, Hin. }
      rewrite Hst. cbn [step]. unfold on_socket.
      destruct (decide (sid ∈ sockets (reject_call sid st).1));
        [apply reject_call_twice | reflexivity].
    + assert (Hst : step mp (RejectCall sid) st = (st, [])).
      { cbn [step]. unfold on_socket. rewrite decide_False by exact Hout. reflexivity. }
      rewrite Hst. exact Hst.
  - intros st sid psid Hin Hp closing s again Hc Hs Ha st'. subst st'.
    assert (Hn : current_session (step mp closing st).1 s = None).
    { destruct Hc as [-> | [-> | ->]]; cbn [step]; rewrite on_socket_live by exact Hin.
      - apply (end_call_closes_both sid psid); assumption.
      - apply (reject_call_closes_both sid psid); assumption.
      - apply (disconnect_closes_both sid psid); [|assumption].
        rewrite partner_socket_socket_closed. exact Hp. }
    destruct (no_session_noop mp s _ Hn) as [He Hr].
    destruct Ha as [-> | ->]; assumption.
Qed.

Lemma close_idempotent_witness :
  let st' := (step matchingPreferences (EndCall "sA") inCall).1 in
  step matchingPreferences (EndCall "sB") st' = (st', []) /\
  step matchingPreferences (RejectCall "sA") st' = (st', []).
Proof.
  assert (Hlive : "sA" ∈ sockets inCall).
  { apply (bool_decide_unpack _). vm_compute. exact I. }
  assert (Hp : partner_socket inCall "sA" = Some "sB") by (vm_compute; reflexivity).
  split.
  - apply (proj2 (proj2 (close_idempotent matchingPreferences)) inCall "sA" "sB" Hlive Hp
             (EndCall "sA") "sB" (EndCall "sB")); auto.
  - apply (proj2 (proj2 (close_idempotent matchingPreferences)) inCall "sA" "sB" Hlive Hp
             (EndCall "sA") "sA" (RejectCall "sA")); auto.
Defined.

(** ** The sweep of inactive users *)

Lemma cleanup_fold_connected h now l c w sid :
  (foldr (cleanup_user h now) (c, w) l).1 !! sid =
    if existsb (λ e, bool_decide (e.1 = sid) && inactive h now e.2) l
    then None else c !! sid.
Proof.
  induction l as [|[k a] l IH]; [reflexivity|].
  cbn [foldr existsb]. unfold cleanup_user at 1. cbn [fst snd].
  destruct (inactive h now a) eqn:Hi.
  - cbn [fst]. destruct (decide (k = sid)) as [->|Hne].
    + rewrite bool_decide_eq_true_2 by reflexivity. simpl. apply lookup_delete_eq.
    + rewrite bool_decide_eq_false_2 by exact Hne. simpl.
      rewrite lookup_delete_ne by exact Hne. exact IH.
  - rewrite andb_false_r. simpl. exact IH.
Qed.

Lemma cleanup_fold_waiting h now l c w x :
  x ∈ (foldr (cleanup_user h now) (c, w) l).2 <->
    x ∈ w /\ existsb (λ e, bool_decide (e.1 = x) && inactive h now e.2) l = false.
Proof.
  induction l as [|[k a] l IH]; [simpl; tauto|].
  cbn [foldr existsb]. unfold cleanup_user at 1. cbn [fst snd].
  destruct (inactive h now a) eqn:Hi.
  - cbn [snd]. unfold set_delete. rewrite list_elem_of_filter, IH.
    destruct (decide (k = x)) as [->|Hne].
    + rewrite bool_decide_eq_true_2 by reflexivity. simpl.
      split; [intros [Hx _]; contradiction | intros [_ Hf]; discriminate].
    + rewrite bool_decide_eq_false_2 by exact Hne. simpl.
      split; [tauto | intros H; split; [congruence | exact H]].
  - rewrite andb_false_r. simpl. exact IH.
Qed.

Lemma existsb_map_to_list (c : gmap string nat) (f : nat -> bool) sid :
  existsb (λ e, bool_decide (e.1 = sid) && f e.2) (map_to_list c) =
    match c !! sid with Some a => f a | None => false end.
Proof.
  destruct (existsb _ _) eqn:E.
  - apply existsb_exists in E as ([k a] & Hin & Hp). simpl in Hp.
    apply andb_true_iff in Hp as [Hk Ha]. apply bool_decide_eq_true in Hk. subst k.
    apply list_elem_of_In, elem_of_map_to_list in Hin. rewrite Hin. auto.
  - destruct (c !! sid) as [a|] eqn:Hc; [|reflexivity].
    destruct (f a) eqn:Ha; [|reflexivity].
    rewrite <- E. apply (proj2 (existsb_exists _ _)). exists (sid, a). split.
    + apply list_elem_of_In, elem_of_map_to_list. exact Hc.
    + simpl. rewrite bool_decide_eq_true_2 by reflexivity. exact Ha.
Qed.

Lemma cleanupInactiveUsers_connected now st sid :
  connectedUsers (cleanupInactiveUsers now st) !! sid =
    if swept st now sid then None else connectedUsers st !! sid.
Proof.
  unfold cleanupInactiveUsers. cbn [connectedUsers set_waitingUsers set_connectedUsers].
  rewrite cleanup_fold_connected, existsb_map_to_list. reflexivity.
Qed.

Lemma cleanupInactiveUsers_waiting now st x :
  x ∈ waitingUsers (cleanupInactiveUsers now st) <->
    x ∈ waitingUsers st /\ swept st now x = false.
Proof.
  unfold cleanupInactiveUsers. cbn [waitingUsers set_waitingUsers].
  rewrite cleanup_fold_waiting, existsb_map_to_list. reflexivity.
Qed.

Lemma cleanup_connected now st sid :
  connectedUsers (cleanup now st) !! sid =
    if swept st now sid then None else connectedUsers st !! sid.
Proof. apply cleanupInactiveUsers_connected. Qed.

Lemma cleanup_waiting now st x :
  x ∈ waitingUsers (cleanup now st) <-> x ∈ waitingUsers st /\ swept st now x = false.
Proof. apply cleanupInactiveUsers_waiting. Qed.

Lemma cleanup_heap now st : heap (cleanup now st) = heap st.
Proof. reflexivity. Qed.

(** ** User objects keep their identity *)

Lemma same_identity_refl u : same_identity u u.
Proof. repeat split. Qed.

Lemma same_identity_trans u1 u2 u3 :
  same_identity u1 u2 -> same_identity u2 u3 -> same_identity u1 u3.
Proof. unfold same_identity. intuition congruence. Qed.

Lemma heap_extends_refl h : heap_extends h h.
Proof. intros a u H. exists u. split; [exact H | apply same_identity_refl]. Qed.

Lemma heap_extends_trans h1 h2 h3 :
  heap_extends h1 h2 -> heap_extends h2 h3 -> heap_extends h1 h3.
Proof.
  intros H12 H23 a u H.
  destruct (H12 a u H) as (u2 & H2 & Hs2).
  destruct (H23 a u2 H2) as (u3 & H3 & Hs3).
  exists u3. split; [exact H3 | eapply same_identity_trans; eassumption].
Qed.

Lemma heap_extends_alter (f : User -> User) a h :
  (forall u, same_identity u (f u)) -> heap_extends h (alter f a h).
Proof.
  intros Hf b u H. destruct (decide (a = b)) as [->|Hne].
  - exists (f u). rewrite list_lookup_alter_eq, H. split; [reflexivity | apply Hf].
  - exists u. rewrite list_lookup_alter_ne by exact Hne.
    split; [exact H | apply same_identity_refl].
Qed.

Lemma heap_extends_app h l : heap_extends h (h ++ l).
Proof.
  intros a u H. exists u. split; [|apply same_identity_refl].
  apply lookup_app_l_Some, H.
Qed.

Lemma same_identity_set_isWaiting b u : same_identity u (set_isWaiting b u).
Proof. repeat split. Qed.

Lemma same_identity_bind_room r p u : same_identity u (bind_room r p u).
Proof. repeat split. Qed.

Lemma same_identity_clear_room u : same_identity u (clear_room u).
Proof. repeat split. Qed.

Create HintDb heap.

#[local] Hint Resolve heap_extends_refl heap_extends_app heap_extends_alter
  same_identity_set_isWaiting same_identity_bind_room same_identity_clear_room : heap.

Lemma clear_partner_heap_extends psid st :
  heap_extends (heap st) (heap (clear_partner psid st)).
Proof.
  unfold clear_partner. destruct (connectedUsers st !! psid); simpl; auto with heap.
Qed.

Lemma close_room_heap_extends room user ps st :
  heap_extends (heap st) (heap (close_room room user ps st)).
Proof.
  unfold close_room. destruct ps as [psid|]; simpl; [|auto with heap].
  eapply heap_extends_trans; [|apply clear_partner_heap_extends]. simpl. auto with heap.
Qed.

Lemma register_user_heap_extends sid uid userInfo now st :
  heap_extends (heap st) (heap (register_user sid uid userInfo now st).1).
Proof. simpl. auto with heap. Qed.

Lemma find_random_partner_heap_extends mp sid rnd now st :
  heap_extends (heap st) (heap (find_random_partner mp sid rnd now st).1).
Proof.
  unfold find_random_partner.
  destruct (get_user st sid) as [[user u]|]; [|simpl; auto with heap].
  destruct (isWaiting u); [simpl; auto with heap|].
  destruct (findPartner mp st u) as [partner|].
  - destruct (heap st !! partner) as [p|]; [|simpl; auto with heap].
    unfold start_call. cbn [fst].
    match goal with |- context [decide ?P] => destruct (decide P) end; simpl;
      (eapply heap_extends_trans; [|apply heap_extends_alter; auto with heap]);
      auto with heap.
  - simpl. auto with heap.
Qed.

Lemma search_timeout_heap_extends t st :
  heap_extends (heap st) (heap (search_timeout t st).1).
Proof.
  unfold search_timeout. destruct (heap st !! t_user t) as [u|]; [|simpl; auto with heap].
  destruct (isWaiting u && set_has (t_socket t) (waitingUsers st)); simpl; auto with heap.
Qed.

Lemma accept_call_state sid st : (accept_call sid st).1 = st.
Proof.
  unfold accept_call. destruct (get_user st sid) as [[user u]|]; [|reflexivity].
  destruct (truthy (currentRoom u)); [|reflexivity].
  destruct (activeRooms st !! or_empty (currentRoom u)) as [room|]; [|reflexivity].
  destruct (getOtherUser (heap st) room (userId u)); reflexivity.
Qed.

Lemma relay_state mk sid st : (relay mk sid st).1 = st.
Proof.
  unfold relay. destruct (current_session st sid) as [[[user u] room]|]; [|reflexivity].
  destruct (getOtherUser (heap st) room (userId u)) as [partner|]; [|reflexivity].
  destruct (heap st !! partner); reflexivity.
Qed.

Lemma reject_call_heap_extends sid st :
  heap_extends (heap st) (heap (reject_call sid st).1).
Proof.
  unfold reject_call. destruct (current_session st sid) as [[[user u] room]|];
    [|simpl; auto with heap].
  destruct (getOtherUser (heap st) room (userId u)) as [partner|]; [|simpl; auto with heap].
  destruct (heap st !! partner); cbn [fst]; auto with heap.
  apply close_room_heap_extends.
Qed.

Lemma end_call_heap_extends sid st :
  heap_extends (heap st) (heap (end_call sid st).1).
Proof.
  unfold end_call. destruct (current_session st sid) as [[[user u] room]|];
    [|simpl; auto with heap].
  destruct (getOtherUser (heap st) room (userId u)) as [partner|];
    [destruct (heap st !! partner)|]; cbn [fst]; apply close_room_heap_extends.
Qed.

Lemma disconnect_heap_extends sid st :
  heap_extends (heap st) (heap (disconnect sid st).1).
Proof.
  unfold disconnect. destruct (get_user st sid) as [[user u]|]; [|simpl; auto with heap].
  set (st1 := set_waitingUsers (set_delete sid (waitingUsers st)) st).
  destruct (current_session st1 sid) as [[[user' u'] room]|]; [|simpl; auto with heap].
  destruct (getOtherUser (heap st1) room (userId u)) as [partner|]; [|simpl; auto with heap].
  destruct (heap st1 !! partner) as [p|]; [|simpl; auto with heap].
  cbn [fst heap set_connectedUsers set_activeRooms].
  apply (clear_partner_heap_extends (socketId p) st1).
Qed.

Lemma step_heap_extends mp ev st :
  heap_extends (heap st) (heap (step mp ev st).1).
Proof.
  destruct ev; cbn [step]; unfold on_socket;
    try (destruct (decide (sid ∈ sockets st)); [|solve [simpl; auto with heap]]).
  - unfold connection. destruct (decide (sid ∈ sockets st)); simpl; auto with heap.
  - apply register_user_heap_extends.
  - apply find_random_partner_heap_extends.
  - rewrite accept_call_state. auto with heap.
  - apply reject_call_heap_extends.
  - unfold offer. rewrite relay_state. auto with heap.
  - unfold answer. rewrite relay_state. auto with heap.
  - unfold ice_candidate. rewrite relay_state. auto with heap.
  - apply end_call_heap_extends.
  - apply (disconnect_heap_extends sid (socket_closed sid st)).
  - simpl. auto with heap.
  - destruct (timers st !! k) as [t|]; [|simpl; auto with heap].
    apply (search_timeout_heap_extends t (set_timers (delete k (timers st)) st)).
  - simpl. auto with heap.
Qed.

(** ** The registry entry of a socket *)

Lemma find_random_partner_connectedUsers mp sid rnd now st :
  connectedUsers (find_random_partner mp sid rnd now st).1 = connectedUsers st.
Proof.
  unfold find_random_partner, start_call, start_waiting.
  repeat case_match; reflexivity.
Qed.

Lemma search_timeout_connectedUsers t st :
  connectedUsers (search_timeout t st).1 = connectedUsers st.
Proof. unfold search_timeout. repeat case_match; reflexivity. Qed.

Lemma reject_call_connectedUsers sid st :
  connectedUsers (reject_call sid st).1 = connectedUsers st.
Proof.
  unfold reject_call. repeat case_match; try reflexivity.
  cbn [fst]. apply close_room_connectedUsers.
Qed.

Lemma end_call_connectedUsers sid st :
  connectedUsers (end_call sid st).1 = connectedUsers st.
Proof.
  unfold end_call. repeat case_match; try reflexivity;
    cbn [fst]; apply close_room_connectedUsers.
Qed.

Lemma disconnect_connectedUsers sid st :
  connectedUsers (disconnect sid st).1 = connectedUsers st \/
  connectedUsers (disconnect sid st).1 = delete sid (connectedUsers st).
Proof.
  unfold disconnect. destruct (get_user st sid) as [[user u]|]; [|left; reflexivity].
  right. repeat case_match; simplify_eq; cbn [fst connectedUsers set_connectedUsers set_activeRooms];
    rewrite ?clear_partner_connectedUsers; reflexivity.
Qed.

Lemma disconnect_connectedUsers_registered sid st :
  connectedUsers (disconnect sid st).1 =
    match get_user st sid with
    | Some _ => delete sid (connectedUsers st)
    | None => connectedUsers st
    end.
Proof.
  unfold disconnect. destruct (get_user st sid) as [[user u]|]; [|reflexivity].
  repeat case_match; simplify_eq; cbn [fst connectedUsers set_connectedUsers set_activeRooms];
    rewrite ?clear_partner_connectedUsers; reflexivity.
Qed.

Lemma step_connectedUsers mp ev st sid :
  (forall uid userInfo now, ev <> RegisterUser sid uid userInfo now) ->
  connectedUsers (step mp ev st).1 !! sid = connectedUsers st !! sid \/
  connectedUsers (step mp ev st).1 !! sid = None.
Proof.
  intros Hev.
  destruct ev as [s|s uid userInfo now|s rnd now|s|s|s sdp type|s sdp type|s c|s|s|s|k|now];
    cbn [step]; unfold on_socket;
    try (destruct (decide (s ∈ sockets st)); [|left; reflexivity]).
  - left. unfold connection. case_match; reflexivity.
  - left. cbn [register_user fst connectedUsers set_connectedUsers set_heap].
    apply lookup_insert_ne. intros ->. eapply Hev. reflexivity.
  - left. rewrite find_random_partner_connectedUsers. reflexivity.
  - left. rewrite accept_call_state. reflexivity.
  - left. rewrite reject_call_connectedUsers. reflexivity.
  - left. unfold offer. rewrite relay_state. reflexivity.
  - left. unfold answer. rewrite relay_state. reflexivity.
  - left. unfold ice_candidate. rewrite relay_state. reflexivity.
  - left. rewrite end_call_connectedUsers. reflexivity.
  - destruct (disconnect_connectedUsers s (socket_closed s st)) as [-> | ->].
    + left. reflexivity.
    + cbn [connectedUsers socket_closed set_ioRooms set_sockets].
      destruct (decide (s = sid)) as [->|Hne].
      * right. apply lookup_delete_eq.
      * left. apply lookup_delete_ne, Hne.
  - left. reflexivity.
  - left. destruct (timers st !! k) as [t|]; [|reflexivity].
    rewrite search_timeout_connectedUsers. reflexivity.
  - cbn [fst]. rewrite cleanup_connected. destruct (swept st now sid); auto.
Qed.

(** ** The sweep and the registration time *)




(** ** Delivery of emitted messages *)

Lemma received_step mp ev evs st sid st' out :
  step mp ev st = (st', out) ->
  received mp (ev :: evs) st sid = (inbox st' out sid ++ received mp evs st' sid)%list.
Proof. intros H. cbn [received]. rewrite H. reflexivity. Qed.

Lemma inbox_nil st sid : inbox st [] sid = [].
Proof. reflexivity. Qed.

Lemma inbox_cons_in st t m out sid :
  sid ∈ recipients st t -> inbox st ((t, m) :: out) sid = m :: inbox st out sid.
Proof. intros H. unfold inbox. rewrite filter_cons_True by exact H. reflexivity. Qed.

Lemma inbox_cons_out st t m out sid :
  sid ∉ recipients st t -> inbox st ((t, m) :: out) sid = inbox st out sid.
Proof. intros H. unfold inbox. rewrite filter_cons_False by exact H. reflexivity. Qed.

Lemma recipients_SocketEmit st s sid :
  sid ∈ recipients st (SocketEmit s) <-> sid = s /\ s ∈ sockets st.
Proof.
  unfold recipients. destruct (decide (s ∈ sockets st)).
  - rewrite elem_of_singleton. tauto.
  - rewrite elem_of_empty. tauto.
Qed.

Lemma recipients_IoTo st name sid :
  sid ∈ recipients st (IoTo name) <->
    exists members, ioRooms st !! name = Some members /\ sid ∈ members.
Proof.
  unfold recipients. destruct (ioRooms st !! name) as [members|]; simpl.
  - split; [eauto | intros (? & [= <-] & ?); assumption].
  - rewrite elem_of_empty. split; [contradiction | intros (? & [=] & _)].
Qed.

Lemma elem_of_inbox st out sid m :
  m ∈ inbox st out sid <-> exists t, (t, m) ∈ out /\ sid ∈ recipients st t.
Proof.
  unfold inbox. rewrite list_elem_of_fmap. split.
  - intros ([t m'] & -> & H). apply list_elem_of_filter in H as [H1 H2]. eauto.
  - intros (t & H1 & H2). exists (t, m). split; [reflexivity|].
    apply list_elem_of_filter. auto.
Qed.

(** ** Generated room ids *)

Lemma is_room_name_generateRoomId rnd now : is_room_name (generateRoomId rnd now) = true.
Proof.
  unfold generateRoomId. generalize (rnd +:+ "_" +:+ pretty now).
  intros s. destruct s; reflexivity.
Qed.

(** ** The scenario of two strangers *)

(** C1, as stated, fails: in the scenario it is not ["A"], who searched
    first, that is sent [partner-found] naming ["B"], and not ["B"] that is
    sent [incoming-call] naming ["A"]. *)
Lemma first_searcher_gets_no_partner_found :
  ~ (exists rid university year university' year',
       PartnerFound rid "B" university year
         ∈ received matchingPreferences twoStrangers initial "sA" /\
       IncomingCall rid "A" university' year'
         ∈ received matchingPreferences twoStrangers initial "sB").
Proof.
  intros (rid & un & y & un' & y' & HA & _).
  assert (E : received matchingPreferences twoStrangers initial "sA" =
              [RegistrationSuccess "A"; SearchingForPartner;
               IncomingCall "room_x9_3" "B" "" ""]) by (vm_compute; reflexivity).
  rewrite E in HA. clear E.
  repeat (apply elem_of_cons in HA as [HA|HA]; [discriminate|]).
  apply elem_of_nil in HA. exact HA.
Qed.

Ltac st_fields :=
  cbn [heap connectedUsers waitingUsers activeRooms sockets ioRooms timers
       set_heap set_connectedUsers set_waitingUsers set_activeRooms set_sockets
       set_ioRooms set_timers initial fst snd].

Ltac in_union :=
  repeat rewrite elem_of_union; repeat rewrite elem_of_singleton;
  rewrite ?elem_of_empty; intuition congruence.

(** C1 (amended). Two users with different ids register with empty
    profiles on two sockets; the first searches, then the second.  Whatever
    the matching preferences are, the second searcher is sent
    [partner-found] naming the first as partner, the first searcher is sent
    [incoming-call] naming the second as caller, and both messages carry the
    same room id (socket ids are assumed not to look like room ids). *)
Theorem two_strangers_matched mp sA sB A B rndA rndB tA tB nowA nowB :
  sA <> sB -> A <> B ->
  is_room_name sA = false -> is_room_name sB = false ->
  let rid := generateRoomId rndB nowB in
  let evs := [Connection sA; Connection sB;
              RegisterUser sA A noInfo tA; RegisterUser sB B noInfo tB;
              FindRandomPartner sA rndA nowA; FindRandomPartner sB rndB nowB] in
  received mp evs initial sB = [RegistrationSuccess B; PartnerFound rid A "" ""] /\
  received mp evs initial sA =
    [RegistrationSuccess A; SearchingForPartner; IncomingCall rid B "" ""].
Proof.
  intros Hs Hu HnA HnB rid evs. subst evs.
  assert (HrA : rid <> sA).
  { intros E. rewrite <- E in HnA. unfold rid in HnA.
    rewrite is_room_name_generateRoomId in HnA. discriminate. }
  assert (HrB : rid <> sB).
  { intros E. rewrite <- E in HnB. unfold rid in HnB.
    rewrite is_room_name_generateRoomId in HnB. discriminate. }
  eassert (H1 : step mp (Connection sA) initial = (_, _)).
  { cbn [step]. unfold connection. st_fields.
    rewrite decide_False by (rewrite elem_of_empty; tauto). reflexivity. }
  match type of H1 with _ = (?s, _) => set (s1 := s) in * end.
  eassert (H2 : step mp (Connection sB) s1 = (_, _)).
  { cbn [step]. unfold connection. subst s1. st_fields.
    rewrite decide_False by in_union. reflexivity. }
  match type of H2 with _ = (?s, _) => set (s2 := s) in * end.
  eassert (H3 : step mp (RegisterUser sA A noInfo tA) s2 = (_, _)).
  { cbn [step]. rewrite on_socket_live by (subst s2 s1; st_fields; in_union).
    unfold register_user. subst s2 s1. st_fields. cbn [length app]. reflexivity. }
  match type of H3 with _ = (?s, _) => set (s3 := s) in * end.
  eassert (H4 : step mp (RegisterUser sB B noInfo tB) s3 = (_, _)).
  { cbn [step]. rewrite on_socket_live by (subst s3; st_fields; in_union).
    unfold register_user. subst s3. st_fields. cbn [length app]. reflexivity. }
  match type of H4 with _ = (?s, _) => set (s4 := s) in * end.
  eassert (H5 : step mp (FindRandomPartner sA rndA nowA) s4 = (_, _)).
  { cbn [step]. rewrite on_socket_live by (subst s4; st_fields; in_union).
    unfold find_random_partner, get_user, findPartner. subst s4. st_fields.
    rewrite lookup_insert_ne by congruence. rewrite lookup_insert_eq.
    cbn [lookup list_lookup newUser isWaiting findPartner_scan].
    unfold start_waiting. st_fields.
    cbn [alter list_alter]. unfold set_add.
    rewrite decide_False by (rewrite elem_of_nil; tauto).
    cbn [app]. reflexivity. }
  match type of H5 with _ = (?s, _) => set (s5 := s) in * end.
  assert (Hcompat : areUsersCompatible mp (newUser sB B noInfo tB)
                      (set_isWaiting true (newUser sA A noInfo tA)) = true).
  { apply areUsersCompatible_true. cbn. split; [congruence|]. split; reflexivity. }
  eassert (H6 : step mp (FindRandomPartner sB rndB nowB) s5 = (_, _)).
  { cbn [step]. rewrite on_socket_live by (subst s5; st_fields; in_union).
    unfold find_random_partner, get_user, findPartner. subst s5. st_fields.
    rewrite lookup_insert_eq.
    cbn [lookup list_lookup newUser isWaiting findPartner_scan].
    rewrite lookup_insert_ne by congruence. rewrite lookup_insert_eq.
    cbn [lookup list_lookup]. rewrite Hcompat. cbn [lookup list_lookup].
    unfold start_call. st_fields.
    cbn [socketId newUser set_isWaiting userId university year noInfo
         info_university info_year or_empty].
    rewrite decide_True by in_union.
    unfold set_delete. rewrite filter_cons_True by congruence. rewrite filter_nil.
    rewrite filter_cons_False by congruence. rewrite filter_nil.
    cbn [alter list_alter]. st_fields. fold rid. reflexivity. }
  match type of H6 with _ = (?s, _) => set (s6 := s) in * end.
  assert (HioA : ioRooms s6 !! sA = Some ({[sA]} ∪ ∅)).
  { subst s6. st_fields. unfold io_join.
    rewrite !lookup_insert_ne by congruence.
    rewrite lookup_insert_eq, lookup_empty. reflexivity. }
  assert (HlA6 : sA ∈ sockets s6) by (subst s6; st_fields; in_union).
  assert (HlB6 : sB ∈ sockets s6) by (subst s6; st_fields; in_union).
  clearbody s6.
  assert (HlA5 : sA ∈ sockets s5) by (subst s5; st_fields; in_union).
  clearbody s5.
  assert (HlB4 : sB ∈ sockets s4) by (subst s4; st_fields; in_union).
  clearbody s4.
  assert (HlA3 : sA ∈ sockets s3) by (subst s3; st_fields; in_union).
  clearbody s3 s2 s1.
  assert (Hrec : forall s, s ∈ recipients s6 (IoTo sA) <-> s = sA).
  { intros s. rewrite recipients_IoTo. split.
    - intros (members & Hm & Hin). rewrite HioA in Hm. injection Hm as <-.
      revert Hin. in_union.
    - intros ->. eexists. split; [exact HioA | in_union]. }
  split.
  - rewrite (received_step _ _ _ _ _ _ _ H1), (received_step _ _ _ _ _ _ _ H2),
      (received_step _ _ _ _ _ _ _ H3), (received_step _ _ _ _ _ _ _ H4),
      (received_step _ _ _ _ _ _ _ H5), (received_step _ _ _ _ _ _ _ H6).
    cbn [received]. rewrite !inbox_nil.
    rewrite (inbox_cons_out s3) by (rewrite recipients_SocketEmit; intros [? _]; congruence).
    rewrite (inbox_cons_in s4) by (rewrite recipients_SocketEmit; auto).
    rewrite (inbox_cons_out s5) by (rewrite recipients_SocketEmit; intros [? _]; congruence).
    rewrite (inbox_cons_in s6) by (rewrite recipients_SocketEmit; auto).
    rewrite (inbox_cons_out s6) by (rewrite Hrec; congruence).
    rewrite !inbox_nil. reflexivity.
  - rewrite (received_step _ _ _ _ _ _ _ H1), (received_step _ _ _ _ _ _ _ H2),
      (received_step _ _ _ _ _ _ _ H3), (received_step _ _ _ _ _ _ _ H4),
      (received_step _ _ _ _ _ _ _ H5), (received_step _ _ _ _ _ _ _ H6).
    cbn [received]. rewrite !inbox_nil.
    rewrite (inbox_cons_in s3) by (rewrite recipients_SocketEmit; auto).
    rewrite (inbox_cons_out s4) by (rewrite recipients_SocketEmit; intros [? _]; congruence).
    rewrite (inbox_cons_in s5) by (rewrite recipients_SocketEmit; auto).
    rewrite (inbox_cons_out s6) by (rewrite recipients_SocketEmit; intros [? _]; congruence).
    rewrite (inbox_cons_in s6) by (rewrite Hrec; reflexivity).
    rewrite !inbox_nil. reflexivity.
Qed.

Lemma two_strangers_matched_witness :
  received matchingPreferences twoStrangers initial "sB"
    = [RegistrationSuccess "B"; PartnerFound (generateRoomId "x9" 3) "A" "" ""] /\
  received matchingPreferences twoStrangers initial "sA"
    = [RegistrationSuccess "A"; SearchingForPartner;
       IncomingCall (generateRoomId "x9" 3) "B" "" ""].
Proof.
  apply (two_strangers_matched matchingPreferences "sA" "sB" "A" "B" "k3j" "x9" 0 1 2 3).
  - discriminate.
  - discriminate.
  - reflexivity.
  - reflexivity.
Defined.

(** ** Registering again on a socket *)

(** The binding of a session is not kept by a registration: after ["A"],
    in a call with ["B"], registers again on its socket, the registry entry
    of the socket holds no room and no partner. *)
Lemma reregistration_drops_binding :
  ~ (forall st sid uid userInfo now user u,
       sid ∈ sockets st ->
       get_user st sid = Some (user, u) -> truthy (currentRoom u) = true ->
       exists user' u',
         get_user (step matchingPreferences (RegisterUser sid uid userInfo now) st).1 sid
           = Some (user', u') /\
         currentRoom u' = currentRoom u /\ partnerId u' = partnerId u).
Proof.
  intros H.
  destruct (H inCall "sA" "A" noInfo 10%Z 0
              (bind_room (generateRoomId "x9" 3) "B" (newUser "sA" "A" noInfo 0)))
    as (user' & u' & Hget & Hroom & _).
  - apply (bool_decide_unpack _). vm_compute. exact I.
  - vm_compute. reflexivity.
  - vm_compute. reflexivity.
  - vm_compute in Hget. injection Hget as _ <-. vm_compute in Hroom. discriminate.
Qed.

(** What [register-user] does on a live socket, whatever the socket held
    before: the registry entry of the socket becomes a fresh [User], with
    the new profile, not waiting, no room and no partner, and nothing else
    is written.  The rooms, the waiting set, the entries of the other
    sockets and every existing user object (the former object of the socket
    and its partner, with their room and partner fields) are as before. *)
Lemma register_replaces_participant mp st sid uid userInfo now :
  sid ∈ sockets st ->
  let st' := (step mp (RegisterUser sid uid userInfo now) st).1 in
  get_user st' sid = Some (length (heap st), newUser sid uid userInfo now) /\
  activeRooms st' = activeRooms st /\
  waitingUsers st' = waitingUsers st /\
  (forall s, s <> sid -> connectedUsers st' !! s = connectedUsers st !! s) /\
  (forall a u, heap st !! a = Some u -> heap st' !! a = Some u).
Proof.
  intros Hlive st'. subst st'. cbn [step]. rewrite on_socket_live by exact Hlive.
  unfold register_user. cbn [fst]. repeat split.
  - unfold get_user. st_fields. rewrite lookup_insert_eq.
    rewrite list_lookup_middle by reflexivity. reflexivity.
  - intros s Hne. st_fields. apply lookup_insert_ne. congruence.
  - intros a u Hu. st_fields. apply lookup_app_l_Some, Hu.
Qed.

(** C4 at its failing input.  ["A"], in a call with ["B"], registers again
    on its socket.  The registry entry of the socket is then a fresh user
    with no room and no partner, so the socket holds no session, while the
    room, the former user object, the binding of ["B"] and the membership
    of the socket in the socket.io room all stay, and ["A"] is still the
    partner the relays of ["B"] address.  When ["A"] is later matched with
    ["C"] and ["B"] ends the old call, [user-left] reaches ["A"] and the new
    call of ["A"] is cleared, its room and the binding of ["C"] staying
    behind. *)
Theorem reregistration_in_call_breaks_session :
  (get_user inCall "sA" = Some (0, userAinCall) /\
   currentRoom userAinCall = Some (generateRoomId "x9" 3) /\
   partnerId userAinCall = Some "B") /\
  (get_user reregisteredInCall "sA" = Some (2, newUser "sA" "A" noInfo 10) /\
   activeRooms reregisteredInCall !! generateRoomId "x9" 3 = Some roomAB /\
   heap reregisteredInCall !! 0 = Some userAinCall /\
   (exists b, get_user reregisteredInCall "sB" = Some (1, b) /\
              currentRoom b = Some (generateRoomId "x9" 3) /\ partnerId b = Some "A") /\
   "sA" ∈ recipients reregisteredInCall (IoTo (generateRoomId "x9" 3)) /\
   current_session reregisteredInCall "sA" = None /\
   partner_socket reregisteredInCall "sB" = Some "sA") /\
  (let ridAC := generateRoomId "p7" 13 in
   let r := step matchingPreferences (EndCall "sB") inNewCall in
   (exists a, get_user inNewCall "sA" = Some (2, a) /\
              currentRoom a = Some ridAC /\ partnerId a = Some "C") /\
   r.2 = [(IoTo "sA", UserLeft "B")] /\
   inbox r.1 r.2 "sA" = [UserLeft "B"] /\
   (exists a, get_user r.1 "sA" = Some (2, a) /\
              currentRoom a = None /\ partnerId a = None) /\
   activeRooms r.1 !! ridAC = Some (newRoom ridAC 2 3 13) /\
   (exists c, get_user r.1 "sC" = Some (3, c) /\
              currentRoom c = Some ridAC /\ partnerId c = Some "A")).
Proof.
  split; [|split].
  - split; [vm_compute; reflexivity|]. split; reflexivity.
  - split; [vm_compute; reflexivity|]. split; [vm_compute; reflexivity|].
    split; [vm_compute; reflexivity|]. split.
    { exists (bind_room (generateRoomId "x9" 3) "A" (newUser "sB" "B" noInfo 1)).
      split; [vm_compute; reflexivity|]. split; reflexivity. }
    split; [apply (bool_decide_unpack _); vm_compute; exact I|].
    split; vm_compute; reflexivity.
  - cbv zeta. split.
    { exists (bind_room (generateRoomId "p7" 13) "C" (newUser "sA" "A" noInfo 10)).
      split; [vm_compute; reflexivity|]. split; reflexivity. }
    split; [vm_compute; reflexivity|]. split; [vm_compute; reflexivity|]. split.
    { exists (clear_room (bind_room (generateRoomId "p7" 13) "C" (newUser "sA" "A" noInfo 10))).
      split; [vm_compute; reflexivity|]. split; reflexivity. }
    split; [vm_compute; reflexivity|].
    exists (bind_room (generateRoomId "p7" 13) "A" (newUser "sC" "C" noInfo 11)).
    split; [vm_compute; reflexivity|]. split; reflexivity.
Qed.

(** C3 at its failing input: a user who registers again while searching
    stays in the waiting set although the registry entry of the socket is
    not waiting. *)
Lemma reregistration_leaves_queue_entry :
  "sA" ∈ waitingUsers registeredAgain /\
  exists user u, get_user registeredAgain "sA" = Some (user, u) /\ isWaiting u = false.
Proof.
  split.
  - apply (bool_decide_unpack _). vm_compute. exact I.
  - exists 1, (newUser "sA" "A" noInfo 5). split; reflexivity.
Qed.

(** ** The waiting set *)

Lemma elem_of_set_delete x y l : x ∈ set_delete y l <-> x <> y /\ x ∈ l.
Proof. unfold set_delete. rewrite list_elem_of_filter. reflexivity. Qed.

Lemma elem_of_set_add x y l : x ∈ set_add y l <-> x = y \/ x ∈ l.
Proof.
  unfold set_add. destruct (decide (y ∈ l)) as [Hin|Hout].
  - split; [auto | intros [->|H]; assumption].
  - rewrite elem_of_app, list_elem_of_singleton. tauto.
Qed.

Lemma clear_partner_waitingUsers psid st :
  waitingUsers (clear_partner psid st) = waitingUsers st.
Proof. unfold clear_partner. destruct (connectedUsers st !! psid); reflexivity. Qed.

Lemma close_room_waitingUsers room user ps st :
  waitingUsers (close_room room user ps st) = waitingUsers st.
Proof.
  unfold close_room. destruct ps; [rewrite clear_partner_waitingUsers|]; reflexivity.
Qed.

Lemma find_random_partner_waitingUsers mp sid rnd now st x :
  x ∈ waitingUsers (find_random_partner mp sid rnd now st).1 ->
  x ∈ waitingUsers st \/ x = sid.
Proof.
  unfold find_random_partner, start_call, start_waiting.
  repeat case_match; cbn [fst]; st_fields; auto.
  - rewrite !elem_of_set_delete. tauto.
  - rewrite !elem_of_set_delete. tauto.
  - rewrite elem_of_set_add. tauto.
Qed.

Lemma search_timeout_waitingUsers t st x :
  x ∈ waitingUsers (search_timeout t st).1 <->
    x ∈ waitingUsers st /\
    (x = t_socket t -> (search_timeout t st).2 = []).
Proof.
  unfold search_timeout.
  destruct (heap st !! t_user t) as [u|]; [|cbn; tauto].
  destruct (isWaiting u && set_has (t_socket t) (waitingUsers st)); [|cbn; tauto].
  cbn [fst snd]. st_fields. rewrite elem_of_set_delete.
  split; [intros [Hne Hin]; split; [exact Hin | intros ->; contradiction]|].
  intros [Hin Himp]. split; [|exact Hin]. intros ->. specialize (Himp eq_refl). discriminate.
Qed.

Lemma reject_call_waitingUsers sid st :
  waitingUsers (reject_call sid st).1 = waitingUsers st.
Proof.
  unfold reject_call. repeat case_match; try reflexivity.
  cbn [fst]. apply close_room_waitingUsers.
Qed.

Lemma end_call_waitingUsers sid st :
  waitingUsers (end_call sid st).1 = waitingUsers st.
Proof.
  unfold end_call. repeat case_match; try reflexivity;
    cbn [fst]; apply close_room_waitingUsers.
Qed.

Lemma disconnect_waitingUsers sid st x :
  x ∈ waitingUsers (disconnect sid st).1 -> x ∈ waitingUsers st.
Proof.
  unfold disconnect. destruct (get_user st sid) as [[user u]|]; [|auto].
  repeat case_match; simplify_eq; cbn [fst]; st_fields;
    rewrite ?clear_partner_waitingUsers; st_fields;
    rewrite elem_of_set_delete; tauto.
Qed.

Lemma step_waitingUsers mp ev st x :
  x ∈ waitingUsers (step mp ev st).1 ->
  x ∈ waitingUsers st \/ exists rnd now, ev = FindRandomPartner x rnd now.
Proof.
  destruct ev as [s|s uid userInfo now|s rnd now|s|s|s sdp type|s sdp type|s c|s|s|s|k|now];
    cbn [step]; unfold on_socket;
    try (destruct (decide (s ∈ sockets st)); [|left; assumption]).
  - unfold connection. case_match; auto.
  - auto.
  - intros H. apply find_random_partner_waitingUsers in H as [H| ->]; eauto.
  - rewrite accept_call_state. auto.
  - rewrite reject_call_waitingUsers. auto.
  - unfold offer. rewrite relay_state. auto.
  - unfold answer. rewrite relay_state. auto.
  - unfold ice_candidate. rewrite relay_state. auto.
  - rewrite end_call_waitingUsers. auto.
  - intros H. apply disconnect_waitingUsers in H. auto.
  - auto.
  - destruct (timers st !! k) as [t|]; [|auto].
    rewrite search_timeout_waitingUsers. intros [H _]. auto.
  - cbn [fst]. rewrite cleanup_waiting. intros [H _]. auto.
Qed.

(** ** Live sockets *)

Lemma clear_partner_sockets psid st : sockets (clear_partner psid st) = sockets st.
Proof. unfold clear_partner. destruct (connectedUsers st !! psid); reflexivity. Qed.

Lemma close_room_sockets room user ps st :
  sockets (close_room room user ps st) = sockets st.
Proof. unfold close_room. destruct ps; [rewrite clear_partner_sockets|]; reflexivity. Qed.

Lemma find_random_partner_sockets mp sid rnd now st :
  sockets (find_random_partner mp sid rnd now st).1 = sockets st.
Proof.
  unfold find_random_partner, start_call, start_waiting.
  repeat case_match; reflexivity.
Qed.

Lemma search_timeout_sockets t st : sockets (search_timeout t st).1 = sockets st.
Proof. unfold search_timeout. repeat case_match; reflexivity. Qed.

Lemma reject_call_sockets sid st : sockets (reject_call sid st).1 = sockets st.
Proof.
  unfold reject_call. repeat case_match; try reflexivity.
  cbn [fst]. apply close_room_sockets.
Qed.

Lemma end_call_sockets sid st : sockets (end_call sid st).1 = sockets st.
Proof.
  unfold end_call. repeat case_match; try reflexivity; cbn [fst]; apply close_room_sockets.
Qed.

Lemma disconnect_sockets sid st : sockets (disconnect sid st).1 = sockets st.
Proof.
  unfold disconnect. destruct (get_user st sid) as [[user u]|]; [|reflexivity].
  repeat case_match; simplify_eq; cbn [fst]; st_fields;
    rewrite ?clear_partner_sockets; reflexivity.
Qed.

(** ** The registry refers to live sockets and to their own users *)

Lemma registry_sound_frame st st' :
  registry_sound st ->
  (forall s a, connectedUsers st' !! s = Some a -> connectedUsers st !! s = Some a) ->
  (forall s, s ∈ sockets st -> s ∈ sockets st') ->
  heap_extends (heap st) (heap st') ->
  registry_sound st'.
Proof.
  intros Hst Hc Hs Hh s a Ha.
  destruct (Hst s a (Hc s a Ha)) as (Hlive & u & Hu & Hid).
  split; [apply Hs, Hlive|].
  destruct (Hh a u Hu) as (u' & Hu' & Hsame).
  exists u'. split; [exact Hu'|]. rewrite <- Hid. apply Hsame.
Qed.

Lemma registry_sound_get_user st sid a :
  registry_sound st -> connectedUsers st !! sid = Some a ->
  exists u, get_user st sid = Some (a, u) /\ socketId u = sid.
Proof.
  intros Hst Ha. destruct (Hst sid a Ha) as (_ & u & Hu & Hid).
  exists u. unfold get_user. rewrite Ha, Hu. auto.
Qed.

Lemma step_registry_sound mp ev st :
  registry_sound st -> registry_sound (step mp ev st).1.
Proof.
  intros Hst.
  destruct ev as [s|s uid userInfo now|s rnd now|s|s|s sdp type|s sdp type|s c|s|s|s|k|now];
    cbn [step]; unfold on_socket;
    try (destruct (decide (s ∈ sockets st)) as [Hlive|Hdead]; [|exact Hst]).
  - apply (registry_sound_frame st); auto with heap.
    + unfold connection. case_match; auto.
    + unfold connection. case_match; st_fields; auto.
      intros x Hx. apply elem_of_union. auto.
    + unfold connection. case_match; apply heap_extends_refl.
  - intros x a. cbn [register_user fst]. st_fields.
    destruct (decide (s = x)) as [<-|Hne].
    + rewrite lookup_insert_eq. intros [= <-]. split; [exact Hlive|].
      exists (newUser s uid userInfo now).
      split; [apply list_lookup_middle; reflexivity | reflexivity].
    + rewrite lookup_insert_ne by exact Hne. intros Ha.
      destruct (Hst x a Ha) as (Hx & u & Hu & Hid).
      split; [exact Hx|]. exists u. split; [apply lookup_app_l_Some, Hu | exact Hid].
  - apply (registry_sound_frame st); auto.
    + rewrite find_random_partner_connectedUsers. auto.
    + rewrite find_random_partner_sockets. auto.
    + apply find_random_partner_heap_extends.
  - rewrite accept_call_state. exact Hst.
  - apply (registry_sound_frame st); auto.
    + rewrite reject_call_connectedUsers. auto.
    + rewrite reject_call_sockets. auto.
    + apply reject_call_heap_extends.
  - unfold offer. rewrite relay_state. exact Hst.
  - unfold answer. rewrite relay_state. exact Hst.
  - unfold ice_candidate. rewrite relay_state. exact Hst.
  - apply (registry_sound_frame st); auto.
    + rewrite end_call_connectedUsers. auto.
    + rewrite end_call_sockets. auto.
    + apply end_call_heap_extends.
  - intros x a Ha.
    assert (Hx : x <> s /\ connectedUsers st !! x = Some a).
    { rewrite disconnect_connectedUsers_registered in Ha.
      change (get_user (socket_closed s st) s) with (get_user st s) in Ha.
      cbn [connectedUsers socket_closed set_ioRooms set_sockets] in Ha.
      destruct (get_user st s) as [[user u]|] eqn:Hget.
      - apply lookup_delete_Some in Ha as [Hne Ha]. auto.
      - split; [|exact Ha]. intros ->.
        destruct (registry_sound_get_user st s a Hst Ha) as (u & Hu & _). congruence. }
    destruct Hx as [Hne Hx]. destruct (Hst x a Hx) as (Hlx & u & Hu & Hid).
    rewrite disconnect_sockets. cbn [sockets socket_closed set_ioRooms set_sockets].
    split; [apply elem_of_difference; split; [exact Hlx | rewrite elem_of_singleton; exact Hne]|].
    destruct (disconnect_heap_extends s (socket_closed s st) a u Hu) as (u' & Hu' & Hsame).
    exists u'. split; [exact Hu'|]. rewrite <- Hid. apply Hsame.
  - exact Hst.
  - destruct (timers st !! k) as [t|]; [|exact Hst].
    apply (registry_sound_frame st); auto.
    + rewrite search_timeout_connectedUsers. auto.
    + rewrite search_timeout_sockets. auto.
    + apply (search_timeout_heap_extends t (set_timers (delete k (timers st)) st)).
  - apply (registry_sound_frame st); auto with heap.
    intros x a. cbn [fst]. rewrite cleanup_connected. destruct (swept st now x); [discriminate|auto].
Qed.

Lemma reachable_registry_sound mp st : reachable mp st -> registry_sound st.
Proof.
  induction 1 as [|st ev _ IH].
  - intros s a. cbn. rewrite lookup_empty. discriminate.
  - apply step_registry_sound, IH.
Qed.

Lemma reachable_run mp evs st : reachable mp st -> reachable mp (run mp evs st).
Proof.
  revert st. induction evs as [|ev evs IH]; intros st H; [exact H|].
  cbn [run]. apply IH. apply reachable_step, H.
Qed.

(** ** Who can be selected as a partner *)

Lemma findPartner_scan_Some mp h connected user ws partner :
  findPartner_scan mp h connected user ws = Some partner ->
  exists w p, w ∈ ws /\ connected !! w = Some partner /\ h !! partner = Some p /\
              areUsersCompatible mp user p = true.
Proof.
  induction ws as [|w ws IH]; [discriminate|]. cbn [findPartner_scan].
  destruct (connected !! w) as [pa|] eqn:Hc.
  - destruct (h !! pa) as [p|] eqn:Hp.
    + destruct (areUsersCompatible mp user p) eqn:Hcompat.
      * intros [= <-]. exists w, p. rewrite elem_of_cons. auto.
      * intros H. destruct (IH H) as (w' & p' & Hin & Hrest).
        exists w', p'. rewrite elem_of_cons. auto.
    + intros H. destruct (IH H) as (w' & p' & Hin & Hrest).
      exists w', p'. rewrite elem_of_cons. auto.
  - intros H. destruct (IH H) as (w' & p' & Hin & Hrest).
    exists w', p'. rewrite elem_of_cons. auto.
Qed.

Lemma findPartner_Some mp st user partner :
  findPartner mp st user = Some partner ->
  exists w p, w ∈ waitingUsers st /\ connectedUsers st !! w = Some partner /\
              heap st !! partner = Some p /\ areUsersCompatible mp user p = true.
Proof. apply findPartner_scan_Some. Qed.

Lemma findPartner_waiting mp st user partner sid :
  registry_sound st ->
  findPartner mp st user = Some partner ->
  connectedUsers st !! sid = Some partner ->
  sid ∈ waitingUsers st.
Proof.
  intros Hst Hf Hc. destruct (findPartner_Some _ _ _ _ Hf) as (w & p & Hw & Hcw & Hp & _).
  destruct (Hst w partner Hcw) as (_ & u1 & Hu1 & Hid1).
  destruct (Hst sid partner Hc) as (_ & u2 & Hu2 & Hid2).
  replace sid with w by congruence. exact Hw.
Qed.

Ltac inv_elem H :=
  repeat (apply elem_of_cons in H as [H|H]; [try discriminate|]);
  try (apply elem_of_nil in H; contradiction).

Lemma find_random_partner_emits mp sid rnd now st t m :
  (t, m) ∈ (find_random_partner mp sid rnd now st).2 ->
  (t = SocketEmit sid /\ forall rid caller un y, m <> IncomingCall rid caller un y) \/
  (exists w rid caller un y, t = IoTo w /\ m = IncomingCall rid caller un y /\
     exists user u partner p,
       get_user st sid = Some (user, u) /\ findPartner mp st u = Some partner /\
       heap st !! partner = Some p /\ w = socketId p).
Proof.
  unfold find_random_partner.
  destruct (get_user st sid) as [[user u]|] eqn:Hget.
  - destruct (isWaiting u).
    + cbn [snd]. intros H. inv_elem H. injection H as -> ->. left. split; [reflexivity|discriminate].
    + destruct (findPartner mp st u) as [partner|] eqn:Hf.
      * destruct (heap st !! partner) as [p|] eqn:Hp.
        -- unfold start_call. cbn [snd]. intros H.
           apply elem_of_cons in H as [H|H].
           ++ injection H as -> ->. left. split; [reflexivity|discriminate].
           ++ inv_elem H. injection H as -> ->. right.
              do 5 eexists. split; [reflexivity|]. split; [reflexivity|].
              exists user, u, partner, p. auto.
        -- cbn [snd]. intros H. inv_elem H.
      * unfold start_waiting. cbn [snd]. intros H. inv_elem H.
        injection H as -> ->. left. split; [reflexivity|discriminate].
  - cbn [snd]. intros H. inv_elem H. injection H as -> ->. left. split; [reflexivity|discriminate].
Qed.

Lemma step_emits_PartnerFound mp ev st t rid partner un y :
  (t, PartnerFound rid partner un y) ∈ (step mp ev st).2 ->
  exists s rnd now, ev = FindRandomPartner s rnd now /\ t = SocketEmit s.
Proof.
  destruct ev as [s|s uid userInfo now|s rnd now|s|s|s sdp type|s sdp type|s c|s|s|s|k|now];
    cbn [step]; unfold on_socket;
    try (destruct (decide (s ∈ sockets st)); [|cbn [snd]; intros Hin; inv_elem Hin]).
  - cbn [snd]. intros Hin. inv_elem Hin.
  - cbn [register_user snd]. intros Hin. inv_elem Hin.
  - intros H. apply find_random_partner_emits in H as [[-> _]|(w & ? & ? & ? & ? & _ & Hm & _)].
    + eauto.
    + discriminate.
  - unfold accept_call. repeat case_match; cbn [snd]; intros Hin; inv_elem Hin.
  - unfold reject_call. repeat case_match; cbn [snd]; intros Hin; inv_elem Hin.
  - unfold offer, relay. repeat case_match; cbn [snd]; intros Hin; inv_elem Hin.
  - unfold answer, relay. repeat case_match; cbn [snd]; intros Hin; inv_elem Hin.
  - unfold ice_candidate, relay. repeat case_match; cbn [snd]; intros Hin; inv_elem Hin.
  - unfold end_call. repeat case_match; cbn [snd]; intros Hin; inv_elem Hin.
  - unfold disconnect. repeat case_match; simplify_eq; cbn [snd]; intros Hin; inv_elem Hin.
  - cbn [ping snd]. intros Hin. inv_elem Hin.
  - destruct (timers st !! k) as [tm|]; [|cbn [snd]; intros Hin; inv_elem Hin].
    unfold search_timeout. repeat case_match; cbn [snd]; intros Hin; inv_elem Hin.
  - cbn [snd]. intros Hin. inv_elem Hin.
Qed.

Lemma step_emits_IncomingCall mp ev st t rid caller un y :
  registry_sound st ->
  (t, IncomingCall rid caller un y) ∈ (step mp ev st).2 ->
  exists w, t = IoTo w /\ w ∈ waitingUsers st.
Proof.
  intros Hst.
  destruct ev as [s|s uid userInfo now|s rnd now|s|s|s sdp type|s sdp type|s c|s|s|s|k|now];
    cbn [step]; unfold on_socket;
    try (destruct (decide (s ∈ sockets st)); [|cbn [snd]; intros Hin; inv_elem Hin]).
  - cbn [snd]. intros Hin. inv_elem Hin.
  - cbn [register_user snd]. intros Hin. inv_elem Hin.
  - intros H. apply find_random_partner_emits in H
      as [[_ Hm]|(w & ? & ? & ? & ? & -> & _ & user & u & partner & p & _ & Hf & Hp & ->)].
    + exfalso. eapply Hm. reflexivity.
    + exists (socketId p). split; [reflexivity|].
      destruct (findPartner_Some _ _ _ _ Hf) as (w & p' & Hw & Hcw & Hp' & _).
      destruct (Hst w partner Hcw) as (_ & u1 & Hu1 & Hid1).
      replace (socketId p) with w by congruence. exact Hw.
  - unfold accept_call. repeat case_match; cbn [snd]; intros Hin; inv_elem Hin.
  - unfold reject_call. repeat case_match; cbn [snd]; intros Hin; inv_elem Hin.
  - unfold offer, relay. repeat case_match; cbn [snd]; intros Hin; inv_elem Hin.
  - unfold answer, relay. repeat case_match; cbn [snd]; intros Hin; inv_elem Hin.
  - unfold ice_candidate, relay. repeat case_match; cbn [snd]; intros Hin; inv_elem Hin.
  - unfold end_call. repeat case_match; cbn [snd]; intros Hin; inv_elem Hin.
  - unfold disconnect. repeat case_match; simplify_eq; cbn [snd]; intros Hin; inv_elem Hin.
  - cbn [ping snd]. intros Hin. inv_elem Hin.
  - destruct (timers st !! k) as [tm|]; [|cbn [snd]; intros Hin; inv_elem Hin].
    unfold search_timeout. repeat case_match; cbn [snd]; intros Hin; inv_elem Hin.
  - cbn [snd]. intros Hin. inv_elem Hin.
Qed.

(** ** After the search timeout *)

Lemma not_waiting_run mp sid evs st :
  sid ∉ waitingUsers st ->
  (forall rnd now, FindRandomPartner sid rnd now ∉ evs) ->
  sid ∉ waitingUsers (run mp evs st).
Proof.
  revert st. induction evs as [|ev evs IH]; intros st Hout Hevs; [exact Hout|].
  cbn [run]. apply IH.
  - intros Hin. apply step_waitingUsers in Hin as [Hin|(rnd & now & ->)].
    + contradiction.
    + apply (Hevs rnd now). apply elem_of_cons. auto.
  - intros rnd now Hin. apply (Hevs rnd now). apply elem_of_cons. auto.
Qed.

Lemma not_waiting_no_partner_found mp sid evs st rid partner un y :
  (forall rnd now, FindRandomPartner sid rnd now ∉ evs) ->
  PartnerFound rid partner un y ∉ received mp evs st sid.
Proof.
  revert st. induction evs as [|ev evs IH]; intros st Hevs; cbn [received].
  - apply not_elem_of_nil.
  - rewrite elem_of_app. intros [Hin|Hin].
    + apply elem_of_inbox in Hin as (t & Hin & Hrec).
      apply step_emits_PartnerFound in Hin as (s & rnd & now & -> & ->).
      apply recipients_SocketEmit in Hrec as [-> _].
      apply (Hevs rnd now). apply elem_of_cons. auto.
    + revert Hin. apply IH.
      intros rnd now Hin. apply (Hevs rnd now). apply elem_of_cons. auto.
Qed.

Lemma not_waiting_no_incoming_call mp sid evs st rid caller un y :
  registry_sound st ->
  sid ∉ waitingUsers st ->
  (forall rnd now, FindRandomPartner sid rnd now ∉ evs) ->
  (IoTo sid, IncomingCall rid caller un y) ∉ emitted mp evs st.
Proof.
  revert st. induction evs as [|ev evs IH]; intros st Hst Hout Hevs; cbn [emitted].
  - apply not_elem_of_nil.
  - rewrite elem_of_app. intros [Hin|Hin].
    + apply step_emits_IncomingCall in Hin as (w & [= <-] & Hw); [contradiction | exact Hst].
    + revert Hin. apply IH.
      * apply step_registry_sound, Hst.
      * apply (not_waiting_run mp sid [ev] st Hout).
        intros rnd now Hin. apply (Hevs rnd now).
        apply list_elem_of_singleton in Hin as <-. apply elem_of_cons. auto.
      * intros rnd now Hin. apply (Hevs rnd now). apply elem_of_cons. auto.
Qed.

(** C8. Take a pending search timer whose firing removes the entry of its
    socket from the waiting set.  As long as that socket does not issue a new
    search, in every later state no search can select the participant
    registered on it, [partner-found] never reaches the socket, and no
    [incoming-call] is addressed to it. *)
Theorem timed_out_entry_not_selected mp st k t :
  reachable mp st ->
  timers st !! k = Some t ->
  t_socket t ∈ waitingUsers st ->
  t_socket t ∉ waitingUsers (step mp (TimerFired k) st).1 ->
  forall evs,
    (forall rnd now, FindRandomPartner (t_socket t) rnd now ∉ evs) ->
    let st1 := (step mp (TimerFired k) st).1 in
    (forall user partner, findPartner mp (run mp evs st1) user = Some partner ->
       connectedUsers (run mp evs st1) !! t_socket t <> Some partner) /\
    (forall rid partner un y,
       PartnerFound rid partner un y ∉ received mp evs st1 (t_socket t)) /\
    (forall rid caller un y,
       (IoTo (t_socket t), IncomingCall rid caller un y) ∉ emitted mp evs st1).
Proof.
  intros Hreach Ht Hbefore Hafter evs Hevs st1.
  assert (Hr1 : reachable mp st1) by (apply reachable_step, Hreach).
  split; [|split].
  - intros user partner Hf Hc.
    apply (not_waiting_run mp (t_socket t) evs st1 Hafter Hevs).
    eapply findPartner_waiting; [|exact Hf|exact Hc].
    apply (reachable_registry_sound mp), reachable_run, Hr1.
  - intros rid partner un y. apply not_waiting_no_partner_found, Hevs.
  - intros rid caller un y. apply not_waiting_no_incoming_call.
    + apply (reachable_registry_sound mp), Hr1.
    + exact Hafter.
    + exact Hevs.
Qed.

Lemma timed_out_entry_not_selected_witness :
  let st1 := (step matchingPreferences (TimerFired 0) searchingA).1 in
  (forall user partner,
     findPartner matchingPreferences (run matchingPreferences lateArrival st1) user
       = Some partner ->
     connectedUsers (run matchingPreferences lateArrival st1) !! t_socket timerA
       <> Some partner) /\
  (forall rid partner un y,
     PartnerFound rid partner un y
       ∉ received matchingPreferences lateArrival st1 (t_socket timerA)) /\
  (forall rid caller un y,
     (IoTo (t_socket timerA), IncomingCall rid caller un y)
       ∉ emitted matchingPreferences lateArrival st1).
Proof.
  apply (timed_out_entry_not_selected matchingPreferences searchingA 0 timerA).
  - apply (reachable_run matchingPreferences
             [Connection "sA"; RegisterUser "sA" "A" noInfo 0; FindRandomPartner "sA" "k3j" 2]
             initial (reachable_initial _)).
  - reflexivity.
  - apply (bool_decide_unpack _). vm_compute. exact I.
  - intros H. apply (bool_decide_pack _) in H. vm_compute in H. exact H.
  - intros rnd now H. unfold lateArrival in H. inv_elem H.
Defined.

(** ** Quiet steps *)

Lemma heap_back_refl h : heap_back h h.
Proof.
  intros a u H. exists u. split; [exact H|]. split; [apply same_identity_refl | auto].
Qed.

Lemma heap_back_trans h1 h2 h3 : heap_back h1 h2 -> heap_back h2 h3 -> heap_back h1 h3.
Proof.
  intros H12 H23 a u3 H3.
  destruct (H23 a u3 H3) as (u2 & H2 & Hs2 & Hr2).
  destruct (H12 a u2 H2) as (u1 & H1 & Hs1 & Hr1).
  exists u1. split; [exact H1|]. split; [eapply same_identity_trans; eassumption|].
  destruct Hr2 as [Hr2|Hr2]; [|auto]. rewrite Hr2. exact Hr1.
Qed.

Lemma heap_back_alter (f : User -> User) a h :
  (forall u, same_identity u (f u) /\
             (currentRoom (f u) = currentRoom u \/ currentRoom (f u) = None)) ->
  heap_back h (alter f a h).
Proof.
  intros Hf b u'. destruct (decide (a = b)) as [->|Hne].
  - rewrite list_lookup_alter_eq. destruct (h !! b) as [u|]; [|discriminate].
    intros [= <-]. exists u. split; [reflexivity | apply Hf].
  - rewrite list_lookup_alter_ne by exact Hne. intros H. exists u'.
    split; [exact H|]. split; [apply same_identity_refl | auto].
Qed.

Lemma heap_back_clear_room a h : heap_back h (alter clear_room a h).
Proof. apply heap_back_alter. intros u. split; [apply same_identity_clear_room | auto]. Qed.

Lemma heap_back_set_isWaiting b a h : heap_back h (alter (set_isWaiting b) a h).
Proof. apply heap_back_alter. intros u. split; [apply same_identity_set_isWaiting | auto]. Qed.

Lemma quiet_refl st : quiet st st.
Proof.
  split; [apply heap_extends_refl|]. split; [apply heap_back_refl|]. auto.
Qed.

Lemma quiet_trans st1 st2 st3 : quiet st1 st2 -> quiet st2 st3 -> quiet st1 st3.
Proof.
  intros (He & Hb & Hr & Hc & Hi & Hs) (He' & Hb' & Hr' & Hc' & Hi' & Hs').
  split; [eapply heap_extends_trans; eassumption|].
  split; [eapply heap_back_trans; eassumption|].
  split; [auto|]. split; [auto|]. split; congruence.
Qed.

Lemma quiet_set_waitingUsers w st : quiet st (set_waitingUsers w st).
Proof.
  split; [apply heap_extends_refl|]. split; [apply heap_back_refl|].
  repeat split; auto.
Qed.

Lemma quiet_set_timers t st : quiet st (set_timers t st).
Proof.
  split; [apply heap_extends_refl|]. split; [apply heap_back_refl|].
  repeat split; auto.
Qed.

Lemma quiet_clear_room a st : quiet st (set_heap (alter clear_room a (heap st)) st).
Proof.
  split; [st_fields; auto with heap|]. split; [apply heap_back_clear_room|]. auto.
Qed.

Lemma quiet_set_isWaiting b a st :
  quiet st (set_heap (alter (set_isWaiting b) a (heap st)) st).
Proof.
  split; [st_fields; auto with heap|]. split; [apply heap_back_set_isWaiting|]. auto.
Qed.

Lemma quiet_delete_room rid st :
  quiet st (set_activeRooms (delete rid (activeRooms st)) st).
Proof.
  split; [apply heap_extends_refl|]. split; [apply heap_back_refl|].
  split; [|auto]. st_fields. intros r room H. apply lookup_delete_Some in H. tauto.
Qed.

Lemma quiet_delete_connection sid st :
  quiet st (set_connectedUsers (delete sid (connectedUsers st)) st).
Proof.
  split; [apply heap_extends_refl|]. split; [apply heap_back_refl|].
  split; [auto|]. split; [|auto]. st_fields. intros s a H.
  apply lookup_delete_Some in H. tauto.
Qed.

Lemma quiet_clear_partner psid st : quiet st (clear_partner psid st).
Proof.
  unfold clear_partner. destruct (connectedUsers st !! psid);
    [apply quiet_clear_room | apply quiet_refl].
Qed.

Lemma quiet_close_room room user ps st : quiet st (close_room room user ps st).
Proof.
  unfold close_room.
  assert (H : quiet st (set_heap (alter clear_room user
                (heap (set_activeRooms (delete (roomId room) (activeRooms st)) st)))
                (set_activeRooms (delete (roomId room) (activeRooms st)) st))).
  { eapply quiet_trans; [apply quiet_delete_room | apply quiet_clear_room]. }
  destruct ps; [|exact H].
  eapply quiet_trans; [exact H | apply quiet_clear_partner].
Qed.

Lemma quiet_start_waiting mp sid user st : quiet st (start_waiting mp sid user st).1.
Proof.
  unfold start_waiting. cbn [fst].
  eapply quiet_trans; [apply (quiet_set_isWaiting true user)|].
  eapply quiet_trans; [apply quiet_set_waitingUsers | apply quiet_set_timers].
Qed.

Lemma quiet_search_timeout t st : quiet st (search_timeout t st).1.
Proof.
  unfold search_timeout. destruct (heap st !! t_user t) as [u|]; [|apply quiet_refl].
  destruct (isWaiting u && set_has (t_socket t) (waitingUsers st)); [|apply quiet_refl].
  cbn [fst]. eapply quiet_trans; [apply quiet_set_waitingUsers|].
  apply (quiet_set_isWaiting false).
Qed.

Lemma quiet_reject_call sid st : quiet st (reject_call sid st).1.
Proof.
  unfold reject_call. repeat case_match; try apply quiet_refl.
  cbn [fst]. apply quiet_close_room.
Qed.

Lemma quiet_end_call sid st : quiet st (end_call sid st).1.
Proof.
  unfold end_call. repeat case_match; try apply quiet_refl;
    cbn [fst]; apply quiet_close_room.
Qed.

Lemma quiet_disconnect sid st : quiet st (disconnect sid st).1.
Proof.
  unfold disconnect. destruct (get_user st sid) as [[user u]|]; [|apply quiet_refl].
  set (st1 := set_waitingUsers (set_delete sid (waitingUsers st)) st).
  assert (H1 : quiet st st1) by apply quiet_set_waitingUsers.
  destruct (current_session st1 sid) as [[[user' u'] room]|].
  - destruct (getOtherUser (heap st1) room (userId u)) as [partner|];
      [destruct (heap st1 !! partner) as [p|]|]; cbn [fst];
      (eapply quiet_trans; [|apply quiet_delete_connection]);
      (eapply quiet_trans; [|apply quiet_delete_room]); try exact H1.
    eapply quiet_trans; [exact H1 | apply quiet_clear_partner].
  - cbn [fst]. eapply quiet_trans; [exact H1 | apply quiet_delete_connection].
Qed.

Lemma cleanup_room_fold_sub st l (m : gmap string Room) rid room :
  foldr (cleanup_room st) m l !! rid = Some room -> m !! rid = Some room.
Proof.
  induction l as [|[k r] l IH]; [auto|].
  cbn [foldr]. unfold cleanup_room at 1. cbn [fst snd].
  destruct (decide (length (activeUsers st r) = 0)); [|exact IH].
  intros H. apply lookup_delete_Some in H as [_ H]. apply IH, H.
Qed.

Lemma quiet_cleanup now st : quiet st (cleanup now st).
Proof.
  split; [apply heap_extends_refl|]. split; [apply heap_back_refl|].
  split; [|split; [|auto]].
  - intros rid room. unfold cleanup, cleanupEmptyRooms. st_fields.
    intros H. apply cleanup_room_fold_sub in H. exact H.
  - intros s a. rewrite cleanup_connected. destruct (swept st now s); [discriminate|auto].
Qed.

(** ** Rooms, members and socket.io rooms stay sound *)

Lemma quiet_rooms_sound st st' : quiet st st' -> rooms_sound st -> rooms_sound st'.
Proof.
  intros (He & _ & Hr & _) Hst rid room Hroom.
  destruct (Hst rid room (Hr _ _ Hroom)) as (Hid & x & y & ux & uy & Hus & Hx & Hy & Hu & Hs).
  split; [exact Hid|].
  destruct (He x ux Hx) as (ux' & Hx' & Hsx).
  destruct (He y uy Hy) as (uy' & Hy' & Hsy).
  exists x, y, ux', uy'. repeat split; try assumption.
  - destruct Hsx as (_ & -> & _), Hsy as (_ & -> & _). exact Hu.
  - destruct Hsx as (-> & _), Hsy as (-> & _). exact Hs.
Qed.

Lemma quiet_members_sound st st' : quiet st st' -> members_sound st -> members_sound st'.
Proof.
  intros (_ & Hb & Hr & _) Hst a u' rid room Hu' Hcur Hroom.
  destruct (Hb a u' Hu') as (u & Hu & _ & [Hc|Hc]); [|congruence].
  apply (Hst a u rid room Hu); [congruence | apply Hr, Hroom].
Qed.

Lemma quiet_io_sound st st' : quiet st st' -> io_sound st -> io_sound st'.
Proof.
  intros (_ & Hb & _ & _ & Hi & Hs) (H1 & H2 & H3).
  split; [|split].
  - rewrite Hi. exact H1.
  - rewrite Hs. exact H2.
  - intros a u' Hu'. destruct (Hb a u' Hu') as (u & Hu & (-> & _) & _). eapply H3, Hu.
Qed.

Lemma quiet_joined_sound st st' : quiet st st' -> joined_sound st -> joined_sound st'.
Proof.
  intros (_ & Hb & _ & Hc & Hi & _) Hst a u' rid Hu' Hreg Hcur.
  destruct (Hb a u' Hu') as (u & Hu & (Hsock & _) & [Hr|Hr]); [|congruence].
  rewrite Hi, Hsock. apply (Hst a u rid Hu).
  - apply Hc. rewrite <- Hsock. exact Hreg.
  - congruence.
Qed.

Lemma connection_sound sid st :
  is_room_name sid = false ->
  rooms_sound st -> members_sound st -> io_sound st -> joined_sound st ->
  let st' := connection sid st in
  rooms_sound st' /\ members_sound st' /\ io_sound st' /\ joined_sound st'.
Proof.
  intros Hname Hr Hm Hio Hj st'. subst st'. unfold connection.
  destruct (decide (sid ∈ sockets st)); [auto|].
  destruct Hio as (H1 & H2 & H3).
  split; [exact Hr|]. split; [exact Hm|]. split; [split; [|split]|].
  - st_fields. unfold io_join. intros name members s.
    destruct (decide (sid = name)) as [<-|Hne].
    + rewrite lookup_insert_eq. intros [= <-]. rewrite elem_of_union, elem_of_singleton.
      intros [->|Hin]; [auto|].
      destruct (ioRooms st !! sid) as [old|] eqn:Hold; cbn in Hin.
      * eapply H1; eassumption.
      * apply elem_of_empty in Hin. contradiction.
    + rewrite lookup_insert_ne by exact Hne. apply H1.
  - st_fields. intros s. rewrite elem_of_union, elem_of_singleton.
    intros [->|Hin]; [exact Hname | apply H2, Hin].
  - exact H3.
  - intros a u rid Hu Hreg Hcur. st_fields.
    destruct (Hj a u rid Hu Hreg Hcur) as (members & Hmem & Hin).
    unfold io_join. destruct (decide (sid = rid)) as [<-|Hne].
    + rewrite lookup_insert_eq, Hmem. eexists. split; [reflexivity|].
      apply elem_of_union. right. exact Hin.
    + rewrite lookup_insert_ne by exact Hne. eauto.
Qed.

Lemma register_user_sound sid uid userInfo now st :
  sid ∈ sockets st ->
  rooms_sound st -> members_sound st -> io_sound st -> joined_sound st ->
  let st' := (register_user sid uid userInfo now st).1 in
  rooms_sound st' /\ members_sound st' /\ io_sound st' /\ joined_sound st'.
Proof.
  intros Hlive Hr Hm (H1 & H2 & H3) Hj st'. subst st'. unfold register_user. cbn [fst].
  assert (Hnew : forall a u', (heap st ++ [newUser sid uid userInfo now])%list !! a = Some u' ->
            heap st !! a = Some u' \/
            (a = length (heap st) /\ u' = newUser sid uid userInfo now)).
  { intros a u' H. apply lookup_app_Some in H as [H|[Hlen H]]; [auto|]. right.
    apply list_lookup_singleton_Some in H as [Hz <-]. split; [lia|reflexivity]. }
  split; [|split; [|split; [split; [|split]|]]].
  - intros rid room Hroom. st_fields.
    destruct (Hr rid room Hroom) as (Hid & x & y & ux & uy & Hus & Hx & Hy & Hrest).
    split; [exact Hid|]. exists x, y, ux, uy.
    split; [exact Hus|]. split; [apply lookup_app_l_Some, Hx|].
    split; [apply lookup_app_l_Some, Hy | exact Hrest].
  - intros a u' rid room. st_fields. intros Hu' Hcur Hroom.
    destruct (Hnew a u' Hu') as [Hu|[_ ->]]; [|discriminate].
    eapply Hm; eassumption.
  - exact H1.
  - exact H2.
  - st_fields. intros a u' Hu'. destruct (Hnew a u' Hu') as [Hu|[_ ->]].
    + eapply H3, Hu.
    + cbn. apply H2, Hlive.
  - intros a u' rid. st_fields. intros Hu' Hreg Hcur.
    destruct (Hnew a u' Hu') as [Hu|[_ ->]]; [|discriminate].
    apply (Hj a u' rid Hu); [|exact Hcur].
    destruct (decide (sid = socketId u')) as [Heq|Hne].
    + rewrite <- Heq, lookup_insert_eq in Hreg. injection Hreg as <-.
      apply lookup_lt_Some in Hu. lia.
    + rewrite lookup_insert_ne in Hreg by exact Hne. exact Hreg.
Qed.

Lemma bind_two_lookup (h : list User) user partner u p r1 r2 q1 q2 a u' :
  user <> partner -> h !! user = Some u -> h !! partner = Some p ->
  alter (bind_room r2 q2) partner (alter (bind_room r1 q1) user h) !! a = Some u' ->
  (a = user /\ u' = bind_room r1 q1 u) \/
  (a = partner /\ u' = bind_room r2 q2 p) \/
  (a <> user /\ a <> partner /\ h !! a = Some u').
Proof.
  intros Hne Hu Hp.
  destruct (decide (a = partner)) as [->|Hap].
  - rewrite list_lookup_alter_eq, list_lookup_alter_ne by exact Hne. rewrite Hp.
    intros [= <-]. auto.
  - rewrite list_lookup_alter_ne by congruence.
    destruct (decide (a = user)) as [->|Hau].
    + rewrite list_lookup_alter_eq, Hu. intros [= <-]. auto.
    + rewrite list_lookup_alter_ne by congruence. auto.
Qed.

Lemma start_call_sound mp sid rid now user u partner p st :
  session_inv st ->
  get_user st sid = Some (user, u) ->
  findPartner mp st u = Some partner ->
  heap st !! partner = Some p ->
  room_fresh st rid -> is_room_name rid = true ->
  let st' := (start_call sid rid now user u partner p st).1 in
  rooms_sound st' /\ members_sound st' /\ io_sound st' /\ joined_sound st'.
Proof.
  intros (Hreg & Hr & Hm & (H1 & H2 & H3) & Hj) Hget Hfind Hp Hfresh Hname st'.
  unfold get_user in Hget.
  destruct (connectedUsers st !! sid) as [user0|] eqn:Hcs; [|discriminate].
  destruct (heap st !! user0) as [u0|] eqn:Hu; [|discriminate].
  injection Hget as -> ->.
  destruct (Hreg sid user Hcs) as (Hlive & u1 & Hu1 & Hsid).
  assert (u1 = u) by congruence. subst u1. clear Hu1.
  destruct (findPartner_Some _ _ _ _ Hfind) as (w & p1 & Hw & Hcw & Hp1 & Hcompat).
  assert (p1 = p) by congruence. subst p1. clear Hp1.
  destruct (Hreg w partner Hcw) as (Hwlive & p1 & Hp1 & Hwid).
  assert (p1 = p) by congruence. subst p1. clear Hp1.
  apply areUsersCompatible_true in Hcompat as (Huid & _).
  assert (Hne : user <> partner) by (intros ->; congruence).
  assert (Hsock : socketId u <> socketId p).
  { intros Heq. apply Hne. rewrite Hsid, Hwid in Heq. congruence. }
  assert (Hst' : st' =
    set_ioRooms (io_join (socketId p) rid (io_join sid rid (ioRooms st)))
      (set_heap (alter (bind_room rid (userId u)) partner
                   (alter (bind_room rid (userId p)) user (heap st)))
         (set_activeRooms (<[rid := newRoom rid user partner now]> (activeRooms st))
            (set_waitingUsers
               (set_delete (socketId p) (set_delete (socketId u) (waitingUsers st))) st)))).
  { subst st'. unfold start_call. cbn [fst]. st_fields.
    rewrite decide_True by (rewrite Hwid; exact Hwlive). reflexivity. }
  rewrite Hst'. clear Hst' st'.
  pose proof (bind_two_lookup (heap st) user partner u p rid rid (userId p) (userId u))
    as Hback.
  assert (Hfu : alter (bind_room rid (userId u)) partner
                  (alter (bind_room rid (userId p)) user (heap st)) !! user
                = Some (bind_room rid (userId p) u)).
  { rewrite list_lookup_alter_ne by congruence. rewrite list_lookup_alter_eq, Hu. reflexivity. }
  assert (Hfp : alter (bind_room rid (userId u)) partner
                  (alter (bind_room rid (userId p)) user (heap st)) !! partner
                = Some (bind_room rid (userId u) p)).
  { rewrite list_lookup_alter_eq, list_lookup_alter_ne by congruence. rewrite Hp. reflexivity. }
  assert (Hext : heap_extends (heap st)
                   (alter (bind_room rid (userId u)) partner
                      (alter (bind_room rid (userId p)) user (heap st)))).
  { eapply heap_extends_trans; apply heap_extends_alter; apply same_identity_bind_room. }
  split; [|split; [|split; [split; [|split]|]]].
  - intros r room. st_fields. destruct (decide (rid = r)) as [<-|Hnr].
    + rewrite lookup_insert_eq. intros [= <-]. split; [reflexivity|].
      exists user, partner, (bind_room rid (userId p) u), (bind_room rid (userId u) p).
      repeat split; assumption.
    + rewrite lookup_insert_ne by exact Hnr. intros Hroom.
      destruct (Hr r room Hroom) as (Hid & x & y & ux & uy & Hus & Hx & Hy & Hd1 & Hd2).
      split; [exact Hid|].
      destruct (Hext x ux Hx) as (ux' & Hx' & Hsx).
      destruct (Hext y uy Hy) as (uy' & Hy' & Hsy).
      exists x, y, ux', uy'. repeat split; try assumption.
      * destruct Hsx as (_ & -> & _), Hsy as (_ & -> & _). exact Hd1.
      * destruct Hsx as (-> & _), Hsy as (-> & _). exact Hd2.
  - intros a u' r room. st_fields. intros Hu' Hcur Hroom.
    destruct (Hback a u' Hne Hu Hp Hu') as [[-> ->]|[[-> ->]|(_ & _ & Hold)]].
    + injection Hcur as <-. rewrite lookup_insert_eq in Hroom. injection Hroom as <-.
      apply elem_of_cons. auto.
    + injection Hcur as <-. rewrite lookup_insert_eq in Hroom. injection Hroom as <-.
      apply elem_of_cons. right. apply elem_of_cons. auto.
    + assert (Hnr : rid <> r) by (intros ->; exact (Hfresh a u' Hold Hcur)).
      rewrite lookup_insert_ne in Hroom by exact Hnr.
      eapply Hm; eassumption.
  - st_fields. unfold io_join. intros name members s.
    destruct (decide (rid = name)) as [<-|Hnr]; [auto|].
    rewrite !lookup_insert_ne by exact Hnr. apply H1.
  - exact H2.
  - st_fields. intros a u' Hu'.
    destruct (Hback a u' Hne Hu Hp Hu') as [[-> ->]|[[-> ->]|(_ & _ & Hold)]].
    + apply (H3 user u Hu).
    + apply (H3 partner p Hp).
    + apply (H3 a u' Hold).
  - intros a u' r. st_fields. intros Hu' Hc Hcur. unfold io_join.
    destruct (Hback a u' Hne Hu Hp Hu') as [[-> ->]|[[-> ->]|(_ & _ & Hold)]].
    + injection Hcur as <-. rewrite lookup_insert_eq. eexists. split; [reflexivity|].
      rewrite lookup_insert_eq. cbn [from_option id socketId bind_room].
      rewrite Hsid. in_union.
    + injection Hcur as <-. rewrite lookup_insert_eq. eexists. split; [reflexivity|].
      cbn [socketId bind_room]. in_union.
    + assert (Hnr : rid <> r) by (intros ->; exact (Hfresh a u' Hold Hcur)).
      rewrite !lookup_insert_ne by exact Hnr. eapply Hj; eassumption.
Qed.

Lemma find_random_partner_cases mp sid rnd now st :
  (exists user u partner p,
     get_user st sid = Some (user, u) /\ findPartner mp st u = Some partner /\
     heap st !! partner = Some p /\
     find_random_partner mp sid rnd now st
       = start_call sid (generateRoomId rnd now) now user u partner p st) \/
  quiet st (find_random_partner mp sid rnd now st).1.
Proof.
  unfold find_random_partner.
  destruct (get_user st sid) as [[user u]|]; [|right; apply quiet_refl].
  destruct (isWaiting u); [right; apply quiet_refl|].
  destruct (findPartner mp st u) as [partner|] eqn:Hf.
  - destruct (heap st !! partner) as [p|] eqn:Hp; [|right; apply quiet_refl].
    left. exists user, u, partner, p. auto.
  - right. apply quiet_start_waiting.
Qed.

Lemma socket_closed_sound sid st :
  rooms_sound st -> members_sound st -> io_sound st ->
  rooms_sound (socket_closed sid st) /\ members_sound (socket_closed sid st) /\
  io_sound (socket_closed sid st).
Proof.
  intros Hr Hm (H1 & H2 & H3). split; [exact Hr|]. split; [exact Hm|].
  split; [|split].
  - intros name members s. cbn [ioRooms socket_closed set_ioRooms set_sockets].
    rewrite lookup_fmap. destruct (ioRooms st !! name) as [old|] eqn:Hold; [|discriminate].
    cbn. intros [= <-] Hin. apply elem_of_difference in Hin as [Hin _].
    eapply H1; eassumption.
  - intros s. cbn [sockets socket_closed set_ioRooms set_sockets].
    intros Hin. apply elem_of_difference in Hin as [Hin _]. apply H2, Hin.
  - exact H3.
Qed.

Lemma disconnect_event_sound sid st :
  session_inv st ->
  let st' := (disconnect sid (socket_closed sid st)).1 in
  rooms_sound st' /\ members_sound st' /\ io_sound st' /\ joined_sound st'.
Proof.
  intros (Hreg & Hr & Hm & Hio & Hj) st'.
  destruct (socket_closed_sound sid st Hr Hm Hio) as (Hr1 & Hm1 & Hio1).
  pose proof (quiet_disconnect sid (socket_closed sid st)) as Hq. fold st' in Hq.
  split; [eapply quiet_rooms_sound; eassumption|].
  split; [eapply quiet_members_sound; eassumption|].
  split; [eapply quiet_io_sound; eassumption|].
  destruct Hq as (_ & Hb & _ & Hc & Hi & _).
  intros a u' rid Hu' Hc' Hcur.
  destruct (Hb a u' Hu') as (u & Hu & (Hsock & _) & [Hroom|Hroom]); [|congruence].
  cbn [heap socket_closed set_ioRooms set_sockets] in Hu.
  assert (Hold : connectedUsers st !! socketId u = Some a).
  { rewrite <- Hsock. apply Hc in Hc'. exact Hc'. }
  assert (Hne : socketId u <> sid).
  { intros Heq. subst st'. rewrite disconnect_connectedUsers_registered in Hc'.
    change (get_user (socket_closed sid st) sid) with (get_user st sid) in Hc'.
    cbn [connectedUsers socket_closed set_ioRooms set_sockets] in Hc'.
    rewrite Hsock, Heq in Hc'. rewrite Heq in Hold.
    unfold get_user in Hc'. rewrite Hold, Hu in Hc'.
    rewrite lookup_delete_eq in Hc'. discriminate. }
  destruct (Hj a u rid Hu Hold) as (members & Hmem & Hin); [congruence|].
  rewrite Hi. cbn [ioRooms socket_closed set_ioRooms set_sockets].
  rewrite lookup_fmap, Hmem. eexists. split; [reflexivity|].
  rewrite Hsock. apply elem_of_difference. split; [exact Hin|].
  rewrite elem_of_singleton. exact Hne.
Qed.

Lemma quiet_session_inv st st' :
  quiet st st' -> registry_sound st' -> session_inv st -> session_inv st'.
Proof.
  intros Hq Hreg' (_ & Hr & Hm & Hio & Hj).
  split; [exact Hreg'|].
  split; [eapply quiet_rooms_sound; eassumption|].
  split; [eapply quiet_members_sound; eassumption|].
  split; [eapply quiet_io_sound; eassumption|].
  eapply quiet_joined_sound; eassumption.
Qed.

Lemma step_session_inv mp ev st :
  session_inv st -> env_ok st ev -> session_inv (step mp ev st).1.
Proof.
  intros Hinv Henv.
  assert (Hreg' : registry_sound (step mp ev st).1).
  { apply step_registry_sound. apply Hinv. }
  split; [exact Hreg'|]. revert Hreg'.
  destruct ev as [s|s uid userInfo now|s rnd now|s|s|s sdp type|s sdp type|s c|s|s|s|k|now];
    cbn [step]; unfold on_socket;
    try (destruct (decide (s ∈ sockets st)) as [Hlive|Hdead]; [|intros _; apply Hinv]);
    intros Hreg'.
  - destruct Hinv as (_ & Hr & Hm & Hio & Hj). apply connection_sound; assumption.
  - destruct Hinv as (_ & Hr & Hm & Hio & Hj). apply register_user_sound; assumption.
  - destruct (find_random_partner_cases mp s rnd now st)
      as [(user & u & partner & p & Hget & Hfind & Hp & E)|Hq].
    + rewrite E. eapply start_call_sound; try eassumption.
      apply is_room_name_generateRoomId.
    + apply (quiet_session_inv _ _ Hq Hreg' Hinv).
  - rewrite accept_call_state. apply Hinv.
  - apply (quiet_session_inv _ _ (quiet_reject_call s st) Hreg' Hinv).
  - unfold offer. rewrite relay_state. apply Hinv.
  - unfold answer. rewrite relay_state. apply Hinv.
  - unfold ice_candidate. rewrite relay_state. apply Hinv.
  - apply (quiet_session_inv _ _ (quiet_end_call s st) Hreg' Hinv).
  - apply disconnect_event_sound, Hinv.
  - apply Hinv.
  - destruct (timers st !! k) as [t|]; [|apply Hinv].
    assert (Hq : quiet st (search_timeout t (set_timers (delete k (timers st)) st)).1).
    { eapply quiet_trans; [apply quiet_set_timers | apply quiet_search_timeout]. }
    apply (quiet_session_inv _ _ Hq Hreg' Hinv).
  - apply (quiet_session_inv _ _ (quiet_cleanup now st) Hreg' Hinv).
Qed.

Lemma reachable_env_session_inv mp st : reachable_env mp st -> session_inv st.
Proof.
  induction 1 as [|st ev _ IH Henv].
  - split; [|split; [|split; [|split; [split; [|split]|]]]].
    + intros s a. cbn. rewrite lookup_empty. discriminate.
    + intros rid room. cbn. rewrite lookup_empty. discriminate.
    + intros a u rid room. cbn. discriminate.
    + intros name members s. cbn. rewrite lookup_empty. discriminate.
    + intros s. cbn. rewrite elem_of_empty. contradiction.
    + intros a u. cbn. discriminate.
    + intros a u rid. cbn. discriminate.
  - apply step_session_inv; assumption.
Qed.

(** ** Relaying inside a session *)

Lemma truthy_Some r : truthy r = true -> exists rid, r = Some rid /\ or_empty r = rid.
Proof. destruct r as [rid|]; [eauto | discriminate]. Qed.

Lemma session_partner st sid user u room :
  session_inv st ->
  current_session st sid = Some (user, u, room) ->
  sid ∈ sockets st /\
  exists partner p,
    getOtherUser (heap st) room (userId u) = Some partner /\
    heap st !! partner = Some p /\
    socketId p <> sid /\
    (forall s, s ∈ recipients st (IoTo (socketId p)) -> s = socketId p) /\
    sid ∈ recipients st (IoTo (roomId room)).
Proof.
  intros (Hreg & Hr & Hm & (H1 & H2 & H3) & Hj) Hs.
  apply current_session_Some in Hs as (Hc & Hu & Ht & Hroom).
  apply truthy_Some in Ht as (rid & Hcur & Hrid). rewrite Hrid in Hroom.
  destruct (Hreg sid user Hc) as (Hlive & u1 & Hu1 & Hsid).
  assert (u1 = u) by congruence. subst u1. clear Hu1.
  split; [exact Hlive|].
  destruct (Hr rid room Hroom) as (Hid & x & y & ux & uy & Hus & Hx & Hy & Hduid & Hdsock).
  pose proof (Hm user u rid room Hu Hcur Hroom) as Hmem. rewrite Hus in Hmem.
  assert (Hpartner : exists partner p,
            getOtherUser (heap st) room (userId u) = Some partner /\
            heap st !! partner = Some p /\ socketId p <> sid).
  { unfold getOtherUser. rewrite Hus. cbn [find_ref]. rewrite Hx, Hy.
    apply elem_of_cons in Hmem as [->|Hmem].
    - assert (ux = u) by congruence. subst ux.
      rewrite String.eqb_refl. cbn [negb].
      rewrite (proj2 (String.eqb_neq _ _)) by congruence. cbn [negb].
      exists y, uy. repeat split; [exact Hy | congruence].
    - apply list_elem_of_singleton in Hmem as ->.
      assert (uy = u) by congruence. subst uy.
      rewrite (proj2 (String.eqb_neq _ _)) by congruence. cbn [negb].
      exists x, ux. repeat split; [exact Hx | congruence]. }
  destruct Hpartner as (partner & p & Hget & Hp & Hne).
  exists partner, p. repeat split; try assumption.
  - intros s Hin. apply recipients_IoTo in Hin as (members & Hmems & Hin).
    destruct (H1 _ _ _ Hmems Hin) as [Heq|Hname]; [congruence|].
    rewrite (H3 partner p Hp) in Hname. discriminate.
  - apply recipients_IoTo. rewrite Hid.
    destruct (Hj user u rid Hu) as (members & Hmems & Hin); [congruence | exact Hcur |].
    exists members. split; [exact Hmems | congruence].
Qed.





Lemma reachable_env_run mp evs st :
  reachable_env mp st -> events_ok mp env_ok evs st -> reachable_env mp (run mp evs st).
Proof.
  revert st. induction evs as [|ev evs IH]; intros st Hst Hok; [exact Hst|].
  destruct Hok as [Hev Hok]. cbn [run]. apply IH; [|exact Hok].
  apply reachable_env_step; assumption.
Qed.

Lemma inCall_reachable_env : reachable_env matchingPreferences inCall.
Proof.
  apply (reachable_env_run matchingPreferences twoStrangers initial).
  - apply reachable_env_initial.
  - cbn [events_ok twoStrangers env_ok].
    split; [reflexivity|]. split; [reflexivity|]. split; [exact I|]. split; [exact I|].
    split; [|split; [|exact I]].
    + intros a u Hu. vm_compute in Hu.
      destruct a as [|[|a]]; [| |discriminate]; injection Hu as <-; discriminate.
    + intros a u Hu. vm_compute in Hu.
      destruct a as [|[|a]]; [| |discriminate]; injection Hu as <-; discriminate.
Defined.


(** ** The waiting set and the searching participants *)

Lemma searching_iff st s :
  searching st s <->
  exists a, connectedUsers st !! s = Some a /\ isWaiting <$> heap st !! a = Some true.
Proof.
  unfold searching. split.
  - intros (a & u & Hc & Hu & Hw). exists a. rewrite Hu. cbn. split; congruence.
  - intros (a & Hc & Hw). destruct (heap st !! a) as [u|] eqn:Hu; [|discriminate].
    exists a, u. cbn in Hw. split; [exact Hc|]. split; congruence.
Qed.

Lemma same_waiting_refl h : same_waiting h h.
Proof. intros a. reflexivity. Qed.

Lemma same_waiting_trans h1 h2 h3 :
  same_waiting h1 h2 -> same_waiting h2 h3 -> same_waiting h1 h3.
Proof. intros H12 H23 a. rewrite H23. apply H12. Qed.

Lemma same_waiting_clear_room a h : same_waiting h (alter clear_room a h).
Proof.
  intros b. destruct (decide (a = b)) as [->|Hne].
  - rewrite list_lookup_alter_eq. destruct (h !! b); reflexivity.
  - rewrite list_lookup_alter_ne by exact Hne. reflexivity.
Qed.

Lemma clear_partner_same_waiting psid st :
  same_waiting (heap st) (heap (clear_partner psid st)).
Proof.
  unfold clear_partner. destruct (connectedUsers st !! psid);
    [apply same_waiting_clear_room | apply same_waiting_refl].
Qed.

Lemma close_room_same_waiting room user ps st :
  same_waiting (heap st) (heap (close_room room user ps st)).
Proof.
  unfold close_room. destruct ps as [psid|]; [|apply same_waiting_clear_room].
  eapply same_waiting_trans; [|apply clear_partner_same_waiting].
  apply same_waiting_clear_room.
Qed.

Lemma reject_call_same_waiting sid st :
  same_waiting (heap st) (heap (reject_call sid st).1).
Proof.
  unfold reject_call. repeat case_match; try apply same_waiting_refl.
  cbn [fst]. apply close_room_same_waiting.
Qed.

Lemma end_call_same_waiting sid st :
  same_waiting (heap st) (heap (end_call sid st).1).
Proof.
  unfold end_call. repeat case_match; try apply same_waiting_refl;
    cbn [fst]; apply close_room_same_waiting.
Qed.

Lemma disconnect_same_waiting sid st :
  same_waiting (heap st) (heap (disconnect sid st).1).
Proof.
  unfold disconnect. destruct (get_user st sid) as [[user u]|]; [|apply same_waiting_refl].
  repeat case_match; simplify_eq; cbn [fst]; st_fields; try apply same_waiting_refl.
  apply (clear_partner_same_waiting _ (set_waitingUsers (set_delete sid (waitingUsers st)) st)).
Qed.

Lemma disconnect_waitingUsers_registered sid st x :
  x ∈ waitingUsers (disconnect sid st).1 <->
    x ∈ waitingUsers st /\ (is_Some (get_user st sid) -> x <> sid).
Proof.
  unfold disconnect. destruct (get_user st sid) as [[user u]|].
  - assert (Hgoal : x ∈ set_delete sid (waitingUsers st) <->
             x ∈ waitingUsers st /\ (is_Some (Some (user, u)) -> x <> sid)).
    { rewrite elem_of_set_delete. split; [tauto|]. intros [Hin Hne]. split; [|exact Hin].
      apply Hne. eexists. reflexivity. }
    repeat case_match; simplify_eq; cbn [fst]; st_fields;
      rewrite ?clear_partner_waitingUsers; st_fields; exact Hgoal.
  - cbn [fst]. split; [intros H; split; [exact H|] | tauto].
    intros [? [=]].
Qed.

(** The waiting set follows the searching participants through a step that
    leaves the waiting flags, the waiting set and the registry alone. *)
Lemma queue_sound_frame st st' :
  queue_sound st ->
  same_waiting (heap st) (heap st') ->
  waitingUsers st' = waitingUsers st ->
  connectedUsers st' = connectedUsers st ->
  queue_sound st'.
Proof.
  intros Hq Hw Hl Hc s. rewrite Hl, (Hq s), !searching_iff, Hc.
  split; intros (a & Ha & Hwa); exists a; (split; [exact Ha|]).
  - rewrite Hw. exact Hwa.
  - rewrite <- Hw. exact Hwa.
Qed.

Lemma clear_partner_length psid st :
  length (heap (clear_partner psid st)) = length (heap st).
Proof.
  unfold clear_partner. destruct (connectedUsers st !! psid); [|reflexivity].
  cbn [heap set_heap]. apply length_alter.
Qed.

Lemma close_room_length room user ps st :
  length (heap (close_room room user ps st)) = length (heap st).
Proof.
  unfold close_room. destruct ps; rewrite ?clear_partner_length; st_fields;
    apply length_alter.
Qed.

Lemma find_random_partner_length mp sid rnd now st :
  length (heap (find_random_partner mp sid rnd now st).1) = length (heap st).
Proof.
  unfold find_random_partner, start_call, start_waiting.
  repeat case_match; cbn [fst]; st_fields; rewrite ?length_alter; reflexivity.
Qed.

Lemma search_timeout_length t st :
  length (heap (search_timeout t st).1) = length (heap st).
Proof.
  unfold search_timeout. repeat case_match; cbn [fst]; st_fields;
    rewrite ?length_alter; reflexivity.
Qed.

Lemma reject_call_length sid st :
  length (heap (reject_call sid st).1) = length (heap st).
Proof.
  unfold reject_call. repeat case_match; try reflexivity.
  cbn [fst]. apply close_room_length.
Qed.

Lemma end_call_length sid st :
  length (heap (end_call sid st).1) = length (heap st).
Proof.
  unfold end_call. repeat case_match; try reflexivity; cbn [fst]; apply close_room_length.
Qed.

Lemma disconnect_length sid st :
  length (heap (disconnect sid st).1) = length (heap st).
Proof.
  unfold disconnect. destruct (get_user st sid) as [[user u]|]; [|reflexivity].
  repeat case_match; simplify_eq; cbn [fst]; st_fields; try reflexivity.
  apply (clear_partner_length _ (set_waitingUsers (set_delete sid (waitingUsers st)) st)).
Qed.

(** Only a registration creates a user object. *)
Lemma step_heap_origin mp ev st a u' :
  heap (step mp ev st).1 !! a = Some u' ->
  (exists u, heap st !! a = Some u /\ same_identity u u') \/
  (exists sid uid userInfo now,
     ev = RegisterUser sid uid userInfo now /\ sid ∈ sockets st /\
     a = length (heap st) /\ u' = newUser sid uid userInfo now).
Proof.
  intros Hu'.
  assert (Hold : length (heap (step mp ev st).1) = length (heap st) ->
                 exists u, heap st !! a = Some u /\ same_identity u u').
  { intros Hlen. apply lookup_lt_Some in Hu' as Hlt. rewrite Hlen in Hlt.
    apply lookup_lt_is_Some in Hlt as [u Hu]. exists u. split; [exact Hu|].
    destruct (step_heap_extends mp ev st a u Hu) as (u'' & Hu'' & Hsame).
    congruence. }
  destruct ev as [s|s uid userInfo now|s rnd now|s|s|s sdp type|s sdp type|s c|s|s|s|k|now];
    cbn [step] in *; unfold on_socket in *;
    try (destruct (decide (s ∈ sockets st)) as [Hlive|Hdead]; [|left; apply Hold; reflexivity]).
  - left. apply Hold. unfold connection. case_match; reflexivity.
  - cbn [register_user fst] in Hu'. st_fields.
    apply lookup_app_Some in Hu' as [Hu|[Hlen Hu]].
    + left. exists u'. split; [exact Hu | apply same_identity_refl].
    + right. apply list_lookup_singleton_Some in Hu as [Hz <-].
      exists s, uid, userInfo, now. repeat split; [exact Hlive | cbn [heap] in *; lia].
  - left. apply Hold. apply find_random_partner_length.
  - left. apply Hold. rewrite accept_call_state. reflexivity.
  - left. apply Hold. apply reject_call_length.
  - left. apply Hold. unfold offer. rewrite relay_state. reflexivity.
  - left. apply Hold. unfold answer. rewrite relay_state. reflexivity.
  - left. apply Hold. unfold ice_candidate. rewrite relay_state. reflexivity.
  - left. apply Hold. apply end_call_length.
  - left. apply Hold. apply (disconnect_length s (socket_closed s st)).
  - left. apply Hold. reflexivity.
  - left. apply Hold. destruct (timers st !! k) as [t|]; [|reflexivity].
    apply (search_timeout_length t (set_timers (delete k (timers st)) st)).
  - left. apply Hold. reflexivity.
Qed.

Lemma step_one_user_per_socket mp ev st :
  one_user_per_socket st -> registers_once st ev ->
  one_user_per_socket (step mp ev st).1.
Proof.
  intros Hone Hev a b ua ub Ha Hb Heq.
  destruct (step_heap_origin mp ev st a ua Ha)
    as [(ua0 & Ha0 & Hsa)|(sa & uida & ia & nowa & Hea & _ & Hla & Hua)];
  destruct (step_heap_origin mp ev st b ub Hb)
    as [(ub0 & Hb0 & Hsb)|(sb & uidb & ib & nowb & Heb & _ & Hlb & Hub)].
  - apply (Hone a b ua0 ub0 Ha0 Hb0).
    destruct Hsa as (<- & _), Hsb as (<- & _). exact Heq.
  - exfalso. subst ev ub. cbn in Hev, Heq.
    apply (Hev a ua0 Ha0). destruct Hsa as (<- & _). exact Heq.
  - exfalso. subst ev ua. cbn in Hev, Heq.
    apply (Hev b ub0 Hb0). destruct Hsb as (<- & _). symmetry. exact Heq.
  - congruence.
Qed.

(** ** Pending timers *)

Lemma clear_partner_timers psid st : timers (clear_partner psid st) = timers st.
Proof. unfold clear_partner. destruct (connectedUsers st !! psid); reflexivity. Qed.

Lemma close_room_timers room user ps st : timers (close_room room user ps st) = timers st.
Proof. unfold close_room. destruct ps; rewrite ?clear_partner_timers; reflexivity. Qed.

Lemma search_timeout_timers t st : timers (search_timeout t st).1 = timers st.
Proof. unfold search_timeout. repeat case_match; reflexivity. Qed.

Lemma reject_call_timers sid st : timers (reject_call sid st).1 = timers st.
Proof.
  unfold reject_call. repeat case_match; try reflexivity.
  cbn [fst]. apply close_room_timers.
Qed.

Lemma end_call_timers sid st : timers (end_call sid st).1 = timers st.
Proof.
  unfold end_call. repeat case_match; try reflexivity; cbn [fst]; apply close_room_timers.
Qed.

Lemma disconnect_timers sid st : timers (disconnect sid st).1 = timers st.
Proof.
  unfold disconnect. destruct (get_user st sid) as [[user u]|]; [|reflexivity].
  repeat case_match; simplify_eq; cbn [fst]; st_fields;
    rewrite ?clear_partner_timers; reflexivity.
Qed.

Lemma find_random_partner_timers mp sid rnd now st t :
  t ∈ timers (find_random_partner mp sid rnd now st).1 ->
  t ∈ timers st \/
  exists u, get_user st sid = Some (t_user t, u) /\ t_socket t = sid.
Proof.
  unfold find_random_partner.
  destruct (get_user st sid) as [[user u]|]; [|auto].
  destruct (isWaiting u); [auto|].
  destruct (findPartner mp st u) as [partner|].
  - destruct (heap st !! partner) as [p|]; [|auto].
    unfold start_call. case_match; cbn [fst]; st_fields; auto.
  - unfold start_waiting. cbn [fst]. st_fields. rewrite elem_of_app.
    intros [Hin|Hin]; [auto|]. apply list_elem_of_singleton in Hin as ->.
    right. exists u. auto.
Qed.

Lemma step_timers_sound mp ev st :
  registry_sound st -> timers_sound st -> timers_sound (step mp ev st).1.
Proof.
  intros Hreg Ht t Hin.
  assert (Hkeep : t ∈ timers st ->
            exists u, heap (step mp ev st).1 !! t_user t = Some u /\ socketId u = t_socket t).
  { intros Hold. destruct (Ht t Hold) as (u & Hu & Hs).
    destruct (step_heap_extends mp ev st _ u Hu) as (u' & Hu' & Hsame).
    exists u'. split; [exact Hu'|]. rewrite <- Hs. apply Hsame. }
  revert Hin Hkeep.
  destruct ev as [s|s uid userInfo now|s rnd now|s|s|s sdp type|s sdp type|s c|s|s|s|k|now];
    cbn [step]; unfold on_socket;
    try (destruct (decide (s ∈ sockets st)) as [Hlive|Hdead];
         [|intros Hin Hkeep; exact (Hkeep Hin)]);
    intros Hin Hkeep.
  - apply Hkeep. revert Hin. unfold connection. case_match; auto.
  - exact (Hkeep Hin).
  - apply find_random_partner_timers in Hin as [Hin|(u & Hget & Hs)]; [auto|].
    unfold get_user in Hget.
    destruct (connectedUsers st !! s) as [a|] eqn:Hc; [|discriminate].
    destruct (heap st !! a) as [u0|] eqn:Hu; [|discriminate].
    injection Hget as -> ->.
    destruct (Hreg s _ Hc) as (_ & u1 & Hu1 & Hsid).
    destruct (find_random_partner_heap_extends mp s rnd now st _ u Hu) as (u' & Hu' & Hsame).
    exists u'. split; [exact Hu'|]. rewrite Hs. destruct Hsame as (-> & _). congruence.
  - apply Hkeep. revert Hin. rewrite accept_call_state. auto.
  - apply Hkeep. revert Hin. rewrite reject_call_timers. auto.
  - apply Hkeep. revert Hin. unfold offer. rewrite relay_state. auto.
  - apply Hkeep. revert Hin. unfold answer. rewrite relay_state. auto.
  - apply Hkeep. revert Hin. unfold ice_candidate. rewrite relay_state. auto.
  - apply Hkeep. revert Hin. rewrite end_call_timers. auto.
  - apply Hkeep. revert Hin. rewrite disconnect_timers. auto.
  - exact (Hkeep Hin).
  - destruct (timers st !! k) as [tm|] eqn:Hk; [|exact (Hkeep Hin)].
    apply Hkeep. revert Hin.
    rewrite search_timeout_timers. cbn [timers set_timers].
    intros Hin. apply list_elem_of_lookup in Hin as [i Hi].
    rewrite list_lookup_delete in Hi. apply list_elem_of_lookup.
    case_decide; eauto.
  - exact (Hkeep Hin).
Qed.

(** ** The waiting set is kept in step with the waiting flags *)

Lemma registry_sound_distinct st s1 s2 a1 a2 :
  registry_sound st ->
  connectedUsers st !! s1 = Some a1 -> connectedUsers st !! s2 = Some a2 ->
  s1 <> s2 -> a1 <> a2.
Proof.
  intros Hreg H1 H2 Hne ->.
  destruct (Hreg s1 a2 H1) as (_ & u1 & Hu1 & Hs1).
  destruct (Hreg s2 a2 H2) as (_ & u2 & Hu2 & Hs2).
  congruence.
Qed.

Lemma register_user_queue_sound sid uid userInfo now st :
  registry_sound st -> queue_sound st ->
  (forall a u, heap st !! a = Some u -> socketId u <> sid) ->
  queue_sound (register_user sid uid userInfo now st).1.
Proof.
  intros Hreg Hq Hfirst s. unfold register_user. cbn [fst]. st_fields.
  rewrite (Hq s), !searching_iff. st_fields.
  destruct (decide (sid = s)) as [<-|Hne].
  - split.
    + intros (a & Hc & _). destruct (Hreg sid a Hc) as (_ & u & Hu & Hs).
      exfalso. exact (Hfirst a u Hu Hs).
    + intros (a & Hc & Hw). rewrite lookup_insert_eq in Hc. injection Hc as <-.
      rewrite list_lookup_middle in Hw by reflexivity. discriminate.
  - rewrite lookup_insert_ne by exact Hne.
    split; intros (a & Hc & Hw); exists a; (split; [exact Hc|]);
      destruct (Hreg s a Hc) as (_ & u & Hu & _);
      rewrite (lookup_app_l_Some _ _ _ _ Hu) in *; rewrite Hu in *; exact Hw.
Qed.

Lemma start_waiting_queue_sound mp sid user u st :
  registry_sound st -> queue_sound st ->
  get_user st sid = Some (user, u) ->
  queue_sound (start_waiting mp sid user st).1.
Proof.
  intros Hreg Hq Hget s. unfold start_waiting. cbn [fst]. st_fields.
  unfold get_user in Hget.
  destruct (connectedUsers st !! sid) as [user0|] eqn:Hc; [|discriminate].
  destruct (heap st !! user0) as [u0|] eqn:Hu; [|discriminate].
  injection Hget as -> ->.
  rewrite elem_of_set_add, (Hq s), !searching_iff. st_fields.
  destruct (decide (s = sid)) as [->|Hne].
  - split; [|auto]. intros _. exists user. split; [exact Hc|].
    rewrite list_lookup_alter_eq, Hu. reflexivity.
  - split.
    + intros [?|(a & Ha & Hw)]; [contradiction|]. exists a. split; [exact Ha|].
      rewrite list_lookup_alter_ne; [exact Hw|].
      apply (registry_sound_distinct st sid s); auto.
    + intros (a & Ha & Hw). right. exists a. split; [exact Ha|].
      rewrite list_lookup_alter_ne in Hw; [exact Hw|].
      apply (registry_sound_distinct st sid s); auto.
Qed.

Lemma start_call_queue_sound mp sid rid now user u partner p st :
  registry_sound st -> queue_sound st ->
  get_user st sid = Some (user, u) ->
  findPartner mp st u = Some partner ->
  heap st !! partner = Some p ->
  queue_sound (start_call sid rid now user u partner p st).1.
Proof.
  intros Hreg Hq Hget Hfind Hp s.
  unfold get_user in Hget.
  destruct (connectedUsers st !! sid) as [user0|] eqn:Hc; [|discriminate].
  destruct (heap st !! user0) as [u0|] eqn:Hu; [|discriminate].
  injection Hget as -> ->.
  destruct (Hreg sid user Hc) as (_ & u1 & Hu1 & Hsid).
  assert (u1 = u) by congruence. subst u1. clear Hu1.
  destruct (findPartner_Some _ _ _ _ Hfind) as (w & p1 & Hw & Hcw & Hp1 & Hcompat).
  assert (p1 = p) by congruence. subst p1. clear Hp1.
  destruct (Hreg w partner Hcw) as (_ & p1 & Hp1 & Hwid).
  assert (p1 = p) by congruence. subst p1. clear Hp1.
  apply areUsersCompatible_true in Hcompat as (Huid & _).
  assert (Hne : user <> partner) by (intros ->; congruence).
  assert (Hwaiting : waitingUsers (start_call sid rid now user u partner p st).1 =
            set_delete w (set_delete sid (waitingUsers st))).
  { unfold start_call. cbn [fst]. case_match; st_fields; rewrite Hsid, Hwid; reflexivity. }
  assert (Hheap : heap (start_call sid rid now user u partner p st).1 =
            alter (bind_room rid (userId u)) partner
              (alter (bind_room rid (userId p)) user (heap st))).
  { unfold start_call. cbn [fst]. case_match; reflexivity. }
  assert (Hconn : connectedUsers (start_call sid rid now user u partner p st).1 =
            connectedUsers st).
  { unfold start_call. cbn [fst]. case_match; reflexivity. }
  rewrite Hwaiting, !elem_of_set_delete, (Hq s), !searching_iff, Hheap, Hconn.
  split.
  - intros (Hnw & Hns & a & Ha & Hwa). exists a. split; [exact Ha|].
    rewrite !list_lookup_alter_ne; [exact Hwa | |].
    + apply (registry_sound_distinct st sid s); auto.
    + apply (registry_sound_distinct st w s); auto.
  - intros (a & Ha & Hwa).
    destruct (decide (s = w)) as [->|Hnw].
    { assert (a = partner) by congruence. subst a.
      rewrite list_lookup_alter_eq, list_lookup_alter_ne, Hp in Hwa by exact Hne.
      discriminate. }
    destruct (decide (s = sid)) as [->|Hns].
    { assert (a = user) by congruence. subst a.
      rewrite list_lookup_alter_ne, list_lookup_alter_eq, Hu in Hwa by congruence.
      discriminate. }
    split; [exact Hnw|]. split; [exact Hns|]. exists a. split; [exact Ha|].
    rewrite !list_lookup_alter_ne in Hwa; [exact Hwa | |].
    + apply (registry_sound_distinct st sid s); auto.
    + apply (registry_sound_distinct st w s); auto.
Qed.

Lemma search_timeout_queue_sound t u st :
  registry_sound st -> one_user_per_socket st -> queue_sound st ->
  heap st !! t_user t = Some u -> socketId u = t_socket t ->
  queue_sound (search_timeout t st).1.
Proof.
  intros Hreg Hone Hq Hu Hs s. unfold search_timeout. rewrite Hu.
  destruct (isWaiting u && set_has (t_socket t) (waitingUsers st)); [|apply Hq].
  cbn [fst]. st_fields. rewrite elem_of_set_delete, (Hq s), !searching_iff. st_fields.
  assert (Hother : forall a, connectedUsers st !! s = Some a -> s <> t_socket t ->
                     a <> t_user t).
  { intros a Ha Hne ->. destruct (Hreg s _ Ha) as (_ & u1 & Hu1 & Hs1). congruence. }
  split.
  - intros (Hne & a & Ha & Hw). exists a. split; [exact Ha|].
    rewrite list_lookup_alter_ne; [exact Hw|]. intros Heq. symmetry in Heq. revert Heq.
    apply Hother; assumption.
  - intros (a & Ha & Hw).
    destruct (decide (s = t_socket t)) as [->|Hne].
    + exfalso. destruct (Hreg _ a Ha) as (_ & ua & Hua & Hsa).
      assert (a = t_user t) by (apply (Hone a (t_user t) ua u); congruence). subst a.
      rewrite list_lookup_alter_eq, Hu in Hw. discriminate.
    + split; [exact Hne|]. exists a. split; [exact Ha|].
      rewrite list_lookup_alter_ne in Hw; [exact Hw|]. intros Heq. symmetry in Heq.
      revert Heq. apply Hother; assumption.
Qed.

Lemma disconnect_queue_sound sid st :
  queue_sound st -> queue_sound (disconnect sid st).1.
Proof.
  intros Hq s.
  rewrite disconnect_waitingUsers_registered, (Hq s), !searching_iff.
  rewrite disconnect_connectedUsers_registered.
  pose proof (disconnect_same_waiting sid st) as Hw.
  destruct (get_user st sid) as [[user u]|].
  - split.
    + intros ((a & Ha & Hwa) & Hne). exists a.
      rewrite lookup_delete_ne by (intros ->; apply Hne; eauto).
      split; [exact Ha|]. rewrite Hw. exact Hwa.
    + intros (a & Ha & Hwa). apply lookup_delete_Some in Ha as [Hne Ha].
      split; [|congruence]. exists a. split; [exact Ha|]. rewrite <- Hw. exact Hwa.
  - split.
    + intros ((a & Ha & Hwa) & _). exists a. split; [exact Ha|]. rewrite Hw. exact Hwa.
    + intros (a & Ha & Hwa). split; [|intros [? [=]]].
      exists a. split; [exact Ha|]. rewrite <- Hw. exact Hwa.
Qed.

Lemma cleanup_queue_sound now st : queue_sound st -> queue_sound (cleanup now st).
Proof.
  intros Hq s. rewrite cleanup_waiting, (Hq s), !searching_iff, cleanup_heap.
  setoid_rewrite cleanup_connected.
  destruct (swept st now s).
  - split; [intros [_ [=]] | intros (a & [=] & _)].
  - split; [tauto | auto].
Qed.

Lemma step_queue_sound mp ev st :
  queue_inv st -> registers_once st ev -> queue_sound (step mp ev st).1.
Proof.
  intros (Hreg & Hone & Htim & Hq) Hev.
  destruct ev as [s|s uid userInfo now|s rnd now|s|s|s sdp type|s sdp type|s c|s|s|s|k|now];
    cbn [step]; unfold on_socket;
    try (destruct (decide (s ∈ sockets st)) as [Hlive|Hdead]; [|exact Hq]).
  - unfold connection. case_match; exact Hq.
  - apply register_user_queue_sound; assumption.
  - unfold find_random_partner.
    destruct (get_user st s) as [[user u]|] eqn:Hget; [|exact Hq].
    destruct (isWaiting u); [exact Hq|].
    destruct (findPartner mp st u) as [partner|] eqn:Hfind.
    + destruct (heap st !! partner) as [p|] eqn:Hp; [|exact Hq].
      eapply start_call_queue_sound; eassumption.
    + eapply start_waiting_queue_sound; eassumption.
  - rewrite accept_call_state. exact Hq.
  - apply (queue_sound_frame st); auto.
    + apply reject_call_same_waiting.
    + apply reject_call_waitingUsers.
    + apply reject_call_connectedUsers.
  - unfold offer. rewrite relay_state. exact Hq.
  - unfold answer. rewrite relay_state. exact Hq.
  - unfold ice_candidate. rewrite relay_state. exact Hq.
  - apply (queue_sound_frame st); auto.
    + apply end_call_same_waiting.
    + apply end_call_waitingUsers.
    + apply end_call_connectedUsers.
  - apply (disconnect_queue_sound s (socket_closed s st)). exact Hq.
  - exact Hq.
  - destruct (timers st !! k) as [t|] eqn:Hk; [|exact Hq].
    destruct (Htim t) as (u & Hu & Hs); [apply list_elem_of_lookup; eauto|].
    apply (search_timeout_queue_sound t u (set_timers (delete k (timers st)) st)); assumption.
  - apply cleanup_queue_sound, Hq.
Qed.

Lemma reachable_once_queue_inv mp st : reachable_once mp st -> queue_inv st.
Proof.
  induction 1 as [|st ev _ IH Hev].
  - split; [|split; [|split]].
    + intros s a. cbn. rewrite lookup_empty. discriminate.
    + intros a b ua ub. cbn. discriminate.
    + intros t. cbn. rewrite elem_of_nil. contradiction.
    + intros s. cbn. rewrite elem_of_nil. split; [contradiction|].
      intros (a & u & Hc & _). cbn in Hc. rewrite lookup_empty in Hc. discriminate.
  - split; [|split; [|split]].
    + apply step_registry_sound, IH.
    + apply step_one_user_per_socket; [apply IH | exact Hev].
    + apply step_timers_sound; apply IH.
    + apply step_queue_sound; assumption.
Qed.

(** X1. The waiting set is exactly the set of sockets whose registered
    participant is searching, in every state reached by events among which
    no connection registers a second time. *)
Theorem queue_tracks_searching mp st :
  reachable_once mp st ->
  forall s, s ∈ waitingUsers st <-> searching st s.
Proof. intros H. apply (reachable_once_queue_inv mp st H). Qed.

Lemma reachable_once_run mp evs st :
  reachable_once mp st -> events_ok mp registers_once evs st ->
  reachable_once mp (run mp evs st).
Proof.
  revert st. induction evs as [|ev evs IH]; intros st Hst Hok; [exact Hst|].
  destruct Hok as [Hev Hok]. cbn [run]. apply IH; [|exact Hok].
  apply reachable_once_step; assumption.
Qed.

Lemma queue_tracks_searching_witness :
  "sA" ∈ waitingUsers searchingA <-> searching searchingA "sA".
Proof.
  apply (queue_tracks_searching matchingPreferences searchingA).
  apply (reachable_once_run matchingPreferences
           [Connection "sA"; RegisterUser "sA" "A" noInfo 0; FindRandomPartner "sA" "k3j" 2]
           initial (reachable_once_initial _)).
  cbn [events_ok registers_once].
  split; [exact I|]. split; [|split; exact I].
  intros a u Hu. vm_compute in Hu. destruct a; discriminate.
Defined.

(** * Further properties of the signalling core *)

(** ** Reachability of the scenarios *)

Lemma searchingA_reachable : reachable matchingPreferences searchingA.
Proof. apply reachable_run, reachable_run, reachable_initial. Qed.

Lemma strangersWaiting_reachable : reachable matchingPreferences strangersWaiting.
Proof. apply reachable_run, reachable_initial. Qed.

Lemma inCall_reachable : reachable matchingPreferences inCall.
Proof. apply reachable_run, reachable_initial. Qed.

Lemma searchingA_reachable_once : reachable_once matchingPreferences searchingA.
Proof.
  apply (reachable_once_run matchingPreferences
           [Connection "sA"; RegisterUser "sA" "A" noInfo 0; FindRandomPartner "sA" "k3j" 2]
           initial (reachable_once_initial _)).
  cbn [events_ok registers_once].
  split; [exact I|]. split; [|split; exact I].
  intros a u Hu. vm_compute in Hu. destruct a; discriminate.
Qed.

(** ** Matching *)

Lemma findPartner_scan_None mp h connected user ws :
  findPartner_scan mp h connected user ws = None <->
  forall w a p, w ∈ ws -> connected !! w = Some a -> h !! a = Some p ->
                areUsersCompatible mp user p = false.
Proof.
  induction ws as [|w0 ws IH]; cbn [findPartner_scan].
  { split; [|reflexivity]. intros _ w a p Hw. inversion Hw. }
  destruct (connected !! w0) as [a0|] eqn:Hc.
  - destruct (h !! a0) as [p0|] eqn:Hh.
    + destruct (areUsersCompatible mp user p0) eqn:Hcomp.
      * split; [discriminate|]. intros Hall.
        rewrite (Hall w0 a0 p0) in Hcomp; [discriminate| |assumption..]. left.
      * rewrite IH. split.
        -- intros Hall w a p Hw Ha Hp. apply elem_of_cons in Hw as [->|Hw]; [congruence|eauto].
        -- intros Hall w a p Hw. apply Hall. right. exact Hw.
    + rewrite IH. split.
      * intros Hall w a p Hw Ha Hp. apply elem_of_cons in Hw as [->|Hw]; [congruence|eauto].
      * intros Hall w a p Hw. apply Hall. right. exact Hw.
  - rewrite IH. split.
    + intros Hall w a p Hw Ha Hp. apply elem_of_cons in Hw as [->|Hw]; [congruence|eauto].
    + intros Hall w a p Hw. apply Hall. right. exact Hw.
Qed.

Lemma findPartner_scan_first mp h connected user ws partner :
  findPartner_scan mp h connected user ws = Some partner <->
  exists before w after p,
    ws = (before ++ w :: after)%list /\
    connected !! w = Some partner /\ h !! partner = Some p /\
    areUsersCompatible mp user p = true /\
    findPartner_scan mp h connected user before = None.
Proof.
  induction ws as [|w0 ws IH]; cbn [findPartner_scan].
  { split; [discriminate|]. intros (before & w & after & p & Heq & _).
    destruct before; discriminate. }
  assert (Hskip : findPartner_scan mp h connected user [w0] = None ->
            (findPartner_scan mp h connected user ws = Some partner <->
             exists before w after p,
               w0 :: ws = (before ++ w :: after)%list /\
               connected !! w = Some partner /\ h !! partner = Some p /\
               areUsersCompatible mp user p = true /\
               findPartner_scan mp h connected user before = None)).
  { intros Hw0. rewrite IH. split.
    - intros (before & w & after & p & -> & Hc & Hh & Hcomp & Hnone).
      exists (w0 :: before), w, after, p. repeat split; try assumption.
      cbn [findPartner_scan] in *.
      destruct (connected !! w0) as [a0|]; [|exact Hnone].
      destruct (h !! a0) as [p0|]; [|exact Hnone].
      destruct (areUsersCompatible mp user p0); [discriminate|exact Hnone].
    - intros (before & w & after & p & Heq & Hc & Hh & Hcomp & Hnone).
      destruct before as [|b before]; simplify_eq/=.
      + rewrite Hc, Hh, Hcomp in Hw0. discriminate.
      + exists before, w, after, p. repeat split; try assumption.
        destruct (connected !! b) as [a0|]; [|exact Hnone].
        destruct (h !! a0) as [p0|]; [|exact Hnone].
        destruct (areUsersCompatible mp user p0); [discriminate|exact Hnone]. }
  cbn [findPartner_scan] in Hskip.
  destruct (connected !! w0) as [a0|] eqn:Hc; [|apply Hskip; reflexivity].
  destruct (h !! a0) as [p0|] eqn:Hh; [|apply Hskip; reflexivity].
  destruct (areUsersCompatible mp user p0) eqn:Hcomp; [|apply Hskip; reflexivity].
  split.
  - intros [= <-]. exists [], w0, ws, p0. repeat split; assumption.
  - intros (before & w & after & p & Heq & Hc' & Hh' & Hcomp' & Hnone).
    destruct before as [|b before]; simplify_eq/=; [reflexivity|].
    rewrite Hc, Hh, Hcomp in Hnone. discriminate.
Qed.

(** X2. [findPartner] picks the first compatible entry of the waiting set,
    in insertion order: it returns a user exactly when the set splits into
    entries that are not compatible with the searcher (unregistered, or
    failing [areUsersCompatible]), the socket of the returned user, which is
    compatible, and the rest; and it returns nothing exactly when no entry
    is compatible. *)
Theorem findPartner_first_compatible mp st user :
  (forall partner,
     findPartner mp st user = Some partner <->
     exists before w after,
       waitingUsers st = (before ++ w :: after)%list /\
       connectedUsers st !! w = Some partner /\
       compatible_entry mp st user w /\
       forall w', w' ∈ before -> ~ compatible_entry mp st user w') /\
  (findPartner mp st user = None <->
   forall w, w ∈ waitingUsers st -> ~ compatible_entry mp st user w).
Proof.
  assert (Hnone : forall ws,
            findPartner_scan mp (heap st) (connectedUsers st) user ws = None <->
            forall w, w ∈ ws -> ~ compatible_entry mp st user w).
  { intros ws. rewrite findPartner_scan_None. split.
    - intros Hall w Hw (a & p & Ha & Hp & Hcomp).
      rewrite (Hall w a p Hw Ha Hp) in Hcomp. discriminate.
    - intros Hall w a p Hw Ha Hp.
      destruct (areUsersCompatible mp user p) eqn:Hcomp; [|reflexivity].
      destruct (Hall w Hw). exists a, p. auto. }
  split; [|apply Hnone].
  intros partner. unfold findPartner. rewrite findPartner_scan_first. split.
  - intros (before & w & after & p & Heq & Hc & Hh & Hcomp & Hb).
    exists before, w, after. split; [exact Heq|]. split; [exact Hc|].
    split; [exists partner, p; auto|]. apply Hnone, Hb.
  - intros (before & w & after & Heq & Hc & (a & p & Ha & Hp & Hcomp) & Hb).
    exists before, w, after, p. replace partner with a by congruence.
    split; [exact Heq|]. split; [exact Ha|]. split; [exact Hp|].
    split; [exact Hcomp|]. apply Hnone, Hb.
Qed.

Lemma truthy_generateRoomId rnd now : truthy (Some (generateRoomId rnd now)) = true.
Proof. reflexivity. Qed.

Lemma start_call_bound mp st sid rid now user u partner p :
  registry_sound st ->
  truthy (Some rid) = true ->
  get_user st sid = Some (user, u) ->
  connectedUsers st !! socketId p = Some partner ->
  heap st !! partner = Some p ->
  areUsersCompatible mp u p = true ->
  let st' := (start_call sid rid now user u partner p st).1 in
  socketId p <> sid /\
  activeRooms st' !! rid = Some (newRoom rid user partner now) /\
  get_user st' sid = Some (user, bind_room rid (userId p) u) /\
  get_user st' (socketId p) = Some (partner, bind_room rid (userId u) p) /\
  partner_socket st' sid = Some (socketId p) /\
  partner_socket st' (socketId p) = Some sid /\
  (sid ∉ waitingUsers st') /\ (socketId p ∉ waitingUsers st').
Proof.
  intros Hreg Hrid Hget Hcp Hp Hcomp st'.
  apply areUsersCompatible_true in Hcomp as [Hid _].
  unfold get_user in Hget.
  destruct (connectedUsers st !! sid) as [a|] eqn:Hcu; [|discriminate].
  destruct (heap st !! a) as [u0|] eqn:Hu; [|discriminate]. simplify_eq.
  destruct (Hreg sid user Hcu) as (_ & u1 & Hu1 & Hsock). simplify_eq.
  assert (Hne : user <> partner) by (intros ->; congruence).
  assert (Hsid : socketId p <> socketId u) by (intros Heq; rewrite Heq in Hcp; congruence).
  assert (Hconn : connectedUsers st' = connectedUsers st).
  { unfold st', start_call. case_match; reflexivity. }
  assert (Hrooms : activeRooms st' = <[rid := newRoom rid user partner now]> (activeRooms st)).
  { unfold st', start_call. case_match; reflexivity. }
  assert (Hheap : heap st' = alter (bind_room rid (userId u)) partner
                               (alter (bind_room rid (userId p)) user (heap st))).
  { unfold st', start_call. case_match; reflexivity. }
  assert (Hwait : waitingUsers st' =
            set_delete (socketId p) (set_delete (socketId u) (waitingUsers st))).
  { unfold st', start_call. case_match; reflexivity. }
  assert (Hhu : heap st' !! user = Some (bind_room rid (userId p) u)).
  { rewrite Hheap, list_lookup_alter_ne by congruence.
    rewrite list_lookup_alter_eq, Hu. reflexivity. }
  assert (Hhp : heap st' !! partner = Some (bind_room rid (userId u) p)).
  { rewrite Hheap, list_lookup_alter_eq, list_lookup_alter_ne by congruence.
    rewrite Hp. reflexivity. }
  assert (Hgu : get_user st' (socketId u) = Some (user, bind_room rid (userId p) u)).
  { unfold get_user. rewrite Hconn, Hcu, Hhu. reflexivity. }
  assert (Hgp : get_user st' (socketId p) = Some (partner, bind_room rid (userId u) p)).
  { unfold get_user. rewrite Hconn, Hcp, Hhp. reflexivity. }
  assert (Hroom : activeRooms st' !! rid = Some (newRoom rid user partner now)).
  { rewrite Hrooms. apply lookup_insert_eq. }
  split; [exact Hsid|]. split; [exact Hroom|]. split; [exact Hgu|]. split; [exact Hgp|].
  split; [|split; [|split]].
  - unfold partner_socket, current_session. rewrite Hgu.
    cbn [currentRoom bind_room or_empty]. rewrite Hrid, Hroom.
    unfold getOtherUser. cbn [users newRoom find_ref]. rewrite Hhu, Hhp.
    cbn [userId bind_room]. rewrite String.eqb_refl. cbn [negb].
    destruct (String.eqb_spec (userId p) (userId u)) as [Heq|_]; [congruence|].
    cbn [negb]. rewrite Hhp. reflexivity.
  - unfold partner_socket, current_session. rewrite Hgp.
    cbn [currentRoom bind_room or_empty]. rewrite Hrid, Hroom.
    unfold getOtherUser. cbn [users newRoom find_ref]. rewrite Hhu.
    cbn [userId bind_room].
    destruct (String.eqb_spec (userId u) (userId p)) as [Heq|_]; [congruence|].
    cbn [negb]. rewrite Hhu. reflexivity.
  - rewrite Hwait, !elem_of_set_delete. tauto.
  - rewrite Hwait, !elem_of_set_delete. tauto.
Qed.

(** X3. When a search finds a partner, the two are bound to each other:
    the partner was waiting, is another socket and another user id; the new
    room is stored under the generated id with the two as members; both user
    objects name the room and each other and are no longer searching; each
    one's partner, as the relays compute it, is the other; and neither
    socket stays in the waiting set. *)
Theorem match_binds_both mp st sid rnd now user u partner p :
  reachable mp st -> sid ∈ sockets st ->
  get_user st sid = Some (user, u) -> isWaiting u = false ->
  findPartner mp st u = Some partner -> heap st !! partner = Some p ->
  let rid := generateRoomId rnd now in
  let st' := (step mp (FindRandomPartner sid rnd now) st).1 in
  socketId p ∈ waitingUsers st /\ socketId p <> sid /\ userId p <> userId u /\
  activeRooms st' !! rid = Some (newRoom rid user partner now) /\
  get_user st' sid = Some (user, bind_room rid (userId p) u) /\
  get_user st' (socketId p) = Some (partner, bind_room rid (userId u) p) /\
  partner_socket st' sid = Some (socketId p) /\
  partner_socket st' (socketId p) = Some sid /\
  (sid ∉ waitingUsers st') /\ (socketId p ∉ waitingUsers st').
Proof.
  intros Hst Hlive Hget Hnw Hfind Hp rid st'.
  pose proof (reachable_registry_sound mp st Hst) as Hreg.
  destruct (findPartner_Some mp st u partner Hfind) as (w & p' & Hw & Hcw & Hp' & Hcomp).
  simplify_eq.
  destruct (Hreg w partner Hcw) as (_ & p'' & Hp'' & Hsock). simplify_eq.
  assert (Hstep : st' = (start_call sid rid now user u partner p st).1).
  { unfold st'. cbn [step]. rewrite on_socket_live by exact Hlive.
    unfold find_random_partner. rewrite Hget, Hnw, Hfind, Hp. reflexivity. }
  split; [exact Hw|].
  split; [|split]; [| |rewrite Hstep;
    apply (start_call_bound mp st sid rid now user u partner p Hreg
             (truthy_generateRoomId rnd now) Hget Hcw Hp Hcomp)].
  - apply (start_call_bound mp st sid rid now user u partner p Hreg
             (truthy_generateRoomId rnd now) Hget Hcw Hp Hcomp).
  - apply areUsersCompatible_true in Hcomp as [Hid _]. congruence.
Qed.

Lemma match_binds_both_witness :
  let u := newUser "sB" "B" noInfo 1 in
  let p := set_isWaiting true (newUser "sA" "A" noInfo 0) in
  let rid := generateRoomId "x9" 3 in
  let st' := (step matchingPreferences (FindRandomPartner "sB" "x9" 3) strangersWaiting).1 in
  socketId p ∈ waitingUsers strangersWaiting /\ socketId p <> "sB" /\ userId p <> userId u /\
  activeRooms st' !! rid = Some (newRoom rid 1 0 3) /\
  get_user st' "sB" = Some (1, bind_room rid (userId p) u) /\
  get_user st' (socketId p) = Some (0, bind_room rid (userId u) p) /\
  partner_socket st' "sB" = Some (socketId p) /\
  partner_socket st' (socketId p) = Some "sB" /\
  ("sB" ∉ waitingUsers st') /\ (socketId p ∉ waitingUsers st').
Proof.
  apply (match_binds_both matchingPreferences strangersWaiting "sB" "x9" 3
           1 (newUser "sB" "B" noInfo 1) 0 (set_isWaiting true (newUser "sA" "A" noInfo 0))).
  - apply strangersWaiting_reachable.
  - apply (bool_decide_unpack _). vm_compute. exact I.
  - reflexivity.
  - reflexivity.
  - reflexivity.
  - reflexivity.
Defined.

(** ** The waiting set *)

Lemma NoDup_set_delete x l : NoDup l -> NoDup (set_delete x l).
Proof. apply NoDup_filter. Qed.

Lemma NoDup_set_add x l : NoDup l -> NoDup (set_add x l).
Proof.
  intros Hl. unfold set_add. destruct (decide (x ∈ l)) as [Hin|Hout]; [exact Hl|].
  apply NoDup_app. split; [exact Hl|]. split; [|apply NoDup_singleton].
  intros y Hy Hy'. apply list_elem_of_singleton in Hy' as ->. contradiction.
Qed.

Lemma cleanup_fold_NoDup h now l c w :
  NoDup w -> NoDup (foldr (cleanup_user h now) (c, w) l).2.
Proof.
  intros Hw. induction l as [|e l IH]; [exact Hw|].
  cbn [foldr]. unfold cleanup_user at 1.
  destruct (inactive h now e.2); [|exact IH].
  cbn [snd]. apply NoDup_set_delete, IH.
Qed.

Lemma find_random_partner_NoDup mp sid rnd now st :
  NoDup (waitingUsers st) -> NoDup (waitingUsers (find_random_partner mp sid rnd now st).1).
Proof.
  intros Hw. unfold find_random_partner, start_call, start_waiting.
  repeat case_match; cbn [fst]; cbn; auto using NoDup_set_delete, NoDup_set_add.
Qed.

Lemma search_timeout_NoDup t st :
  NoDup (waitingUsers st) -> NoDup (waitingUsers (search_timeout t st).1).
Proof.
  intros Hw. unfold search_timeout.
  repeat case_match; cbn [fst]; cbn; auto using NoDup_set_delete.
Qed.

Lemma disconnect_NoDup sid st :
  NoDup (waitingUsers st) -> NoDup (waitingUsers (disconnect sid st).1).
Proof.
  intros Hw. unfold disconnect. destruct (get_user st sid) as [[user u]|]; [|exact Hw].
  repeat case_match; simplify_eq; cbn [fst]; cbn;
    rewrite ?clear_partner_waitingUsers; cbn; auto using NoDup_set_delete.
Qed.

Lemma step_waitingUsers_NoDup mp ev st :
  NoDup (waitingUsers st) -> NoDup (waitingUsers (step mp ev st).1).
Proof.
  intros Hw.
  destruct ev as [s|s uid userInfo now|s rnd now|s|s|s sdp type|s sdp type|s c|s|s|s|k|now];
    cbn [step]; unfold on_socket;
    try (destruct (decide (s ∈ sockets st)); [|exact Hw]).
  - unfold connection. case_match; exact Hw.
  - exact Hw.
  - apply find_random_partner_NoDup, Hw.
  - rewrite accept_call_state. exact Hw.
  - rewrite reject_call_waitingUsers. exact Hw.
  - unfold offer. rewrite relay_state. exact Hw.
  - unfold answer. rewrite relay_state. exact Hw.
  - unfold ice_candidate. rewrite relay_state. exact Hw.
  - rewrite end_call_waitingUsers. exact Hw.
  - apply disconnect_NoDup, Hw.
  - exact Hw.
  - destruct (timers st !! k) as [t|]; [|exact Hw].
    apply search_timeout_NoDup, Hw.
  - cbn [fst]. unfold cleanup, cleanupEmptyRooms, cleanupInactiveUsers. cbn.
    apply cleanup_fold_NoDup, Hw.
Qed.

Lemma find_random_partner_waiting_registered mp sid rnd now st x :
  x ∈ waitingUsers (find_random_partner mp sid rnd now st).1 ->
  x ∈ waitingUsers st \/ (x = sid /\ is_Some (connectedUsers st !! sid)).
Proof.
  intros Hx. destruct (connectedUsers st !! sid) as [a|] eqn:Hc.
  - apply find_random_partner_waitingUsers in Hx as [Hx| ->]; eauto.
  - left. unfold find_random_partner, get_user in Hx. rewrite Hc in Hx. exact Hx.
Qed.

Lemma step_queue_registered mp ev st :
  registry_sound st -> queue_registered st -> queue_registered (step mp ev st).1.
Proof.
  intros Hreg [Hnd Hq]. split; [apply step_waitingUsers_NoDup, Hnd|].
  pose proof (step_registry_sound mp ev st Hreg) as Hreg'.
  assert (Hlive : forall s, is_Some (connectedUsers (step mp ev st).1 !! s) ->
            s ∈ sockets (step mp ev st).1 /\ is_Some (connectedUsers (step mp ev st).1 !! s)).
  { intros s [a Ha]. split; [|eauto]. apply (Hreg' s a Ha). }
  intros x Hx. apply Hlive. clear Hlive Hreg'. revert Hx.
  destruct ev as [s|s uid userInfo now|s rnd now|s|s|s sdp type|s sdp type|s c|s|s|s|k|now];
    cbn [step]; unfold on_socket;
    try (destruct (decide (s ∈ sockets st)); [|intros Hx; apply (Hq x Hx)]).
  - unfold connection. case_match; intros Hx; apply (Hq x Hx).
  - cbn [register_user fst]. cbn. intros Hx.
    destruct (decide (s = x)) as [->|Hne].
    + rewrite lookup_insert_eq. eauto.
    + rewrite lookup_insert_ne by exact Hne. apply (Hq x Hx).
  - rewrite find_random_partner_connectedUsers. intros Hx.
    apply find_random_partner_waiting_registered in Hx as [Hx|[-> Hx]]; [apply (Hq x Hx)|exact Hx].
  - rewrite accept_call_state. intros Hx; apply (Hq x Hx).
  - rewrite reject_call_waitingUsers, reject_call_connectedUsers. intros Hx; apply (Hq x Hx).
  - unfold offer. rewrite relay_state. intros Hx; apply (Hq x Hx).
  - unfold answer. rewrite relay_state. intros Hx; apply (Hq x Hx).
  - unfold ice_candidate. rewrite relay_state. intros Hx; apply (Hq x Hx).
  - rewrite end_call_waitingUsers, end_call_connectedUsers. intros Hx; apply (Hq x Hx).
  - rewrite disconnect_waitingUsers_registered, disconnect_connectedUsers_registered.
    intros [Hx Hne]. cbn in Hx. destruct (Hq x Hx) as [_ Hsome].
    destruct (get_user (socket_closed s st) s) as [r|]; [|exact Hsome].
    rewrite lookup_delete_ne; [exact Hsome|]. intros ->. apply Hne; eauto.
  - intros Hx; apply (Hq x Hx).
  - destruct (timers st !! k) as [t|]; [|intros Hx; apply (Hq x Hx)].
    rewrite search_timeout_waitingUsers, search_timeout_connectedUsers.
    intros [Hx _]. apply (Hq x Hx).
  - cbn [fst]. rewrite cleanup_waiting, cleanup_connected.
    intros [Hx ->]. apply (Hq x Hx).
Qed.

Lemma reachable_queue_registered mp st : reachable mp st -> queue_registered st.
Proof.
  induction 1 as [|st ev Hst IH].
  - split; [constructor|]. intros s Hs. inversion Hs.
  - apply step_queue_registered; [|exact IH].
    apply (reachable_registry_sound mp), Hst.
Qed.

(** X4. In every state the server can reach, whatever the events, the
    waiting set holds no socket twice, every socket in it is live and has a
    registered user, and so [/stats] never reports more waiting users than
    connected ones. *)
Theorem waiting_sockets_registered mp st :
  reachable mp st ->
  NoDup (waitingUsers st) /\
  (forall s, s ∈ waitingUsers st -> s ∈ sockets st /\ is_Some (get_user st s)) /\
  (forall db, stats_waitingUsers (stats st db) <= stats_connectedUsers (stats st db)).
Proof.
  intros Hst. destruct (reachable_queue_registered mp st Hst) as [Hnd Hq].
  pose proof (reachable_registry_sound mp st Hst) as Hreg.
  split; [exact Hnd|]. split.
  - intros s Hs. destruct (Hq s Hs) as [Hlive [a Ha]]. split; [exact Hlive|].
    destruct (registry_sound_get_user st s a Hreg Ha) as (u & -> & _). eauto.
  - intros db. cbn [stats stats_waitingUsers stats_connectedUsers].
    rewrite <- size_dom.
    rewrite <- (size_list_to_set (C:=gset string) (waitingUsers st) Hnd).
    apply subseteq_size. intros s Hs. apply elem_of_list_to_set in Hs.
    apply elem_of_dom, (Hq s Hs).
Qed.

Lemma waiting_sockets_registered_witness :
  NoDup (waitingUsers searchingA) /\
  (forall s, s ∈ waitingUsers searchingA ->
     s ∈ sockets searchingA /\ is_Some (get_user searchingA s)) /\
  (forall db, stats_waitingUsers (stats searchingA db)
              <= stats_connectedUsers (stats searchingA db)).
Proof.
  apply (waiting_sockets_registered matchingPreferences searchingA).
  apply searchingA_reachable.
Defined.

(** X5. When every connection registers at most once, a firing search
    timer emits [partner-search-timeout] exactly when its socket is still in
    the waiting set: then the notice goes to that socket alone, the socket
    leaves the set and its user stops searching; otherwise the timer changes
    nothing and emits nothing.  Either way the timer is consumed. *)
Theorem timeout_notice_iff_queued mp st k t :
  reachable_once mp st ->
  timers st !! k = Some t ->
  let r := step mp (TimerFired k) st in
  timers r.1 = delete k (timers st) /\
  (t_socket t ∈ waitingUsers st ->
     r.2 = [(SocketEmit (t_socket t), PartnerSearchTimeout)] /\
     waitingUsers r.1 = set_delete (t_socket t) (waitingUsers st) /\
     ~ searching r.1 (t_socket t)) /\
  ((t_socket t ∉ waitingUsers st) ->
     r = (set_timers (delete k (timers st)) st, [])).
Proof.
  intros Hst Ht r.
  destruct (reachable_once_queue_inv mp st Hst) as (Hreg & Hone & Htim & Hq).
  destruct (Htim t) as (u & Hu & Hsock); [eapply list_elem_of_lookup_2, Ht|].
  assert (Hr : r = search_timeout t (set_timers (delete k (timers st)) st)).
  { unfold r. cbn [step]. rewrite Ht. reflexivity. }
  split; [rewrite Hr, search_timeout_timers; reflexivity|]. split.
  - intros Hin. destruct (proj1 (Hq _) Hin) as (a & u' & Ha & Hu' & Hw).
    destruct (Hreg _ _ Ha) as (_ & u'' & Hu'' & Hs''). simplify_eq.
    assert (a = t_user t) by (eapply Hone; eauto; congruence). subst a.
    simplify_eq. rewrite Hr. unfold search_timeout.
    cbn [heap waitingUsers set_timers]. rewrite Hu, Hw. unfold set_has.
    rewrite (bool_decide_eq_true_2 _ Hin). cbn [andb fst snd].
    split; [reflexivity|]. split; [reflexivity|].
    intros (b & ub & Hb & Hub & Hwb). cbn in Hb, Hub.
    assert (b = t_user t) by congruence. subst b.
    rewrite list_lookup_alter_eq, Hu in Hub. simplify_eq/=.
  - intros Hout. rewrite Hr. unfold search_timeout.
    cbn [heap waitingUsers set_timers]. rewrite Hu. unfold set_has.
    rewrite (bool_decide_eq_false_2 _ Hout), andb_false_r. reflexivity.
Qed.

Lemma timeout_notice_iff_queued_witness :
  let r := step matchingPreferences (TimerFired 0) searchingA in
  timers r.1 = delete 0 (timers searchingA) /\
  (t_socket timerA ∈ waitingUsers searchingA ->
     r.2 = [(SocketEmit (t_socket timerA), PartnerSearchTimeout)] /\
     waitingUsers r.1 = set_delete (t_socket timerA) (waitingUsers searchingA) /\
     ~ searching r.1 (t_socket timerA)) /\
  ((t_socket timerA ∉ waitingUsers searchingA) ->
     r = (set_timers (delete 0 (timers searchingA)) searchingA, [])).
Proof.
  apply (timeout_notice_iff_queued matchingPreferences searchingA 0 timerA).
  - apply searchingA_reachable_once.
  - reflexivity.
Defined.

(** X6. A search request is answered with an error exactly when the socket
    is live and either has no registered user or its user is already
    searching; the error is then the only message, it names the cause, and
    the state is unchanged. *)
Theorem search_rejected_iff mp st sid rnd now :
  let r := step mp (FindRandomPartner sid rnd now) st in
  ((exists t message, (t, Error message) ∈ r.2) <->
   sid ∈ sockets st /\
   (get_user st sid = None \/ exists user u, get_user st sid = Some (user, u) /\ isWaiting u = true)) /\
  (forall t message, (t, Error message) ∈ r.2 ->
     r.1 = st /\
     r.2 = [(SocketEmit sid,
             Error (match get_user st sid with
                    | Some _ => "Already searching for partner"
                    | None => "User not registered"
                    end))]).
Proof.
  intros r. unfold r. cbn [step]. unfold on_socket.
  destruct (decide (sid ∈ sockets st)) as [Hlive|Hdead].
  2:{ cbn [fst snd]. split; [split|].
      - intros (t & m & Hin). inversion Hin.
      - intros [Hin _]. contradiction.
      - intros t m Hin. inversion Hin. }
  unfold find_random_partner.
  destruct (get_user st sid) as [[user u]|] eqn:Hget.
  2:{ cbn [fst snd]. split; [split|].
      - intros _. auto.
      - intros _. eexists _, _. left.
      - intros t m _. auto. }
  destruct (isWaiting u) eqn:Hw.
  { cbn [fst snd]. split; [split|].
    - intros _. split; [exact Hlive|]. right. eauto.
    - intros _. eexists _, _. left.
    - intros t m _. auto. }
  assert (Hno : forall t m,
            (t, Error m) ∉ (match findPartner mp st u with
                            | Some partner =>
                                match heap st !! partner with
                                | Some p => start_call sid (generateRoomId rnd now) now
                                              user u partner p st
                                | None => (st, [])
                                end
                            | None => start_waiting mp sid user st
                            end).2).
  { intros t m Hin. destruct (findPartner mp st u) as [partner|].
    - destruct (heap st !! partner) as [p|]; [|inversion Hin].
      unfold start_call in Hin. cbn [snd] in Hin.
      apply elem_of_cons in Hin as [Hin|Hin]; [discriminate|].
      apply list_elem_of_singleton in Hin. discriminate.
    - unfold start_waiting in Hin. cbn [snd] in Hin.
      apply list_elem_of_singleton in Hin. discriminate. }
  split; [split|].
  - intros (t & m & Hin). destruct (Hno t m Hin).
  - intros [_ [Hnone|(user' & u' & Heq & Hw')]]; [discriminate|]. simplify_eq. congruence.
  - intros t m Hin. destruct (Hno t m Hin).
Qed.

Lemma set_delete_absent x l : x ∉ l -> set_delete x l = l.
Proof.
  intros Hout. unfold set_delete. induction l as [|y l IH]; [reflexivity|].
  rewrite filter_cons. destruct (decide (y <> x)) as [_|Heq].
  - f_equal. apply IH. intros Hin. apply Hout. right. exact Hin.
  - destruct Hout. apply dec_stable in Heq. subst. left.
Qed.

(** X7. In every state the server can reach, when a live socket that
    holds no session disconnects, nothing is
    emitted and no room, user object or timer changes: only the socket's own
    entries leave the registry and the waiting set, the other waiting
    sockets keeping their order. *)
Theorem disconnect_without_session mp st sid :
  reachable mp st ->
  sid ∈ sockets st ->
  current_session st sid = None ->
  let r := step mp (Disconnect sid) st in
  r.2 = [] /\
  activeRooms r.1 = activeRooms st /\
  heap r.1 = heap st /\
  timers r.1 = timers st /\
  connectedUsers r.1 = delete sid (connectedUsers st) /\
  waitingUsers r.1 = set_delete sid (waitingUsers st) /\
  ((sid ∉ waitingUsers st) -> waitingUsers r.1 = waitingUsers st).
Proof.
  intros Hst Hlive Hs r.
  pose proof (reachable_registry_sound mp st Hst) as Hreg.
  destruct (reachable_queue_registered mp st Hst) as [_ Hq].
  assert (Hr : r = disconnect sid (socket_closed sid st)).
  { unfold r. cbn [step]. rewrite on_socket_live by exact Hlive. reflexivity. }
  rewrite Hr. unfold disconnect.
  change (get_user (socket_closed sid st) sid) with (get_user st sid).
  destruct (get_user st sid) as [[user u]|] eqn:Hget.
  - change (current_session
              (set_waitingUsers (set_delete sid (waitingUsers (socket_closed sid st)))
                 (socket_closed sid st)) sid)
      with (current_session st sid).
    rewrite Hs. cbn. repeat split; try reflexivity. apply set_delete_absent.
  - assert (Hc : connectedUsers st !! sid = None).
    { destruct (connectedUsers st !! sid) as [a|] eqn:Hc; [|reflexivity].
      destruct (registry_sound_get_user st sid a Hreg Hc) as (u & Hu & _). congruence. }
    assert (Hout : sid ∉ waitingUsers st).
    { intros Hin. destruct (Hq sid Hin) as [_ [a Ha]]. congruence. }
    cbn. rewrite (delete_id _ _ Hc), (set_delete_absent _ _ Hout).
    repeat split; reflexivity.
Qed.

Lemma disconnect_without_session_witness :
  let r := step matchingPreferences (Disconnect "sA") searchingA in
  r.2 = [] /\
  activeRooms r.1 = activeRooms searchingA /\
  heap r.1 = heap searchingA /\
  timers r.1 = timers searchingA /\
  connectedUsers r.1 = delete "sA" (connectedUsers searchingA) /\
  waitingUsers r.1 = set_delete "sA" (waitingUsers searchingA) /\
  (("sA" ∉ waitingUsers searchingA) -> waitingUsers r.1 = waitingUsers searchingA).
Proof.
  apply (disconnect_without_session matchingPreferences searchingA "sA").
  - apply searchingA_reachable.
  - apply (bool_decide_unpack _). vm_compute. exact I.
  - reflexivity.
Defined.

(** ** Rooms *)

Lemma rooms_sound_frame st st' :
  rooms_sound st ->
  heap_extends (heap st) (heap st') ->
  (forall rid room, activeRooms st' !! rid = Some room -> activeRooms st !! rid = Some room) ->
  rooms_sound st'.
Proof.
  intros Hst He Hr rid room Hroom.
  destruct (Hst rid room (Hr _ _ Hroom)) as (Hid & x & y & ux & uy & Hus & Hx & Hy & Hu & Hs).
  split; [exact Hid|].
  destruct (He x ux Hx) as (ux' & Hx' & Hsx).
  destruct (He y uy Hy) as (uy' & Hy' & Hsy).
  exists x, y, ux', uy'. repeat split; try assumption.
  - destruct Hsx as (_ & -> & _), Hsy as (_ & -> & _). exact Hu.
  - destruct Hsx as (-> & _), Hsy as (-> & _). exact Hs.
Qed.

Lemma start_call_rooms_sound mp sid rid now user u partner p st :
  registry_sound st -> rooms_sound st ->
  get_user st sid = Some (user, u) ->
  findPartner mp st u = Some partner ->
  heap st !! partner = Some p ->
  rooms_sound (start_call sid rid now user u partner p st).1.
Proof.
  intros Hreg Hr Hget Hfind Hp.
  destruct (findPartner_Some _ _ _ _ Hfind) as (w & p1 & Hw & Hcw & Hp1 & Hcompat).
  simplify_eq.
  destruct (Hreg w partner Hcw) as (_ & p1 & Hp1 & Hwid). simplify_eq.
  pose proof Hcompat as Hcompat'.
  apply areUsersCompatible_true in Hcompat' as (Huid & _).
  set (st' := (start_call sid rid now user u partner p st).1).
  assert (Hheap : heap st' = alter (bind_room rid (userId u)) partner
                               (alter (bind_room rid (userId p)) user (heap st))).
  { unfold st', start_call. case_match; reflexivity. }
  assert (Hrooms : activeRooms st' = <[rid := newRoom rid user partner now]> (activeRooms st)).
  { unfold st', start_call. case_match; reflexivity. }
  assert (He : heap_extends (heap st) (heap st')).
  { rewrite Hheap. eapply heap_extends_trans;
      apply heap_extends_alter; intros ?; apply same_identity_bind_room. }
  unfold get_user in Hget.
  destruct (connectedUsers st !! sid) as [a|] eqn:Hcu; [|discriminate].
  destruct (heap st !! a) as [u0|] eqn:Hu; [|discriminate]. simplify_eq.
  destruct (Hreg sid user Hcu) as (_ & u1 & Hu1 & Hsock). simplify_eq.
  intros rid' room Hroom. rewrite Hrooms in Hroom.
  destruct (decide (rid = rid')) as [<-|Hne].
  - rewrite lookup_insert_eq in Hroom. injection Hroom as <-.
    split; [reflexivity|].
    destruct (He user u Hu) as (u' & Hu' & Hsu).
    destruct (He partner p Hp) as (p' & Hp' & Hsp).
    exists user, partner, u', p'. repeat split; try assumption.
    + destruct Hsu as (_ & -> & _), Hsp as (_ & -> & _). exact Huid.
    + destruct Hsu as (-> & _), Hsp as (-> & _). intros Heq.
      rewrite <- Heq in Hcw. congruence.
  - rewrite lookup_insert_ne in Hroom by exact Hne.
    destruct (Hr rid' room Hroom) as (Hid & x & y & ux & uy & Hus & Hx & Hy & Hdu & Hds).
    split; [exact Hid|].
    destruct (He x ux Hx) as (ux' & Hx' & Hsx).
    destruct (He y uy Hy) as (uy' & Hy' & Hsy).
    exists x, y, ux', uy'. repeat split; try assumption.
    + destruct Hsx as (_ & -> & _), Hsy as (_ & -> & _). exact Hdu.
    + destruct Hsx as (-> & _), Hsy as (-> & _). exact Hds.
Qed.

Lemma step_rooms_sound mp ev st :
  registry_sound st -> rooms_sound st -> rooms_sound (step mp ev st).1.
Proof.
  intros Hreg Hr.
  assert (Hq : forall st', quiet st st' -> rooms_sound st').
  { intros st' Hq. apply (quiet_rooms_sound st st' Hq Hr). }
  destruct ev as [s|s uid userInfo now|s rnd now|s|s|s sdp type|s sdp type|s c|s|s|s|k|now];
    cbn [step]; unfold on_socket;
    try (destruct (decide (s ∈ sockets st)) as [Hlive|Hdead]; [|exact Hr]).
  - unfold connection. case_match; [exact Hr|].
    apply (rooms_sound_frame st); [exact Hr|apply heap_extends_refl|auto].
  - apply (rooms_sound_frame st); [exact Hr|apply register_user_heap_extends|auto].
  - destruct (find_random_partner_cases mp s rnd now st)
      as [(user & u & partner & p & Hget & Hfind & Hp & E)|Hquiet]; [|apply Hq, Hquiet].
    rewrite E. eapply start_call_rooms_sound; eassumption.
  - rewrite accept_call_state. exact Hr.
  - apply Hq, quiet_reject_call.
  - unfold offer. rewrite relay_state. exact Hr.
  - unfold answer. rewrite relay_state. exact Hr.
  - unfold ice_candidate. rewrite relay_state. exact Hr.
  - apply Hq, quiet_end_call.
  - apply (quiet_rooms_sound (socket_closed s st)); [apply quiet_disconnect|].
    apply (rooms_sound_frame st); [exact Hr|apply heap_extends_refl|auto].
  - exact Hr.
  - destruct (timers st !! k) as [t|]; [|exact Hr].
    apply Hq. eapply quiet_trans; [apply quiet_set_timers | apply quiet_search_timeout].
  - apply Hq, quiet_cleanup.
Qed.

(** X8. In every state the server can reach, a stored room is filed under
    its own id and has exactly two members, with different user ids and
    different sockets: nobody is ever in a room with themselves. *)
Theorem rooms_pair_distinct_users mp st rid room :
  reachable mp st ->
  activeRooms st !! rid = Some room ->
  roomId room = rid /\
  exists x y ux uy,
    users room = [x; y] /\ heap st !! x = Some ux /\ heap st !! y = Some uy /\
    userId ux <> userId uy /\ socketId ux <> socketId uy.
Proof.
  intros Hst. revert rid room.
  change (rooms_sound st).
  induction Hst as [|st ev Hst IH].
  - intros rid room. cbn. rewrite lookup_empty. discriminate.
  - apply step_rooms_sound; [|exact IH]. apply (reachable_registry_sound mp), Hst.
Qed.

Lemma rooms_pair_distinct_users_witness :
  roomId roomAB = generateRoomId "x9" 3 /\
  exists x y ux uy,
    users roomAB = [x; y] /\ heap inCall !! x = Some ux /\ heap inCall !! y = Some uy /\
    userId ux <> userId uy /\ socketId ux <> socketId uy.
Proof.
  apply (rooms_pair_distinct_users matchingPreferences inCall (generateRoomId "x9" 3) roomAB).
  - apply inCall_reachable.
  - reflexivity.
Defined.

Lemma disconnect_in_session sid st user u room partner p :
  current_session st sid = Some (user, u, room) ->
  getOtherUser (heap st) room (userId u) = Some partner ->
  heap st !! partner = Some p ->
  disconnect sid (socket_closed sid st) =
    (let st1 := clear_partner (socketId p)
                  (set_waitingUsers (set_delete sid (waitingUsers st)) (socket_closed sid st)) in
     set_connectedUsers (delete sid (connectedUsers st1))
       (set_activeRooms (delete (roomId room) (activeRooms st1)) st1),
     [(IoTo (socketId p), UserLeft (userId u))]).
Proof.
  intros Hs Hget Hp.
  destruct (current_session_Some _ _ _ _ _ Hs) as (Hc & Hu & _).
  unfold disconnect, get_user.
  cbn [connectedUsers heap socket_closed set_ioRooms set_sockets]. rewrite Hc, Hu.
  change (current_session
            (set_waitingUsers (set_delete sid (waitingUsers (socket_closed sid st)))
               (socket_closed sid st)) sid)
    with (current_session st sid).
  rewrite Hs. cbn [heap set_waitingUsers socket_closed set_ioRooms set_sockets].
  rewrite Hget, Hp. reflexivity.
Qed.

Lemma clear_partner_activeRooms psid st :
  activeRooms (clear_partner psid st) = activeRooms st.
Proof. unfold clear_partner. destruct (connectedUsers st !! psid); reflexivity. Qed.

Lemma clear_partner_ioRooms psid st : ioRooms (clear_partner psid st) = ioRooms st.
Proof. unfold clear_partner. destruct (connectedUsers st !! psid); reflexivity. Qed.

(** X9. When the environment keeps to [env_ok] and a socket with a call in
    progress disconnects, [user-left] with the leaver's user id is the only message, and it reaches nobody
    but the partner; the room is deleted, the leaver leaves the registry,
    the waiting set and the live sockets, and neither side holds a session
    afterwards. *)
Theorem disconnect_in_call mp st sid user u room :
  reachable_env mp st ->
  current_session st sid = Some (user, u, room) ->
  exists partner p,
    getOtherUser (heap st) room (userId u) = Some partner /\
    heap st !! partner = Some p /\
    (let r := step mp (Disconnect sid) st in
     r.2 = [(IoTo (socketId p), UserLeft (userId u))] /\
     (forall s, s <> socketId p -> inbox r.1 r.2 s = []) /\
     activeRooms r.1 = delete (roomId room) (activeRooms st) /\
     connectedUsers r.1 = delete sid (connectedUsers st) /\
     waitingUsers r.1 = set_delete sid (waitingUsers st) /\
     current_session r.1 sid = None /\
     current_session r.1 (socketId p) = None /\
     sid ∉ sockets r.1).
Proof.
  intros Hst Hs.
  pose proof (reachable_env_session_inv mp st Hst) as Hinv.
  destruct (session_partner st sid user u room Hinv Hs)
    as (Hlive & partner & p & Hget & Hp & Hne & Honly & _).
  exists partner, p. split; [exact Hget|]. split; [exact Hp|].
  assert (Hstep : step mp (Disconnect sid) st = disconnect sid (socket_closed sid st)).
  { cbn [step]. rewrite on_socket_live by exact Hlive. reflexivity. }
  assert (Hps : partner_socket (socket_closed sid st) sid = Some (socketId p)).
  { rewrite partner_socket_socket_closed. unfold partner_socket.
    rewrite Hs, Hget, Hp. reflexivity. }
  cbv zeta. rewrite Hstep.
  split; [|split; [|split; [|split; [|split; [|split; [|split]]]]]].
  - rewrite (disconnect_in_session sid st user u room partner p Hs Hget Hp). reflexivity.
  - intros s Hsne.
    rewrite (disconnect_in_session sid st user u room partner p Hs Hget Hp).
    cbn [fst snd]. rewrite inbox_cons_out; [apply inbox_nil|].
    intros Hin. apply Hsne, Honly.
    apply recipients_IoTo in Hin as (members & Hmem & Hin).
    cbn [ioRooms set_connectedUsers set_activeRooms] in Hmem.
    rewrite clear_partner_ioRooms in Hmem.
    cbn [ioRooms set_waitingUsers socket_closed set_ioRooms set_sockets] in Hmem.
    rewrite lookup_fmap in Hmem.
    destruct (ioRooms st !! socketId p) as [members0|] eqn:Hm0; [|discriminate].
    cbn in Hmem. simplify_eq. apply recipients_IoTo. exists members0.
    split; [exact Hm0|]. apply elem_of_difference in Hin as [Hin _]. exact Hin.
  - rewrite (disconnect_in_session sid st user u room partner p Hs Hget Hp).
    cbn [fst activeRooms set_connectedUsers set_activeRooms].
    rewrite clear_partner_activeRooms. reflexivity.
  - rewrite (disconnect_in_session sid st user u room partner p Hs Hget Hp).
    cbn [fst connectedUsers set_connectedUsers set_activeRooms].
    rewrite clear_partner_connectedUsers. reflexivity.
  - rewrite (disconnect_in_session sid st user u room partner p Hs Hget Hp).
    cbn [fst waitingUsers set_connectedUsers set_activeRooms].
    rewrite clear_partner_waitingUsers. reflexivity.
  - apply (disconnect_closes_both sid (socketId p) _ sid Hps). left. reflexivity.
  - apply (disconnect_closes_both sid (socketId p) _ (socketId p) Hps). right. reflexivity.
  - rewrite disconnect_sockets. cbn [sockets socket_closed set_ioRooms set_sockets].
    rewrite elem_of_difference, elem_of_singleton. tauto.
Qed.

Lemma disconnect_in_call_witness :
  exists partner p,
    getOtherUser (heap inCall) roomAB (userId userAinCall) = Some partner /\
    heap inCall !! partner = Some p /\
    (let r := step matchingPreferences (Disconnect "sA") inCall in
     r.2 = [(IoTo (socketId p), UserLeft (userId userAinCall))] /\
     (forall s, s <> socketId p -> inbox r.1 r.2 s = []) /\
     activeRooms r.1 = delete (roomId roomAB) (activeRooms inCall) /\
     connectedUsers r.1 = delete "sA" (connectedUsers inCall) /\
     waitingUsers r.1 = set_delete "sA" (waitingUsers inCall) /\
     current_session r.1 "sA" = None /\
     current_session r.1 (socketId p) = None /\
     "sA" ∉ sockets r.1).
Proof.
  apply (disconnect_in_call matchingPreferences inCall "sA" 0 userAinCall roomAB).
  - apply inCall_reachable_env.
  - reflexivity.
Defined.

(** ** The sweep of rooms *)

Lemma cleanup_room_fold_lookup st l (m : gmap string Room) rid :
  foldr (cleanup_room st) m l !! rid =
    if existsb (λ e, bool_decide (e.1 = rid) &&
                     bool_decide (length (activeUsers st e.2) = 0)) l
    then None else m !! rid.
Proof.
  induction l as [|[k r] l IH]; [reflexivity|].
  cbn [foldr existsb fst snd]. unfold cleanup_room at 1. cbn [fst snd].
  destruct (decide (length (activeUsers st r) = 0)) as [He|Hne].
  - rewrite (bool_decide_eq_true_2 _ He), andb_true_r.
    destruct (decide (k = rid)) as [->|Hk].
    + rewrite bool_decide_eq_true_2 by reflexivity. apply lookup_delete_eq.
    + rewrite (bool_decide_eq_false_2 _ Hk). cbn [orb].
      rewrite lookup_delete_ne by exact Hk. exact IH.
  - rewrite (bool_decide_eq_false_2 _ Hne), andb_false_r. exact IH.
Qed.

Lemma existsb_map_to_list_rooms (m : gmap string Room) (f : Room -> bool) rid :
  existsb (λ e, bool_decide (e.1 = rid) && f e.2) (map_to_list m) =
    match m !! rid with Some room => f room | None => false end.
Proof.
  destruct (existsb _ _) eqn:E.
  - apply existsb_exists in E as ([k a] & Hin & Hp). simpl in Hp.
    apply andb_true_iff in Hp as [Hk Ha]. apply bool_decide_eq_true in Hk. subst k.
    apply list_elem_of_In, elem_of_map_to_list in Hin. rewrite Hin. auto.
  - destruct (m !! rid) as [a|] eqn:Hc; [|reflexivity].
    destruct (f a) eqn:Ha; [|reflexivity].
    rewrite <- E. apply (proj2 (existsb_exists _ _)). exists (rid, a). split.
    + apply list_elem_of_In, elem_of_map_to_list. exact Hc.
    + simpl. rewrite bool_decide_eq_true_2 by reflexivity. exact Ha.
Qed.

Lemma activeUsers_nonempty st room :
  length (activeUsers st room) <> 0 <->
  exists a u, a ∈ users room /\ heap st !! a = Some u /\
              is_Some (connectedUsers st !! socketId u).
Proof.
  unfold activeUsers. split.
  - destruct (filter _ (users room)) as [|a l] eqn:Hf; [intros H; contradiction|].
    intros _. assert (Ha : a ∈ filter (λ user, has_connection st user = true) (users room))
      by (rewrite Hf; left).
    apply list_elem_of_filter in Ha as [Hc Hin]. unfold has_connection in Hc.
    destruct (heap st !! a) as [u|] eqn:Hu; [|discriminate].
    apply bool_decide_eq_true in Hc. eauto.
  - intros (a & u & Hin & Hu & Hc) Hlen.
    assert (Ha : a ∈ filter (λ user, has_connection st user = true) (users room)).
    { apply list_elem_of_filter. split; [|exact Hin]. unfold has_connection.
      rewrite Hu. apply bool_decide_eq_true_2, Hc. }
    apply length_zero_iff_nil in Hlen. rewrite Hlen in Ha. inversion Ha.
Qed.

Lemma cleanupEmptyRooms_lookup st rid room :
  activeRooms (cleanupEmptyRooms st) !! rid = Some room <->
  activeRooms st !! rid = Some room /\
  exists a u, a ∈ users room /\ heap st !! a = Some u /\
              is_Some (connectedUsers st !! socketId u).
Proof.
  unfold cleanupEmptyRooms. cbn [activeRooms set_activeRooms].
  rewrite cleanup_room_fold_lookup.
  pose proof (existsb_map_to_list_rooms (activeRooms st)
                (λ r, bool_decide (length (activeUsers st r) = 0)) rid) as Hex.
  cbv beta in Hex. rewrite Hex. clear Hex.
  destruct (activeRooms st !! rid) as [room0|] eqn:Hr.
  - destruct (decide (length (activeUsers st room0) = 0)) as [He|Hne].
    + rewrite (bool_decide_eq_true_2 _ He). split; [discriminate|].
      intros [[= <-] Hex]. apply activeUsers_nonempty in Hex. contradiction.
    + rewrite (bool_decide_eq_false_2 _ Hne). split.
      * intros [= <-]. split; [reflexivity|]. apply activeUsers_nonempty, Hne.
      * intros [Heq _]. exact Heq.
  - split; [discriminate|]. intros [Heq _]. discriminate.
Qed.

(** X10. [cleanupEmptyRooms] keeps a room exactly when the socket id of at
    least one of its members is still a key of the registry, and touches
    nothing but the rooms. *)
Theorem cleanupEmptyRooms_keeps_connected st :
  (forall rid room,
     activeRooms (cleanupEmptyRooms st) !! rid = Some room <->
     activeRooms st !! rid = Some room /\
     exists a u, a ∈ users room /\ heap st !! a = Some u /\
                 is_Some (connectedUsers st !! socketId u)) /\
  connectedUsers (cleanupEmptyRooms st) = connectedUsers st /\
  waitingUsers (cleanupEmptyRooms st) = waitingUsers st /\
  heap (cleanupEmptyRooms st) = heap st /\
  timers (cleanupEmptyRooms st) = timers st.
Proof.
  split; [intros rid room; apply cleanupEmptyRooms_lookup|].
  split; [reflexivity|]. split; [reflexivity|]. split; reflexivity.
Qed.

(** ** The sweep keeps the order of the queue *)

Lemma cleanup_fold_waiting_filter h now l c w :
  (foldr (cleanup_user h now) (c, w) l).2 =
    filter (λ x, existsb (λ e, bool_decide (e.1 = x) && inactive h now e.2) l = false) w.
Proof.
  induction l as [|e l IH].
  - cbn [foldr snd existsb]. induction w as [|x w IHw]; [reflexivity|].
    rewrite filter_cons. destruct (decide _) as [_|Hn]; [|destruct Hn; reflexivity].
    rewrite <- IHw. reflexivity.
  - cbn [foldr existsb]. unfold cleanup_user at 1.
    destruct (inactive h now e.2) eqn:Hi.
    + cbn [snd]. rewrite IH. unfold set_delete. rewrite list_filter_filter.
      apply list_filter_iff. intros x. rewrite andb_true_r. split.
      * intros [Hne Hex]. rewrite Hex, orb_false_r.
        apply bool_decide_eq_false_2. congruence.
      * intros Hor. apply orb_false_iff in Hor as [Hk Hex]. split; [|exact Hex].
        apply bool_decide_eq_false in Hk. congruence.
    + rewrite IH. apply list_filter_iff. intros x. rewrite andb_false_r. reflexivity.
Qed.

Lemma cleanup_waiting_filter now st :
  waitingUsers (cleanup now st) =
    filter (λ s, swept st now s = false) (waitingUsers st).
Proof.
  unfold cleanup, cleanupEmptyRooms, cleanupInactiveUsers.
  cbn [waitingUsers set_activeRooms set_waitingUsers set_connectedUsers].
  rewrite cleanup_fold_waiting_filter. apply list_filter_iff. intros x.
  pose proof (existsb_map_to_list (connectedUsers st) (inactive (heap st) now) x) as Hex.
  cbv beta in Hex. cbn [heap set_connectedUsers]. rewrite Hex. unfold swept. reflexivity.
Qed.

(** X11. When the environment keeps to [env_ok], [end-call] and
    [reject-call] from a socket in a session delete that room and no other, leave the registry and the waiting set as they
    are, and clear the room and partner of the sender's user object and of
    the object registered on the partner's socket; no other user object
    changes. *)
Theorem closing_call_clears_both mp st sid user u room ev :
  reachable_env mp st ->
  current_session st sid = Some (user, u, room) ->
  ev = EndCall sid \/ ev = RejectCall sid ->
  exists partner p,
    getOtherUser (heap st) room (userId u) = Some partner /\
    heap st !! partner = Some p /\
    (let st' := (step mp ev st).1 in
     activeRooms st' = delete (roomId room) (activeRooms st) /\
     connectedUsers st' = connectedUsers st /\
     waitingUsers st' = waitingUsers st /\
     get_user st' sid = Some (user, clear_room u) /\
     (forall pa pu, get_user st (socketId p) = Some (pa, pu) ->
        get_user st' (socketId p) = Some (pa, clear_room pu)) /\
     (forall a, a <> user -> connectedUsers st !! socketId p <> Some a ->
        heap st' !! a = heap st !! a)).
Proof.
  intros Hst Hs Hev.
  pose proof (reachable_env_session_inv mp st Hst) as Hinv.
  destruct (session_partner st sid user u room Hinv Hs)
    as (Hlive & partner & p & Hget & Hp & Hne & _).
  destruct (current_session_Some _ _ _ _ _ Hs) as (Hc & Hu & _).
  exists partner, p. split; [exact Hget|]. split; [exact Hp|].
  assert (Hstep : (step mp ev st).1 = close_room room user (Some (socketId p)) st).
  { destruct Hev as [-> | ->]; cbn [step]; rewrite on_socket_live by exact Hlive.
    - unfold end_call. rewrite Hs, Hget, Hp. reflexivity.
    - unfold reject_call. rewrite Hs, Hget, Hp. reflexivity. }
  cbv zeta. rewrite Hstep.
  assert (Hheap : heap (close_room room user (Some (socketId p)) st) =
            match connectedUsers st !! socketId p with
            | Some pa => alter clear_room pa (alter clear_room user (heap st))
            | None => alter clear_room user (heap st)
            end).
  { unfold close_room, clear_partner. cbn [connectedUsers set_heap set_activeRooms].
    destruct (connectedUsers st !! socketId p); reflexivity. }
  split; [|split; [|split; [|split; [|split]]]].
  - unfold close_room. rewrite clear_partner_activeRooms. reflexivity.
  - apply close_room_connectedUsers.
  - apply close_room_waitingUsers.
  - unfold get_user. rewrite close_room_connectedUsers, Hc, Hheap.
    destruct (connectedUsers st !! socketId p) as [pa|] eqn:Hpa.
    + rewrite list_lookup_alter_ne.
      * rewrite list_lookup_alter_eq, Hu. reflexivity.
      * apply (registry_sound_distinct st (socketId p) sid pa user); [apply Hinv|assumption..].
    + rewrite list_lookup_alter_eq, Hu. reflexivity.
  - intros pa pu Hgp. unfold get_user in Hgp |- *.
    rewrite close_room_connectedUsers, Hheap.
    destruct (connectedUsers st !! socketId p) as [pa'|] eqn:Hpa; [|discriminate].
    destruct (heap st !! pa') as [pu'|] eqn:Hpu; [|discriminate]. simplify_eq.
    rewrite list_lookup_alter_eq, list_lookup_alter_ne.
    + rewrite Hpu. reflexivity.
    + apply (registry_sound_distinct st sid (socketId p) user pa); [apply Hinv|auto..].
  - intros a Ha Hpa. rewrite Hheap.
    destruct (connectedUsers st !! socketId p) as [pa|].
    + rewrite !list_lookup_alter_ne by congruence. reflexivity.
    + rewrite list_lookup_alter_ne by congruence. reflexivity.
Qed.

Lemma closing_call_clears_both_witness :
  exists partner p,
    getOtherUser (heap inCall) roomAB (userId userAinCall) = Some partner /\
    heap inCall !! partner = Some p /\
    (let st' := (step matchingPreferences (EndCall "sA") inCall).1 in
     activeRooms st' = delete (roomId roomAB) (activeRooms inCall) /\
     connectedUsers st' = connectedUsers inCall /\
     waitingUsers st' = waitingUsers inCall /\
     get_user st' "sA" = Some (0, clear_room userAinCall) /\
     (forall pa pu, get_user inCall (socketId p) = Some (pa, pu) ->
        get_user st' (socketId p) = Some (pa, clear_room pu)) /\
     (forall a, a <> 0 -> connectedUsers inCall !! socketId p <> Some a ->
        heap st' !! a = heap inCall !! a)).
Proof.
  apply (closing_call_clears_both matchingPreferences inCall "sA" 0 userAinCall roomAB
           (EndCall "sA")).
  - apply inCall_reachable_env.
  - reflexivity.
  - left. reflexivity.
Defined.

(** X12. When the environment keeps to [env_ok], the periodic sweep never
    ends a call: a socket that holds a session holds the same session, with the same user object and room,
    after the sweep, however old the registration. *)
Theorem sweep_spares_sessions mp st now sid user u room :
  reachable_env mp st ->
  current_session st sid = Some (user, u, room) ->
  current_session (step mp (CleanupTick now) st).1 sid = Some (user, u, room).
Proof.
  intros Hst Hs.
  destruct (reachable_env_session_inv mp st Hst) as (Hreg & Hr & Hm & _).
  destruct (current_session_Some _ _ _ _ _ Hs) as (Hc & Hu & Ht & Hroom).
  destruct (truthy_Some _ Ht) as (rid & Hcur & Hrid). rewrite Hrid in Hroom.
  destruct (Hreg sid user Hc) as (_ & u1 & Hu1 & Hsid).
  assert (u1 = u) by congruence. subst u1.
  cbn [step fst].
  assert (Hsw : swept st now sid = false).
  { unfold swept, inactive. rewrite Hc, Hu, Ht. apply andb_false_r. }
  assert (Hc' : connectedUsers (cleanupInactiveUsers now st) !! sid = Some user).
  { rewrite cleanupInactiveUsers_connected, Hsw. exact Hc. }
  unfold current_session, get_user.
  rewrite cleanup_connected, Hsw, Hc, cleanup_heap, Hu, Ht, Hrid.
  unfold cleanup.
  rewrite (proj2 (cleanupEmptyRooms_lookup _ rid room)); [reflexivity|].
  split; [exact Hroom|]. exists user, u. split; [|split].
  - apply (Hm user u rid room Hu Hcur Hroom).
  - exact Hu.
  - rewrite Hsid, Hc'. eauto.
Qed.

Lemma sweep_spares_sessions_witness :
  current_session (step matchingPreferences (CleanupTick 1000000000) inCall).1 "sA"
    = Some (0, userAinCall, roomAB).
Proof.
  apply (sweep_spares_sessions matchingPreferences inCall 1000000000 "sA" 0 userAinCall roomAB).
  - apply inCall_reachable_env.
  - reflexivity.
Defined.

(** X13. The sweep keeps the waiting sockets it does not remove in their
    order, changes no user object, and never removes a registered user who
    is in a room or whose registration is at most five minutes old; such a
    user also keeps its place in the waiting set. *)
Theorem sweep_keeps_recent_and_busy mp st now :
  let st' := (step mp (CleanupTick now) st).1 in
  waitingUsers st' = filter (λ s, swept st now s = false) (waitingUsers st) /\
  heap st' = heap st /\
  (forall sid user u,
     get_user st sid = Some (user, u) ->
     truthy (currentRoom u) = true \/ (now - joinedAt u <= maxInactiveTime)%Z ->
     get_user st' sid = Some (user, u) /\
     (sid ∈ waitingUsers st -> sid ∈ waitingUsers st')).
Proof.
  cbn [step fst]. split; [apply cleanup_waiting_filter|].
  split; [apply cleanup_heap|].
  intros sid user u Hget Hkeep.
  assert (Hsw : swept st now sid = false).
  { unfold get_user in Hget. unfold swept, inactive.
    destruct (connectedUsers st !! sid) as [a|]; [|reflexivity].
    destruct (heap st !! a) as [u0|]; [|reflexivity]. simplify_eq.
    destruct Hkeep as [-> | Hage]; [apply andb_false_r|].
    apply andb_false_iff. left. apply Z.ltb_ge. exact Hage. }
  split.
  - unfold get_user. rewrite cleanup_connected, Hsw, cleanup_heap. exact Hget.
  - intros Hin. apply cleanup_waiting. auto.
Qed.

(** ** Identity of registered users *)

Lemma run_heap_extends mp evs st : heap_extends (heap st) (heap (run mp evs st)).
Proof.
  revert st. induction evs as [|ev evs IH]; intros st; [apply heap_extends_refl|].
  cbn [run]. eapply heap_extends_trans; [apply step_heap_extends | apply IH].
Qed.

(** X14. No event changes what the constructor wrote in a user object
    (socket id, user id, university, gender, year, registration time), and
    no user object is ever dropped.  So as long as no registration is made
    on a socket, whatever else happens, the socket either leaves the
    registry or stays registered to the same object with the same profile. *)
Theorem registered_profile_immutable mp evs st sid user u :
  get_user st sid = Some (user, u) ->
  (forall uid userInfo now, RegisterUser sid uid userInfo now ∉ evs) ->
  (forall a u0, heap st !! a = Some u0 ->
     exists u', heap (run mp evs st) !! a = Some u' /\ same_identity u0 u') /\
  (connectedUsers (run mp evs st) !! sid = None \/
   exists u', get_user (run mp evs st) sid = Some (user, u') /\ same_identity u u').
Proof.
  intros Hget Hevs. split; [apply run_heap_extends|].
  unfold get_user in Hget.
  destruct (connectedUsers st !! sid) as [a|] eqn:Hc; [|discriminate].
  destruct (heap st !! a) as [u0|] eqn:Hu; [|discriminate]. simplify_eq.
  assert (Hreg : connectedUsers (run mp evs st) !! sid = None \/
                 connectedUsers (run mp evs st) !! sid = Some user).
  { clear Hu. revert st Hc Hevs. induction evs as [|ev evs IH]; intros st Hc Hevs; [auto|].
    cbn [run].
    assert (Hev : forall uid userInfo now, ev <> RegisterUser sid uid userInfo now).
    { intros uid userInfo now ->. apply (Hevs uid userInfo now). left. }
    assert (Hrest : forall uid userInfo now, RegisterUser sid uid userInfo now ∉ evs).
    { intros uid userInfo now Hin. apply (Hevs uid userInfo now). right. exact Hin. }
    destruct (step_connectedUsers mp ev st sid Hev) as [Hsame|Hgone].
    - apply IH; [congruence | exact Hrest].
    - left. clear IH Hc Hevs Hev. revert Hgone Hrest. generalize (step mp ev st).1.
      induction evs as [|ev' evs IH]; intros st' Hgone Hrest; [exact Hgone|].
      cbn [run]. apply IH.
      + destruct (step_connectedUsers mp ev' st' sid) as [Hsame|Hnone]; [|congruence|exact Hnone].
        intros uid userInfo now ->. apply (Hrest uid userInfo now). left.
      + intros uid userInfo now Hin. apply (Hrest uid userInfo now). right. exact Hin. }
  destruct Hreg as [Hnone|Hsome]; [left; exact Hnone|right].
  destruct (run_heap_extends mp evs st user u Hu) as (u' & Hu' & Hid).
  exists u'. split; [|exact Hid]. unfold get_user. rewrite Hsome, Hu'. reflexivity.
Qed.

Lemma registered_profile_immutable_witness :
  (forall a u0, heap registeredA !! a = Some u0 ->
     exists u', heap searchingA !! a = Some u' /\ same_identity u0 u') /\
  (connectedUsers searchingA !! "sA" = None \/
   exists u', get_user searchingA "sA" = Some (0, u') /\
              same_identity (newUser "sA" "A" noInfo 0) u').
Proof.
  apply (registered_profile_immutable matchingPreferences
           [FindRandomPartner "sA" "k3j" 2] registeredA "sA" 0 (newUser "sA" "A" noInfo 0)).
  - reflexivity.
  - intros uid userInfo now Hin. apply list_elem_of_singleton in Hin. discriminate.
Defined.

(** * Properties of the REST endpoints *)

(** ** JS maps *)

Section JsMapFacts.

Context {V : Type}.
Implicit Types (m : list (string * V)) (k : string) (v : V).

Lemma Map_has_true k m : Map_has k m = true <-> k ∈ m.*1.
Proof. unfold Map_has. apply bool_decide_eq_true. Qed.

Lemma Map_has_false k m : Map_has k m = false <-> k ∉ m.*1.
Proof. unfold Map_has. apply bool_decide_eq_false. Qed.

Lemma Map_get_None k m : Map_get k m = None <-> k ∉ m.*1.
Proof.
  induction m as [|[k' v'] m IH]; cbn [Map_get fmap list_fmap fst].
  - split; [intros _ H; inversion H | reflexivity].
  - rewrite not_elem_of_cons. destruct (decide (k' = k)) as [->|Hne].
    + split; [discriminate | intros [H _]; contradiction].
    + rewrite IH. split; [intros H; split; [congruence | exact H] | intros [_ H]; exact H].
Qed.

Lemma Map_get_Some_elem k v m : Map_get k m = Some v -> (k, v) ∈ m.
Proof.
  induction m as [|[k' v'] m IH]; cbn [Map_get]; [discriminate|].
  destruct (decide (k' = k)) as [->|Hne].
  - intros [= ->]. left.
  - intros H. right. apply IH, H.
Qed.

Lemma Map_get_elem k v m : NoDup m.*1 -> (k, v) ∈ m -> Map_get k m = Some v.
Proof.
  induction m as [|[k' v'] m IH]; cbn [Map_get fmap list_fmap fst]; intros Hnd Hin.
  - inversion Hin.
  - apply NoDup_cons in Hnd as [Hk' Hnd].
    apply elem_of_cons in Hin as [[= <- <-]|Hin].
    + rewrite decide_True by reflexivity. reflexivity.
    + destruct (decide (k' = k)) as [->|Hne]; [|apply IH; assumption].
      destruct Hk'. apply list_elem_of_fmap. exists (k, v). auto.
Qed.

Lemma Map_has_get k m : Map_has k m = true <-> is_Some (Map_get k m).
Proof.
  rewrite Map_has_true. destruct (Map_get k m) as [v|] eqn:Hg.
  - split; [eauto|]. intros _. apply Map_get_Some_elem in Hg.
    apply list_elem_of_fmap. exists (k, v). auto.
  - apply Map_get_None in Hg. split; [contradiction | intros [? [=]]].
Qed.

Lemma Map_set_absent k v m : k ∉ m.*1 -> Map_set k v m = (m ++ [(k, v)])%list.
Proof.
  induction m as [|[k' v'] m IH]; cbn [Map_set fmap list_fmap fst]; [reflexivity|].
  rewrite not_elem_of_cons. intros [Hne Hout].
  rewrite decide_False by congruence. rewrite IH by exact Hout. reflexivity.
Qed.

Lemma Map_set_keys k v m : k ∈ m.*1 -> (Map_set k v m).*1 = m.*1.
Proof.
  induction m as [|[k' v'] m IH]; cbn [Map_set fmap list_fmap fst]; [intros H; inversion H|].
  intros Hin. destruct (decide (k' = k)) as [->|Hne]; [reflexivity|].
  cbn [fmap list_fmap fst]. f_equal. apply IH.
  apply elem_of_cons in Hin as [Heq|Hin]; [congruence | exact Hin].
Qed.

Lemma Map_set_length k v m : k ∈ m.*1 -> length (Map_set k v m) = length m.
Proof.
  intros Hin. rewrite <- (length_fmap fst (Map_set k v m)), Map_set_keys by exact Hin.
  apply length_fmap.
Qed.

Lemma Map_get_set_eq k v m : Map_get k (Map_set k v m) = Some v.
Proof.
  induction m as [|[k' v'] m IH]; cbn [Map_set Map_get].
  - rewrite decide_True by reflexivity. reflexivity.
  - destruct (decide (k' = k)) as [->|Hne]; cbn [Map_get].
    + rewrite decide_True by reflexivity. reflexivity.
    + rewrite decide_False by exact Hne. exact IH.
Qed.

Lemma Map_get_set_ne k k' v m : k <> k' -> Map_get k' (Map_set k v m) = Map_get k' m.
Proof.
  intros Hne. induction m as [|[k0 v0] m IH]; cbn [Map_set Map_get].
  - rewrite decide_False by exact Hne. reflexivity.
  - destruct (decide (k0 = k)) as [->|Hne0]; cbn [Map_get].
    + rewrite !decide_False by exact Hne. reflexivity.
    + destruct (decide (k0 = k')); [reflexivity | exact IH].
Qed.

Lemma Map_set_same k v m : Map_get k m = Some v -> Map_set k v m = m.
Proof.
  induction m as [|[k' v'] m IH]; cbn [Map_set Map_get]; [discriminate|].
  destruct (decide (k' = k)) as [->|Hne].
  - intros [= ->]. reflexivity.
  - intros H. rewrite IH by exact H. reflexivity.
Qed.

Lemma Map_delete_absent k m : k ∉ m.*1 -> Map_delete k m = m.
Proof.
  unfold Map_delete. induction m as [|[k' v'] m IH]; [reflexivity|].
  cbn [fmap list_fmap fst]. rewrite not_elem_of_cons. intros [Hne Hout].
  rewrite filter_cons. cbn [fst]. rewrite decide_True by congruence.
  rewrite IH by exact Hout. reflexivity.
Qed.

Lemma Map_delete_set_absent k v m : k ∉ m.*1 -> Map_delete k (Map_set k v m) = m.
Proof.
  intros Hout. rewrite Map_set_absent by exact Hout. unfold Map_delete.
  rewrite filter_app. fold (Map_delete k m). rewrite Map_delete_absent by exact Hout.
  rewrite filter_cons. cbn [fst]. rewrite decide_False by (intros H; apply H; reflexivity).
  rewrite filter_nil. apply app_nil_r.
Qed.

Lemma Map_delete_elem k k' v m : (k', v) ∈ Map_delete k m <-> k' <> k /\ (k', v) ∈ m.
Proof. unfold Map_delete. rewrite list_elem_of_filter. reflexivity. Qed.

Lemma Map_delete_length k m :
  NoDup m.*1 -> k ∈ m.*1 -> S (length (Map_delete k m)) = length m.
Proof.
  unfold Map_delete. induction m as [|[k' v'] m IH]; cbn [fmap list_fmap fst].
  - intros _ H. inversion H.
  - intros Hnd Hin. apply NoDup_cons in Hnd as [Hk' Hnd].
    rewrite filter_cons. cbn [fst]. destruct (decide (k' <> k)) as [Hne|Heq].
    + cbn [length]. f_equal. apply IH; [exact Hnd|].
      apply elem_of_cons in Hin as [Heq|Hin]; [congruence | exact Hin].
    + apply dec_stable in Heq. subst k'. cbn [length]. f_equal.
      fold (Map_delete k m). rewrite Map_delete_absent by exact Hk'. reflexivity.
Qed.

Lemma Map_set_NoDup k v m : NoDup m.*1 -> NoDup (Map_set k v m).*1.
Proof.
  intros Hnd. destruct (decide (k ∈ m.*1)) as [Hin|Hout].
  - rewrite Map_set_keys by exact Hin. exact Hnd.
  - rewrite Map_set_absent by exact Hout. rewrite fmap_app.
    apply NoDup_app. split; [exact Hnd|]. split; [|apply NoDup_singleton].
    intros x Hx Hx'. apply list_elem_of_singleton in Hx'. cbn in Hx'. congruence.
Qed.

Lemma Map_delete_NoDup k m : NoDup m.*1 -> NoDup (Map_delete k m).*1.
Proof.
  unfold Map_delete. induction m as [|[k' v'] m IH]; [auto|].
  cbn [fmap list_fmap fst]. intros Hnd. apply NoDup_cons in Hnd as [Hk' Hnd].
  rewrite filter_cons. destruct (decide _); [|apply IH, Hnd].
  cbn [fmap list_fmap fst]. apply NoDup_cons. split; [|apply IH, Hnd].
  intros Hin. apply Hk'. apply list_elem_of_fmap in Hin as ([k0 v0] & -> & Hin).
  apply list_elem_of_filter in Hin as [_ Hin].
  apply list_elem_of_fmap. exists (k0, v0). auto.
Qed.

End JsMapFacts.

(** ** Follow and unfollow *)

Lemma truthy_nonempty (s : string) : s <> "" -> truthy (Some s) = true.
Proof. intros Hs. cbn [truthy]. destruct (String.eqb_spec s ""); [contradiction | reflexivity]. Qed.

Lemma set_followRelationships_same db :
  set_followRelationships (followRelationships db) db = db.
Proof. destruct db; reflexivity. Qed.

(** X15. Follow and unfollow are inverse: when [a] does not follow [b]
    yet, the follow request succeeds and the discover endpoints then flag
    [b] as followed by [a]; a second follow request is refused with 400 and
    changes nothing; the unfollow request succeeds and gives back the store
    as it was before; and on that store an unfollow request is refused with
    400. *)
Theorem follow_unfollow_round_trip (a b : string) now now' db :
  a <> "" -> b <> "" ->
  Map_has (followKey a b) (followRelationships db) = false ->
  let r := follow (Some a) (Some b) now db in
  r.2 = Json (FollowDone "Successfully followed user" true) /\
  isFollowing_flag (Some a) b r.1 = true /\
  follow (Some a) (Some b) now' r.1 = (r.1, HttpError 400 "Already following this user") /\
  unfollow (Some a) (Some b) r.1 = (db, Json (FollowDone "Successfully unfollowed user" false)) /\
  unfollow (Some a) (Some b) db = (db, HttpError 400 "Not following this user").
Proof.
  intros Ha Hb Hnot r.
  pose proof (proj1 (Map_has_false _ _) Hnot) as Hout.
  assert (Hr : r = (set_followRelationships
                      (Map_set (followKey a b)
                         {| followerId := a; followingId := b; follow_createdAt := now |}
                         (followRelationships db)) db,
                    Json (FollowDone "Successfully followed user" true))).
  { unfold r, follow. rewrite !truthy_nonempty by assumption.
    cbn [negb orb or_empty]. rewrite Hnot. reflexivity. }
  assert (Hhas : Map_has (followKey a b) (followRelationships r.1) = true).
  { rewrite Hr. cbn [fst followRelationships set_followRelationships].
    apply Map_has_get. rewrite Map_get_set_eq. eauto. }
  split; [rewrite Hr; reflexivity|]. split; [exact Hhas|]. split; [|split].
  - unfold follow. rewrite !truthy_nonempty by assumption.
    cbn [negb orb or_empty]. rewrite Hhas. reflexivity.
  - unfold unfollow. rewrite !truthy_nonempty by assumption.
    cbn [negb orb or_empty]. rewrite Hhas. cbn [negb]. rewrite Hr.
    cbn [fst followRelationships set_followRelationships].
    rewrite Map_delete_set_absent by exact Hout. destruct db; reflexivity.
  - unfold unfollow. rewrite !truthy_nonempty by assumption.
    cbn [negb orb or_empty]. rewrite Hnot. reflexivity.
Qed.

Lemma follow_unfollow_round_trip_witness :
  let r := follow (Some "alice") (Some "bob") 1000 empty_db in
  r.2 = Json (FollowDone "Successfully followed user" true) /\
  isFollowing_flag (Some "alice") "bob" r.1 = true /\
  follow (Some "alice") (Some "bob") 2000 r.1
    = (r.1, HttpError 400 "Already following this user") /\
  unfollow (Some "alice") (Some "bob") r.1
    = (empty_db, Json (FollowDone "Successfully unfollowed user" false)) /\
  unfollow (Some "alice") (Some "bob") empty_db
    = (empty_db, HttpError 400 "Not following this user").
Proof.
  apply (follow_unfollow_round_trip "alice" "bob" 1000 2000 empty_db).
  - discriminate.
  - discriminate.
  - reflexivity.
Defined.

Lemma append_assoc (a b c : string) : (a +:+ b) +:+ c = a +:+ (b +:+ c).
Proof.
  induction a as [|x a IH]; [reflexivity|].
  change (String x ((a +:+ b) +:+ c) = String x (a +:+ (b +:+ c))).
  f_equal. exact IH.
Qed.

Lemma append_self (a s : string) : a +:+ s = a -> s = "".
Proof.
  induction a as [|x a IH]; [auto|].
  change (String x (a +:+ s) = String x a -> s = ""). intros [= H]. apply IH, H.
Qed.

Lemma followKey_shift (a b c : string) :
  followKey (a +:+ "_" +:+ b) c = followKey a (b +:+ "_" +:+ c).
Proof. unfold followKey. rewrite !append_assoc. reflexivity. Qed.

Lemma append_nonempty_r (a b : string) : b <> "" -> a +:+ b <> "".
Proof. intros Hb. destruct a; [exact Hb | discriminate]. Qed.

(** X16. The follow key does not keep the two ids apart.  Once the user
    with id [a_b] follows [c], the key being free before, the user [a] is
    flagged as following [b_c] and cannot follow [b_c] (400, already
    following) although [b_c] is not among the users whose statuses [a] is
    shown; and the request of [a] to unfollow [b_c] succeeds and removes the
    relationship of [a_b]. *)
Theorem follow_key_collision (a b c : string) now now' db :
  a <> "" -> c <> "" ->
  Map_has (followKey a (b +:+ "_" +:+ c)) (followRelationships db) = false ->
  let db1 := (follow (Some (a +:+ "_" +:+ b)) (Some c) now db).1 in
  isFollowing_flag (Some a) (b +:+ "_" +:+ c) db1 = true /\
  follow (Some a) (Some (b +:+ "_" +:+ c)) now' db1
    = (db1, HttpError 400 "Already following this user") /\
  followingUsers a db1 = followingUsers a db /\
  unfollow (Some a) (Some (b +:+ "_" +:+ c)) db1
    = (db, Json (FollowDone "Successfully unfollowed user" false)).
Proof.
  intros Ha Hc Hnot db1.
  assert (Hab : a +:+ "_" +:+ b <> "") by (apply append_nonempty_r; discriminate).
  assert (Hbc : b +:+ "_" +:+ c <> "") by (apply append_nonempty_r; discriminate).
  rewrite <- followKey_shift in Hnot.
  pose proof (proj1 (Map_has_false _ _) Hnot) as Hout.
  assert (Hdb1 : db1 = set_followRelationships
                   (Map_set (followKey (a +:+ "_" +:+ b) c)
                      {| followerId := a +:+ "_" +:+ b; followingId := c;
                         follow_createdAt := now |}
                      (followRelationships db)) db).
  { unfold db1, follow. rewrite !truthy_nonempty by assumption.
    cbn [negb orb or_empty]. rewrite Hnot. reflexivity. }
  assert (Hhas : Map_has (followKey a (b +:+ "_" +:+ c)) (followRelationships db1) = true).
  { rewrite <- followKey_shift, Hdb1. cbn [followRelationships set_followRelationships].
    apply Map_has_get. rewrite Map_get_set_eq. eauto. }
  split; [exact Hhas|]. split; [|split].
  - unfold follow. rewrite !truthy_nonempty by assumption.
    cbn [negb orb or_empty]. rewrite Hhas. reflexivity.
  - unfold followingUsers. rewrite Hdb1.
    cbn [followRelationships set_followRelationships].
    rewrite Map_set_absent by exact Hout. rewrite filter_app, filter_cons.
    cbn [snd followerId].
    rewrite decide_False by (intros Heq; apply append_self in Heq; discriminate).
    rewrite filter_nil, app_nil_r. reflexivity.
  - unfold unfollow. rewrite !truthy_nonempty by assumption.
    cbn [negb orb or_empty]. rewrite Hhas. cbn [negb].
    rewrite <- followKey_shift, Hdb1. cbn [followRelationships set_followRelationships].
    rewrite Map_delete_set_absent by exact Hout. destruct db; reflexivity.
Qed.

Lemma follow_key_collision_witness :
  let db1 := (follow (Some ("a" +:+ "_" +:+ "b")) (Some "c") 1000 empty_db).1 in
  isFollowing_flag (Some "a") ("b" +:+ "_" +:+ "c") db1 = true /\
  follow (Some "a") (Some ("b" +:+ "_" +:+ "c")) 2000 db1
    = (db1, HttpError 400 "Already following this user") /\
  followingUsers "a" db1 = followingUsers "a" empty_db /\
  unfollow (Some "a") (Some ("b" +:+ "_" +:+ "c")) db1
    = (empty_db, Json (FollowDone "Successfully unfollowed user" false)).
Proof.
  apply (follow_key_collision "a" "b" "c" 1000 2000 empty_db).
  - discriminate.
  - discriminate.
  - reflexivity.
Defined.

(** ** Pushing onto a stored list *)

Section MapPush.

Context {A : Type}.
Implicit Types (m : list (string * list A)) (k : string) (x : A).

Lemma Map_push_get_eq k x m :
  Map_get k (Map_push k x m) = Some (default [] (Map_get k m) ++ [x])%list.
Proof.
  unfold Map_push. destruct (Map_has k m) eqn:Hh.
  - apply Map_get_set_eq.
  - rewrite !Map_get_set_eq. apply Map_has_false, Map_get_None in Hh. rewrite Hh.
    reflexivity.
Qed.

Lemma Map_push_get_ne k k' x m : k <> k' -> Map_get k' (Map_push k x m) = Map_get k' m.
Proof.
  intros Hne. unfold Map_push. rewrite Map_get_set_ne by exact Hne.
  destruct (Map_has k m); [reflexivity|]. apply Map_get_set_ne, Hne.
Qed.

Lemma Map_push_NoDup k x m : NoDup m.*1 -> NoDup (Map_push k x m).*1.
Proof.
  intros Hnd. unfold Map_push. apply Map_set_NoDup.
  destruct (Map_has k m); [exact Hnd | apply Map_set_NoDup, Hnd].
Qed.

(** The sum computed by the [reduce] of [/stats]. *)
Lemma foldl_lengths (ls : list (list A)) n :
  foldl (λ sum l, sum + length l) n ls = n + sum_list (length <$> ls).
Proof.
  revert n. induction ls as [|l ls IH]; intros n.
  - cbn. lia.
  - cbn [foldl]. rewrite IH, fmap_cons.
    change (sum_list (length l :: (length <$> ls)))
      with (length l + sum_list (length <$> ls)). lia.
Qed.

Lemma sum_lengths_cons k (v : list A) m :
  sum_lengths ((k, v) :: m) = length v + sum_lengths m.
Proof. reflexivity. Qed.

Lemma sum_lengths_set k (v : list A) m l :
  Map_get k m = Some l ->
  sum_lengths (Map_set k v m) + length l = sum_lengths m + length v.
Proof.
  induction m as [|[k' v'] m IH]; cbn [Map_get Map_set]; [discriminate|].
  destruct (decide (k' = k)) as [->|Hne].
  - intros [= ->]. rewrite !sum_lengths_cons. lia.
  - intros H. specialize (IH H). rewrite !sum_lengths_cons. lia.
Qed.

Lemma sum_lengths_set_absent k (v : list A) m :
  Map_get k m = None -> sum_lengths (Map_set k v m) = sum_lengths m + length v.
Proof.
  induction m as [|[k' v'] m IH]; cbn [Map_get Map_set].
  - intros _. rewrite sum_lengths_cons. unfold sum_lengths. cbn. lia.
  - destruct (decide (k' = k)) as [->|Hne]; [discriminate|].
    intros H. specialize (IH H). rewrite !sum_lengths_cons. lia.
Qed.

Lemma sum_lengths_push k x m : sum_lengths (Map_push k x m) = S (sum_lengths m).
Proof.
  unfold Map_push. destruct (Map_has k m) eqn:Hh.
  - apply Map_has_get in Hh as [l Hl]. rewrite Hl. cbn [default from_option id].
    pose proof (sum_lengths_set k (l ++ [x]) m l Hl) as H.
    rewrite length_app in H. cbn [length] in H. lia.
  - apply Map_has_false, Map_get_None in Hh.
    pose proof (sum_lengths_set_absent k [] m Hh) as H0.
    pose proof (sum_lengths_set k (default [] (Map_get k (Map_set k [] m)) ++ [x])
                  (Map_set k [] m) [] (Map_get_set_eq k [] m)) as H.
    rewrite Map_get_set_eq in H. cbn [default from_option id app length] in H.
    rewrite Map_get_set_eq. cbn [default from_option id app].
    cbn [length] in H0. lia.
Qed.

End MapPush.

(** ** Status updates *)

Lemma set_userStatuses_same db : set_userStatuses (userStatuses db) db = db.
Proof. destruct db; reflexivity. Qed.

Lemma includes_nil viewer : includes viewer [] = false.
Proof.
  destruct viewer as [v|]; [|reflexivity]. cbn [includes].
  apply bool_decide_eq_false_2. intros H. inversion H.
Qed.

(** X17. A created status is appended to the listing of its author, with
    no views, for exactly the requests made less than 24 hours after the
    creation; after that it is no longer listed.  The listings of the other
    users are unchanged. *)
Theorem created_status_listed_until_expiry
    (uid content : string) type mediaUrl backgroundColor rnd now db :
  uid <> "" -> content <> "" ->
  let status := newStatus uid content type mediaUrl backgroundColor rnd now in
  let r := status_create (Some uid) (Some content) type mediaUrl backgroundColor rnd now db in
  r.2 = Json (StatusCreated status "Status created successfully") /\
  (forall viewer now',
     (status_user uid viewer now' r.1).1 =
       ((status_user uid viewer now' db).1 ++
        (if (now' <? now + dayMs)%Z
         then [{| shown := status; hasViewed := false; viewCount := 0 |}]
         else []))%list) /\
  (forall uid' viewer now',
     uid' <> uid -> status_user uid' viewer now' r.1 = status_user uid' viewer now' db).
Proof.
  intros Hu Hc status r.
  assert (Hr : r = (set_userStatuses (Map_push uid status (userStatuses db)) db,
                    Json (StatusCreated status "Status created successfully"))).
  { unfold r, status_create. rewrite !truthy_nonempty by assumption. reflexivity. }
  split; [rewrite Hr; reflexivity|]. split.
  - intros viewer now'. rewrite Hr. unfold status_user.
    cbn [fst userStatuses set_userStatuses].
    rewrite Map_push_get_eq. cbn [default from_option id].
    unfold activeStatuses. rewrite filter_app, fmap_app. f_equal.
    rewrite filter_cons, filter_nil.
    change (listed now' status) with (true && (now' <? now + dayMs)%Z).
    cbn [andb]. destruct (now' <? now + dayMs)%Z.
    + rewrite decide_True by reflexivity. cbn [fmap list_fmap].
      unfold with_viewer. cbn [status_views status newStatus length].
      rewrite includes_nil. reflexivity.
    + rewrite decide_False by discriminate. reflexivity.
  - intros uid' viewer now' Hne. rewrite Hr. unfold status_user.
    cbn [fst userStatuses set_userStatuses].
    rewrite Map_push_get_ne by congruence. reflexivity.
Qed.

Lemma created_status_listed_until_expiry_witness :
  let r := status_create (Some "bob") (Some "hello") None None None "q1w2e3" 5000
                         aliceFollowsBob in
  r.2 = Json (StatusCreated bobStatus "Status created successfully") /\
  (forall viewer now',
     (status_user "bob" viewer now' r.1).1 =
       ((status_user "bob" viewer now' aliceFollowsBob).1 ++
        (if (now' <? 5000 + dayMs)%Z
         then [{| shown := bobStatus; hasViewed := false; viewCount := 0 |}]
         else []))%list) /\
  (forall uid' viewer now',
     uid' <> "bob" ->
     status_user uid' viewer now' r.1 = status_user uid' viewer now' aliceFollowsBob).
Proof.
  apply (created_status_listed_until_expiry "bob" "hello" None None None "q1w2e3" 5000
           aliceFollowsBob).
  - discriminate.
  - discriminate.
Defined.

Lemma list_find_insert_elem {A} (l : list A) i x y :
  y ∈ <[i := x]> l -> y = x \/ y ∈ l.
Proof.
  intros Hin. apply list_elem_of_lookup in Hin as [j Hj].
  destruct (decide (i = j)) as [->|Hne].
  - destruct (decide (j < length l)) as [Hlt|Hge].
    + rewrite list_lookup_insert_eq in Hj by exact Hlt. left. congruence.
    + rewrite list_insert_ge in Hj by lia. right. eapply list_elem_of_lookup_2, Hj.
  - rewrite list_lookup_insert_ne in Hj by exact Hne.
    right. eapply list_elem_of_lookup_2, Hj.
Qed.

Lemma status_view_scan_get sid v m m' k :
  status_view_scan sid v m = Some m' ->
  Map_get k m' = Map_get k m \/
  exists l i s, Map_get k m = Some l /\
    list_find (λ s, statusId s = sid) l = Some (i, s) /\
    (v ∉ status_views s) /\
    Map_get k m' = Some (<[i := push_view v s]> l).
Proof.
  revert m'. induction m as [|[uid l] m IH]; intros m'; cbn [status_view_scan]; [discriminate|].
  assert (Hskip : cons (uid, l) <$> status_view_scan sid v m = Some m' ->
            Map_get k m' = Map_get k ((uid, l) :: m) \/
            exists l0 i s, Map_get k ((uid, l) :: m) = Some l0 /\
              list_find (λ s, statusId s = sid) l0 = Some (i, s) /\
              (v ∉ status_views s) /\
              Map_get k m' = Some (<[i := push_view v s]> l0)).
  { destruct (status_view_scan sid v m) as [m0|]; [|discriminate].
    intros [= <-]. cbn [Map_get]. destruct (decide (uid = k)); [left; reflexivity|].
    apply IH. reflexivity. }
  destruct (list_find (λ s, statusId s = sid) l) as [[i s]|] eqn:Hf; [|exact Hskip].
  destruct (decide (v ∈ status_views s)) as [Hin|Hout].
  - rewrite (bool_decide_eq_true_2 _ Hin). exact Hskip.
  - rewrite (bool_decide_eq_false_2 _ Hout). intros [= <-]. cbn [Map_get].
    destruct (decide (uid = k)); [|left; reflexivity].
    right. exists l, i, s. auto.
Qed.

Lemma status_view_scan_keys sid v m m' :
  status_view_scan sid v m = Some m' -> m'.*1 = m.*1.
Proof.
  revert m'. induction m as [|[uid l] m IH]; intros m'; cbn [status_view_scan]; [discriminate|].
  assert (Hskip : cons (uid, l) <$> status_view_scan sid v m = Some m' ->
                  m'.*1 = ((uid, l) :: m).*1).
  { destruct (status_view_scan sid v m) as [m0|]; [|discriminate].
    intros [= <-]. cbn. f_equal. apply IH. reflexivity. }
  destruct (list_find (λ s, statusId s = sid) l) as [[i s]|]; [|exact Hskip].
  destruct (bool_decide (v ∈ status_views s)); [exact Hskip|].
  intros [= <-]. reflexivity.
Qed.

Lemma status_view_scan_lengths sid v m m' :
  status_view_scan sid v m = Some m' -> sum_lengths m' = sum_lengths m.
Proof.
  revert m'. induction m as [|[uid l] m IH]; intros m'; cbn [status_view_scan]; [discriminate|].
  assert (Hskip : cons (uid, l) <$> status_view_scan sid v m = Some m' ->
                  sum_lengths m' = sum_lengths ((uid, l) :: m)).
  { destruct (status_view_scan sid v m) as [m0|]; [|discriminate].
    intros [= <-]. rewrite !sum_lengths_cons. f_equal. apply IH. reflexivity. }
  destruct (list_find (λ s, statusId s = sid) l) as [[i s]|]; [|exact Hskip].
  destruct (bool_decide (v ∈ status_views s)); [exact Hskip|].
  intros [= <-]. rewrite !sum_lengths_cons, length_insert. reflexivity.
Qed.

Lemma NoDup_snoc (l : list string) x : NoDup l -> x ∉ l -> NoDup (l ++ [x]).
Proof.
  intros Hl Hx. apply NoDup_app. split; [exact Hl|]. split; [|apply NoDup_singleton].
  intros y Hy Hy'. apply list_elem_of_singleton in Hy' as ->. contradiction.
Qed.

Lemma handle_statuses_sound req db : statuses_sound db -> statuses_sound (handle req db).1.
Proof.
  intros Hdb.
  destruct req as [a b now|a b|userId content type mediaUrl bg rnd now|sid viewerId
                  |sid userId|cid sender content type duration rnd now]; cbn [handle].
  - unfold follow. repeat case_match; exact Hdb.
  - unfold unfollow. repeat case_match; exact Hdb.
  - unfold status_create. case_match; [exact Hdb|]. cbn [fst].
    intros uid l s. cbn [userStatuses set_userStatuses].
    destruct (decide (or_empty userId = uid)) as [<-|Hne].
    + rewrite Map_push_get_eq. intros [= <-] Hin.
      apply elem_of_app in Hin as [Hin|Hin].
      * destruct (Map_get (or_empty userId) (userStatuses db)) as [l0|] eqn:Hg;
          [apply (Hdb _ l0 s Hg Hin) | inversion Hin].
      * apply list_elem_of_singleton in Hin as ->.
        split; [reflexivity | apply NoDup_nil_2].
    + rewrite Map_push_get_ne by exact Hne. apply Hdb.
  - unfold status_view. case_match; [exact Hdb|].
    destruct (status_view_scan _ _ _) as [m'|] eqn:Hscan; [|exact Hdb]. cbn [fst].
    intros uid l s. cbn [userStatuses set_userStatuses].
    destruct (status_view_scan_get _ _ _ _ uid Hscan) as [->|(l0 & i & s0 & Hl0 & Hf & Hout & ->)];
      [apply Hdb|].
    intros [= <-] Hin. apply list_find_Some in Hf as (Hi & _).
    apply list_find_insert_elem in Hin as [->|Hin]; [|apply (Hdb _ l0 s Hl0 Hin)].
    destruct (Hdb _ l0 s0 Hl0) as (Ho & Hnd); [eapply list_elem_of_lookup_2, Hi|].
    split; [exact Ho|]. apply NoDup_snoc; assumption.
  - unfold status_delete. case_match; [exact Hdb|].
    destruct (list_find _ _) as [[i s0]|] eqn:Hf; [|exact Hdb]. cbn [fst].
    intros uid l s. cbn [userStatuses set_userStatuses].
    apply list_find_Some in Hf as (Hi & _).
    destruct (Map_get (or_empty userId) (userStatuses db)) as [l0|] eqn:Hg;
      [|cbn in Hi; discriminate].
    cbn [default from_option id] in Hi |- *.
    destruct (decide (or_empty userId = uid)) as [<-|Hne].
    + rewrite Map_get_set_eq. intros [= <-] Hin.
      apply list_find_insert_elem in Hin as [->|Hin]; [|apply (Hdb _ l0 s Hg Hin)].
      apply (Hdb _ l0 s0 Hg). eapply list_elem_of_lookup_2, Hi.
    + rewrite Map_get_set_ne by exact Hne. apply Hdb.
  - unfold chat_send. case_match; exact Hdb.
Qed.

Lemma reachable_db_statuses_sound db : reachable_db db -> statuses_sound db.
Proof.
  induction 1 as [|db req _ IH].
  - intros uid l s. cbn. discriminate.
  - apply handle_statuses_sound, IH.
Qed.

(** X18. Whatever requests are made, a stored status belongs to the user
    it is stored for and holds no viewer twice, so that its [viewCount] is
    the number of its viewers. *)
Theorem views_never_repeat db uid l s :
  reachable_db db ->
  Map_get uid (userStatuses db) = Some l -> s ∈ l ->
  status_userId s = uid /\ NoDup (status_views s).
Proof.
  intros Hdb. apply (reachable_db_statuses_sound db Hdb).
Qed.

Lemma views_never_repeat_witness :
  status_userId (push_view "alice" bobStatus) = "bob" /\
  NoDup (status_views (push_view "alice" bobStatus)).
Proof.
  apply (views_never_repeat bobViewed "bob" [push_view "alice" bobStatus]
           (push_view "alice" bobStatus)).
  - apply reachable_db_handle, reachable_db_handle, reachable_db_handle, reachable_db_empty.
  - reflexivity.
  - apply list_elem_of_here.
Defined.

(** X19. Deleting a status is a soft delete by its author.  When the list
    of the user named in the request (empty when the user has none) holds no
    status with the id, the reply is 404 and nothing changes, whoever else
    holds one.  Otherwise the first status with the id is marked inactive in
    place, the other users' lists are unchanged, the author's listing
    becomes what it would be with that status removed, and deleting it once
    more succeeds again and changes nothing. *)
Theorem status_delete_soft db sid (uid : string) l :
  uid <> "" ->
  default [] (Map_get uid (userStatuses db)) = l ->
  let r := status_delete sid (Some uid) db in
  (list_find (λ s, statusId s = sid) l = None ->
     r = (db, HttpError 404 "Status not found")) /\
  (forall i s,
     list_find (λ s, statusId s = sid) l = Some (i, s) ->
     r.2 = Json (Done "Status deleted successfully") /\
     Map_get uid (userStatuses r.1) = Some (<[i := deactivate s]> l) /\
     (forall uid', uid' <> uid ->
        Map_get uid' (userStatuses r.1) = Map_get uid' (userStatuses db)) /\
     (forall viewer now,
        (status_user uid viewer now r.1).1 =
          with_viewer viewer <$> activeStatuses now (delete i l)) /\
     status_delete sid (Some uid) r.1 = (r.1, Json (Done "Status deleted successfully"))).
Proof.
  intros Hu Hl r. unfold r, status_delete.
  rewrite (truthy_nonempty uid Hu). cbn [negb or_empty]. rewrite Hl. split.
  - intros ->. reflexivity.
  - intros i s Hf. rewrite Hf. cbn [fst snd userStatuses set_userStatuses].
    pose proof (proj1 (list_find_Some _ _ _ _) Hf) as (Hi & Hid & Hfirst).
    assert (Hlt : i < length l) by (eapply lookup_lt_Some, Hi).
    split; [reflexivity|]. split; [apply Map_get_set_eq|].
    split; [intros uid' Hne; apply Map_get_set_ne; congruence|]. split.
    + intros viewer now. unfold status_user. cbn [fst userStatuses set_userStatuses].
      rewrite Map_get_set_eq. cbn [default from_option id]. f_equal.
      unfold activeStatuses. clear Hf Hid Hfirst Hl. revert i Hi Hlt.
      induction l as [|x l IH]; intros i Hi Hlt; [cbn in Hlt; lia|].
      destruct i as [|i].
      * change (<[0 := deactivate s]> (x :: l)) with (deactivate s :: l).
        change (delete 0 (x :: l)) with l.
        rewrite filter_cons. rewrite decide_False by (cbn; discriminate). reflexivity.
      * change (<[S i := deactivate s]> (x :: l)) with (x :: <[i := deactivate s]> l).
        change (delete (S i) (x :: l)) with (x :: delete i l).
        rewrite !filter_cons. cbn in Hi, Hlt.
        rewrite (IH i Hi) by lia. reflexivity.
    + rewrite Map_get_set_eq. cbn [default from_option id].
      assert (Hf' : list_find (λ s0, statusId s0 = sid) (<[i := deactivate s]> l)
                    = Some (i, deactivate s)).
      { apply list_find_Some. split; [apply list_lookup_insert_eq, Hlt|].
        split; [exact Hid|]. intros j y Hj Hji.
        rewrite list_lookup_insert_ne in Hj by lia. apply (Hfirst j y Hj Hji). }
      rewrite Hf'. cbn [fst]. rewrite list_insert_insert_eq.
      rewrite (Map_set_same uid (<[i := deactivate s]> l)); [reflexivity|].
      apply Map_get_set_eq.
Qed.

Lemma status_delete_soft_witness :
  let sid := statusId bobStatus in
  let l := [push_view "alice" bobStatus] in
  let r := status_delete sid (Some "bob") bobViewed in
  (list_find (λ s, statusId s = sid) l = None ->
     r = (bobViewed, HttpError 404 "Status not found")) /\
  (forall i s,
     list_find (λ s, statusId s = sid) l = Some (i, s) ->
     r.2 = Json (Done "Status deleted successfully") /\
     Map_get "bob" (userStatuses r.1) = Some (<[i := deactivate s]> l) /\
     (forall uid', uid' <> "bob" ->
        Map_get uid' (userStatuses r.1) = Map_get uid' (userStatuses bobViewed)) /\
     (forall viewer now,
        (status_user "bob" viewer now r.1).1 =
          with_viewer viewer <$> activeStatuses now (delete i l)) /\
     status_delete sid (Some "bob") r.1 = (r.1, Json (Done "Status deleted successfully"))).
Proof.
  apply (status_delete_soft bobViewed (statusId bobStatus) "bob" [push_view "alice" bobStatus]).
  - discriminate.
  - reflexivity.
Defined.

(** ** Recording a view *)

Lemma Map_set_other {V : Type} (k k' : string) (v v' : V) (m : list (string * V)) :
  (k', v') ∈ Map_set k v m -> k' <> k -> (k', v') ∈ m.
Proof.
  intros Hin Hne. induction m as [|[k0 v0] m IH]; cbn [Map_set] in Hin.
  - apply list_elem_of_singleton in Hin. congruence.
  - destruct (decide (k0 = k)) as [->|Hne0].
    + apply elem_of_cons in Hin as [Heq|Hin]; [congruence | right; exact Hin].
    + apply elem_of_cons in Hin as [Heq|Hin]; [rewrite Heq; left | right; apply IH, Hin].
Qed.

Lemma status_view_scan_skip sid v (m : list (string * list Status)) :
  (forall uid l s, (uid, l) ∈ m -> s ∈ l -> statusId s <> sid) ->
  status_view_scan sid v m = None.
Proof.
  induction m as [|[uid l] m IH]; intros Hno; [reflexivity|].
  cbn [status_view_scan].
  destruct (list_find (λ s, statusId s = sid) l) as [[i s]|] eqn:Hf.
  - apply list_find_Some in Hf as (Hi & Hid & _).
    destruct (Hno uid l s); [left | eapply list_elem_of_lookup_2, Hi | exact Hid].
  - rewrite IH; [reflexivity|]. intros uid' l' s' Hin. apply (Hno uid' l' s'). right. exact Hin.
Qed.

Lemma status_view_scan_unique sid v (m : list (string * list Status)) uid l i s :
  NoDup m.*1 ->
  Map_get uid m = Some l ->
  list_find (λ s, statusId s = sid) l = Some (i, s) ->
  (forall uid' l' s', (uid', l') ∈ m -> uid' <> uid -> s' ∈ l' -> statusId s' <> sid) ->
  status_view_scan sid v m =
    if bool_decide (v ∈ status_views s) then None
    else Some (Map_set uid (<[i := push_view v s]> l) m).
Proof.
  intros Hnd Hget Hf Hother.
  induction m as [|[uid0 l0] m IH]; [discriminate|].
  cbn [Map_get] in Hget. cbn [fmap list_fmap fst] in Hnd.
  apply NoDup_cons in Hnd as [Hk Hnd]. cbn [status_view_scan Map_set].
  destruct (decide (uid0 = uid)) as [->|Hne].
  - injection Hget as ->. rewrite Hf.
    destruct (bool_decide (v ∈ status_views s)); [|reflexivity].
    rewrite status_view_scan_skip; [reflexivity|].
    intros uid' l' s' Hin. apply (Hother uid' l' s'); [right; exact Hin|].
    intros ->. apply Hk. apply list_elem_of_fmap. exists (uid, l'). auto.
  - assert (Hnone : list_find (λ s0, statusId s0 = sid) l0 = None).
    { apply list_find_None. apply Forall_forall. intros s' Hs'.
      apply (Hother uid0 l0 s'); [left | exact Hne | exact Hs']. }
    rewrite Hnone, IH; [| exact Hnd | exact Hget |].
    + destruct (bool_decide (v ∈ status_views s)); reflexivity.
    + intros uid' l' s' Hin. apply (Hother uid' l' s'). right. exact Hin.
Qed.

Lemma handle_status_keys req db :
  NoDup (userStatuses db).*1 -> NoDup (userStatuses (handle req db).1).*1.
Proof.
  intros Hnd.
  destruct req as [a b now|a b|userId content type mediaUrl bg rnd now|sid viewerId
                  |sid userId|cid sender content type duration rnd now]; cbn [handle].
  - unfold follow. repeat case_match; exact Hnd.
  - unfold unfollow. repeat case_match; exact Hnd.
  - unfold status_create. case_match; [exact Hnd|]. apply Map_push_NoDup, Hnd.
  - unfold status_view. case_match; [exact Hnd|].
    destruct (status_view_scan _ _ _) as [m'|] eqn:Hscan; [|exact Hnd]. cbn [fst].
    cbn [userStatuses set_userStatuses].
    rewrite (status_view_scan_keys _ _ _ _ Hscan). exact Hnd.
  - unfold status_delete. case_match; [exact Hnd|].
    destruct (list_find _ _) as [[i s0]|]; [|exact Hnd]. apply Map_set_NoDup, Hnd.
  - unfold chat_send. case_match; exact Hnd.
Qed.

Lemma reachable_db_status_keys db : reachable_db db -> NoDup (userStatuses db).*1.
Proof.
  induction 1 as [|db req _ IH]; [constructor | apply handle_status_keys, IH].
Qed.

(** X20. Recording a view of a status whose id is used in the list of one
    user only: a viewer who has not viewed it is appended to its views, in
    place, the reply is a success and the other lists are unchanged; for a
    viewer who has viewed it the reply is 404 [Status not found] and nothing
    changes.  So repeating a view request is refused and counts nothing. *)
Theorem status_view_once db (sid v : string) uid l i s :
  reachable_db db -> sid <> "" -> v <> "" ->
  Map_get uid (userStatuses db) = Some l ->
  list_find (λ s, statusId s = sid) l = Some (i, s) ->
  (forall uid' l' s',
     (uid', l') ∈ userStatuses db -> uid' <> uid -> s' ∈ l' -> statusId s' <> sid) ->
  let r := status_view (Some sid) (Some v) db in
  (v ∈ status_views s -> r = (db, HttpError 404 "Status not found")) /\
  ((v ∉ status_views s) ->
   r.2 = Json (Done "Status view recorded") /\
   Map_get uid (userStatuses r.1) = Some (<[i := push_view v s]> l) /\
   (forall uid', uid' <> uid ->
      Map_get uid' (userStatuses r.1) = Map_get uid' (userStatuses db)) /\
   status_view (Some sid) (Some v) r.1 = (r.1, HttpError 404 "Status not found")).
Proof.
  intros Hdb Hsid Hv Hget Hf Hother r.
  pose proof (reachable_db_status_keys db Hdb) as Hnd.
  assert (Hr : r = match status_view_scan sid v (userStatuses db) with
                   | Some m => (set_userStatuses m db, Json (Done "Status view recorded"))
                   | None => (db, HttpError 404 "Status not found")
                   end).
  { unfold r, status_view. rewrite !truthy_nonempty by assumption. reflexivity. }
  rewrite (status_view_scan_unique sid v _ uid l i s Hnd Hget Hf Hother) in Hr.
  split.
  - intros Hin. rewrite Hr, (bool_decide_eq_true_2 _ Hin). reflexivity.
  - intros Hout. rewrite (bool_decide_eq_false_2 _ Hout) in Hr. rewrite Hr.
    cbn [fst snd userStatuses set_userStatuses].
    pose proof (proj1 (list_find_Some _ _ _ _) Hf) as (Hi & Hid & Hfirst).
    assert (Hlt : i < length l) by (eapply lookup_lt_Some, Hi).
    split; [reflexivity|]. split; [apply Map_get_set_eq|].
    split; [intros uid' Hne; apply Map_get_set_ne; congruence|].
    unfold status_view. rewrite !truthy_nonempty by assumption.
    cbn [negb orb or_empty userStatuses set_userStatuses].
    rewrite (status_view_scan_unique sid v _ uid (<[i := push_view v s]> l) i (push_view v s)).
    + rewrite bool_decide_eq_true_2; [reflexivity|].
      cbn [status_views push_view]. apply elem_of_app. right. left.
    + apply Map_set_NoDup, Hnd.
    + apply Map_get_set_eq.
    + apply list_find_Some. split; [apply list_lookup_insert_eq, Hlt|].
      split; [exact Hid|]. intros j y Hj Hji.
      rewrite list_lookup_insert_ne in Hj by lia. apply (Hfirst j y Hj Hji).
    + intros uid' l' s' Hin Hne. apply (Hother uid' l' s'); [|exact Hne].
      apply Map_set_other in Hin; [exact Hin | exact Hne].
Qed.

Lemma status_view_once_witness :
  let r := status_view (Some (statusId bobStatus)) (Some "alice") bobPosted in
  ("alice" ∈ status_views bobStatus -> r = (bobPosted, HttpError 404 "Status not found")) /\
  (("alice" ∉ status_views bobStatus) ->
   r.2 = Json (Done "Status view recorded") /\
   Map_get "bob" (userStatuses r.1) = Some (<[0 := push_view "alice" bobStatus]> [bobStatus]) /\
   (forall uid', uid' <> "bob" ->
      Map_get uid' (userStatuses r.1) = Map_get uid' (userStatuses bobPosted)) /\
   status_view (Some (statusId bobStatus)) (Some "alice") r.1
     = (r.1, HttpError 404 "Status not found")).
Proof.
  apply (status_view_once bobPosted (statusId bobStatus) "alice" "bob" [bobStatus] 0 bobStatus).
  - apply reachable_db_handle, reachable_db_handle, reachable_db_empty.
  - discriminate.
  - discriminate.
  - reflexivity.
  - reflexivity.
  - intros uid' l' s' Hin Hne.
    change (userStatuses bobPosted) with [("bob", [bobStatus])] in Hin.
    apply list_elem_of_singleton in Hin. congruence.
Defined.

Lemma totalStatuses_sum st db : totalStatuses (stats st db) = sum_lengths (userStatuses db).
Proof. exact (foldl_lengths (userStatuses db).*2 0). Qed.

(** X21. No request removes a status from the store: [totalStatuses] of
    [/stats] grows by one with each accepted creation and is unchanged by
    every other request, deletions included. *)
Theorem statuses_never_removed st req db :
  let r := handle req db in
  match req, r.2 with
  | StatusCreate _ _ _ _ _ _ _, Json _ =>
      totalStatuses (stats st r.1) = S (totalStatuses (stats st db))
  | _, _ => totalStatuses (stats st r.1) = totalStatuses (stats st db)
  end.
Proof.
  cbv zeta. rewrite !totalStatuses_sum.
  destruct req as [a b now|a b|userId content type mediaUrl bg rnd now|sid viewerId
                  |sid userId|cid sender content type duration rnd now]; cbn [handle].
  - unfold follow. repeat case_match; simplify_eq/=; reflexivity.
  - unfold unfollow. repeat case_match; simplify_eq/=; reflexivity.
  - unfold status_create. destruct (negb _ || negb _); cbn [fst snd]; [reflexivity|].
    cbn [userStatuses set_userStatuses]. apply sum_lengths_push.
  - unfold status_view. destruct (negb _ || negb _); cbn [fst snd]; [reflexivity|].
    destruct (status_view_scan _ _ _) as [m'|] eqn:Hscan; cbn [fst snd]; [|reflexivity].
    cbn [userStatuses set_userStatuses].
    rewrite (status_view_scan_lengths _ _ _ _ Hscan). reflexivity.
  - unfold status_delete. destruct (negb _); cbn [fst snd]; [reflexivity|].
    destruct (list_find _ _) as [[i s0]|] eqn:Hf; cbn [fst snd]; [|reflexivity].
    cbn [userStatuses set_userStatuses].
    destruct (Map_get (or_empty userId) (userStatuses db)) as [l0|] eqn:Hg;
      [|cbn in Hf; discriminate].
    cbn [default from_option id] in Hf |- *.
    pose proof (sum_lengths_set (or_empty userId) (<[i := deactivate s0]> l0) _ l0 Hg) as H.
    rewrite length_insert in H. lia.
  - unfold chat_send. repeat case_match; simplify_eq/=; reflexivity.
Qed.

(** ** The follow graph *)

Lemma handle_follows_sound req db : follows_sound db -> follows_sound (handle req db).1.
Proof.
  intros [Hnd Hkey].
  destruct req as [a b now|a b|userId content type mediaUrl bg rnd now|sid viewerId
                  |sid userId|cid sender content type duration rnd now]; cbn [handle].
  - unfold follow. destruct (negb _ || negb _); [split; assumption|].
    destruct (Map_has _ _) eqn:Hh; [split; assumption|]. cbn [fst].
    split; cbn [followRelationships set_followRelationships].
    + apply Map_set_NoDup, Hnd.
    + intros k r. rewrite Map_set_absent by (apply Map_has_false, Hh).
      rewrite elem_of_app, list_elem_of_singleton. intros [Hin|[= -> ->]]; [auto|reflexivity].
  - unfold unfollow. destruct (negb _ || negb _); [split; assumption|].
    destruct (negb (Map_has _ _)); [split; assumption|]. cbn [fst].
    split; cbn [followRelationships set_followRelationships].
    + apply Map_delete_NoDup, Hnd.
    + intros k r Hin. apply Map_delete_elem in Hin as [_ Hin]. auto.
  - unfold status_create. case_match; split; assumption.
  - unfold status_view. repeat case_match; split; assumption.
  - unfold status_delete. repeat case_match; split; assumption.
  - unfold chat_send. case_match; split; assumption.
Qed.

Lemma reachable_db_follows_sound db : reachable_db db -> follows_sound db.
Proof.
  induction 1 as [|db req _ IH].
  - split; [constructor|]. intros k r H. inversion H.
  - apply handle_follows_sound, IH.
Qed.

Lemma elem_of_followingUsers a b db :
  b ∈ followingUsers a db <->
  b = a \/ exists k r, (k, r) ∈ followRelationships db /\ followerId r = a /\ followingId r = b.
Proof.
  unfold followingUsers. rewrite elem_of_app, list_elem_of_singleton, list_elem_of_fmap.
  split.
  - intros [([k r] & -> & Hin)| ->]; [|auto]. apply list_elem_of_filter in Hin as [Hf Hin].
    right. exists k, r. auto.
  - intros [->|(k & r & Hin & Hf & Hg)]; [auto|]. left. exists (k, r).
    split; [symmetry; exact Hg|]. apply list_elem_of_filter. auto.
Qed.

(** X22. [totalFollowRelationships] of [/stats] counts the accepted
    requests: it grows by one with each accepted follow, shrinks by one with
    each accepted unfollow, and no other request or refused request changes
    it. *)
Theorem relationship_count st req db :
  reachable_db db ->
  let r := handle req db in
  match req, r.2 with
  | Follow _ _ _, Json _ =>
      totalFollowRelationships (stats st r.1) = S (totalFollowRelationships (stats st db))
  | Unfollow _ _, Json _ =>
      S (totalFollowRelationships (stats st r.1)) = totalFollowRelationships (stats st db)
  | _, _ => totalFollowRelationships (stats st r.1) = totalFollowRelationships (stats st db)
  end.
Proof.
  intros Hdb. destruct (reachable_db_follows_sound db Hdb) as [Hnd _].
  cbv zeta. unfold stats. cbn [totalFollowRelationships].
  destruct req as [a b now|a b|userId content type mediaUrl bg rnd now|sid viewerId
                  |sid userId|cid sender content type duration rnd now]; cbn [handle].
  - unfold follow. destruct (negb _ || negb _); cbn [fst snd]; [reflexivity|].
    destruct (Map_has _ _) eqn:Hh; cbn [fst snd]; [reflexivity|].
    cbn [followRelationships set_followRelationships].
    rewrite Map_set_absent by (apply Map_has_false, Hh).
    rewrite length_app. cbn [length]. lia.
  - unfold unfollow. destruct (negb _ || negb _); cbn [fst snd]; [reflexivity|].
    destruct (Map_has _ _) eqn:Hh; cbn [negb fst snd]; [|reflexivity].
    cbn [followRelationships set_followRelationships].
    apply Map_delete_length; [exact Hnd | apply Map_has_true, Hh].
  - unfold status_create. repeat case_match; simplify_eq/=; reflexivity.
  - unfold status_view. repeat case_match; simplify_eq/=; reflexivity.
  - unfold status_delete. repeat case_match; simplify_eq/=; reflexivity.
  - unfold chat_send. repeat case_match; simplify_eq/=; reflexivity.
Qed.

Lemma relationship_count_witness :
  totalFollowRelationships (stats initial aliceFollowsBob)
    = S (totalFollowRelationships (stats initial empty_db)).
Proof.
  apply (relationship_count initial (Follow (Some "alice") (Some "bob") 1000) empty_db).
  apply reachable_db_empty.
Defined.

Lemma followingUsers_reader a db : a ∈ followingUsers a db.
Proof. apply elem_of_followingUsers. left. reflexivity. Qed.

Lemma unfollow_followingUsers (a c : string) db :
  follows_sound db -> a <> "" -> c <> "" ->
  c ∈ followingUsers a (unfollow (Some a) (Some c) db).1 <-> c = a.
Proof.
  intros [Hnd Hkey] Ha Hc. split; [|intros ->; apply followingUsers_reader].
  rewrite elem_of_followingUsers. intros [Heq|(k & r & Hin & Hf & Hg)]; [exact Heq|].
  exfalso. revert Hin. unfold unfollow. rewrite !truthy_nonempty by assumption.
  cbn [negb orb or_empty].
  destruct (Map_has _ _) eqn:Hh; cbn [negb fst].
  - cbn [followRelationships set_followRelationships]. intros Hin.
    apply Map_delete_elem in Hin as [Hne Hin]. apply Hne.
    rewrite (Hkey k r Hin), Hf, Hg. reflexivity.
  - intros Hin. apply Map_has_false in Hh. apply Hh.
    apply list_elem_of_fmap. exists (k, r). split; [|exact Hin].
    cbn [fst]. rewrite (Hkey k r Hin), Hf, Hg. reflexivity.
Qed.

(** X23. The feed follows the requests, for non-empty ids and any store
    the requests can build.  A request of [a] to follow [b] under a free key
    is accepted and [b] is then among the users whose statuses [a] is shown.
    The reader [a] is always among them; after a request of [a] to unfollow
    a user, whatever the reply, that user is among them only if it is [a]
    itself, so [b] is not after it was followed and unfollowed, unless it
    is [a].  And a user among them other than [a] is flagged as followed by
    the discover endpoints. *)
Theorem following_tracks_requests (a b : string) now db :
  reachable_db db -> a <> "" -> b <> "" ->
  Map_has (followKey a b) (followRelationships db) = false ->
  let r := follow (Some a) (Some b) now db in
  r.2 = Json (FollowDone "Successfully followed user" true) /\
  b ∈ followingUsers a r.1 /\
  (b ∈ followingUsers a (unfollow (Some a) (Some b) r.1).1 <-> b = a) /\
  (forall c : string, c <> "" ->
     (c ∈ followingUsers a (unfollow (Some a) (Some c) db).1 <-> c = a)) /\
  (forall c, c ∈ followingUsers a db -> c <> a -> isFollowing_flag (Some a) c db = true).
Proof.
  intros Hdb Ha Hb Hfree r.
  pose proof (reachable_db_follows_sound db Hdb) as Hs.
  assert (Hr : r = handle (Follow (Some a) (Some b) now) db) by reflexivity.
  assert (Hs1 : follows_sound r.1).
  { rewrite Hr. apply handle_follows_sound, Hs. }
  assert (Hr' : r = (set_followRelationships
                       (Map_set (followKey a b)
                          {| followerId := a; followingId := b; follow_createdAt := now |}
                          (followRelationships db)) db,
                     Json (FollowDone "Successfully followed user" true))).
  { unfold r, follow. rewrite !truthy_nonempty by assumption.
    cbn [negb orb or_empty]. rewrite Hfree. reflexivity. }
  split; [rewrite Hr'; reflexivity|]. split; [|split; [|split]].
  - apply elem_of_followingUsers. right.
    exists (followKey a b), {| followerId := a; followingId := b; follow_createdAt := now |}.
    split; [|auto]. rewrite Hr'. cbn [fst followRelationships set_followRelationships].
    rewrite Map_set_absent by (apply Map_has_false, Hfree).
    apply elem_of_app. right. left.
  - apply unfollow_followingUsers; assumption.
  - intros c Hc. apply unfollow_followingUsers; assumption.
  - destruct Hs as [_ Hkey]. intros c Hin Hne.
    apply elem_of_followingUsers in Hin as [Heq|(k & rel & Hin & Hf & Hg)]; [contradiction|].
    unfold isFollowing_flag. cbn [template]. apply Map_has_true.
    apply list_elem_of_fmap. exists (k, rel). split; [|exact Hin].
    cbn [fst]. rewrite (Hkey k rel Hin), Hf, Hg. reflexivity.
Qed.

Lemma following_tracks_requests_witness :
  ("bob" ∈ followingUsers "alice" aliceFollowsBob /\
   (unfollow (Some "alice") (Some "bob") aliceFollowsBob).2
     = Json (FollowDone "Successfully unfollowed user" false)) /\
  let r := follow (Some "alice") (Some "carol") 2000 aliceFollowsBob in
  r.2 = Json (FollowDone "Successfully followed user" true) /\
  "carol" ∈ followingUsers "alice" r.1 /\
  ("carol" ∈ followingUsers "alice" (unfollow (Some "alice") (Some "carol") r.1).1
   <-> "carol" = "alice") /\
  (forall c : string, c <> "" ->
     (c ∈ followingUsers "alice" (unfollow (Some "alice") (Some c) aliceFollowsBob).1
      <-> c = "alice")) /\
  (forall c, c ∈ followingUsers "alice" aliceFollowsBob -> c <> "alice" ->
     isFollowing_flag (Some "alice") c aliceFollowsBob = true).
Proof.
  split.
  - split; [apply (bool_decide_unpack _); vm_compute; exact I | reflexivity].
  - apply (following_tracks_requests "alice" "carol" 2000 aliceFollowsBob).
    + apply reachable_db_handle, reachable_db_empty.
    + discriminate.
    + discriminate.
    + reflexivity.
Defined.

(** ** The feed *)

Lemma insert_newest_split x l :
  exists l1 l2, l = (l1 ++ l2)%list /\ insert_newest x l = (l1 ++ x :: l2)%list /\
    (forall y, y ∈ l1 -> (status_createdAt (shown x) < status_createdAt (shown y))%Z) /\
    (forall y, head l2 = Some y ->
               (status_createdAt (shown y) <= status_createdAt (shown x))%Z).
Proof.
  induction l as [|y l IH]; cbn [insert_newest].
  - exists [], []. repeat split; [intros y H; inversion H | intros y [=]].
  - destruct (Z.leb_spec (status_createdAt (shown y)) (status_createdAt (shown x))) as [Hle|Hgt].
    + exists [], (y :: l). repeat split; [intros z H; inversion H|].
      intros z [= <-]. exact Hle.
    + destruct IH as (l1 & l2 & -> & -> & Hl1 & Hl2).
      exists (y :: l1), l2. repeat split; [|exact Hl2].
      intros z Hz. apply elem_of_cons in Hz as [->|Hz]; [exact Hgt | apply Hl1, Hz].
Qed.

Lemma insert_newest_Permutation x l : insert_newest x l ≡ₚ x :: l.
Proof.
  destruct (insert_newest_split x l) as (l1 & l2 & -> & -> & _).
  symmetry. apply Permutation_middle.
Qed.

Lemma sort_newest_first_Permutation l : sort_newest_first l ≡ₚ l.
Proof.
  induction l as [|x l IH]; [reflexivity|]. cbn [sort_newest_first foldr].
  rewrite insert_newest_Permutation. fold (sort_newest_first l). rewrite IH. reflexivity.
Qed.

Lemma insert_newest_sorted x l :
  StronglySorted newer_or_equal l -> StronglySorted newer_or_equal (insert_newest x l).
Proof.
  intros Hs. induction Hs as [|y l Hs IH Hall]; cbn [insert_newest].
  - repeat constructor.
  - destruct (Z.leb_spec (status_createdAt (shown y)) (status_createdAt (shown x))) as [Hle|Hgt].
    + constructor; [constructor; assumption|].
      constructor; [exact Hle|]. eapply Forall_impl; [exact Hall|].
      intros z Hz. unfold newer_or_equal in *. lia.
    + constructor; [exact IH|].
      rewrite Forall_forall. intros z Hz.
      rewrite insert_newest_Permutation in Hz.
      apply elem_of_cons in Hz as [->|Hz]; [unfold newer_or_equal; lia|].
      rewrite Forall_forall in Hall. apply Hall, Hz.
Qed.

Lemma sort_newest_first_sorted l : StronglySorted newer_or_equal (sort_newest_first l).
Proof.
  induction l as [|x l IH]; [constructor|]. cbn [sort_newest_first foldr].
  apply insert_newest_sorted, IH.
Qed.

Lemma filter_newer_nil (t : Z) (l : list ListedStatus) :
  (forall y, y ∈ l -> (t < status_createdAt (shown y))%Z) ->
  filter (λ x, status_createdAt (shown x) = t) l = [].
Proof.
  induction l as [|y l IH]; intros Hl; [reflexivity|].
  rewrite filter_cons. rewrite decide_False.
  - apply IH. intros z Hz. apply Hl. right. exact Hz.
  - pose proof (Hl y (list_elem_of_here _ _)). lia.
Qed.

Lemma sort_newest_first_stable l (t : Z) :
  filter (λ x, status_createdAt (shown x) = t) (sort_newest_first l) =
  filter (λ x, status_createdAt (shown x) = t) l.
Proof.
  induction l as [|x l IH]; [reflexivity|]. cbn [sort_newest_first foldr].
  fold (sort_newest_first l).
  destruct (insert_newest_split x (sort_newest_first l)) as (l1 & l2 & Heq & -> & Hl1 & _).
  rewrite Heq in IH. rewrite filter_app in IH |- *. rewrite !filter_cons.
  destruct (decide (status_createdAt (shown x) = t)) as [Ht|Ht].
  - assert (Hnil : filter (λ x0, status_createdAt (shown x0) = t) l1 = []).
    { apply filter_newer_nil. intros y Hy. rewrite <- Ht. apply Hl1, Hy. }
    rewrite Hnil in IH |- *. cbn [app] in IH |- *. rewrite IH. reflexivity.
  - exact IH.
Qed.

Lemma elem_of_collected uid now db v :
  v ∈ collected uid now db <->
  exists owner s,
    owner ∈ followingUsers uid db /\
    s ∈ default [] (Map_get owner (userStatuses db)) /\
    listed now s = true /\ v = with_viewer (Some uid) s.
Proof.
  unfold collected. rewrite list_elem_of_bind. split.
  - intros (owner & Hv & Ho). apply list_elem_of_fmap in Hv as (s & -> & Hs).
    apply list_elem_of_filter in Hs as [Hl Hs]. exists owner, s. auto.
  - intros (owner & s & Ho & Hs & Hl & ->). exists owner. split; [|exact Ho].
    apply list_elem_of_fmap. exists s. split; [reflexivity|].
    apply list_elem_of_filter. auto.
Qed.

Lemma elem_of_allStatuses uid now db v :
  v ∈ allStatuses uid now db <->
  exists owner s,
    owner ∈ followingUsers uid db /\
    s ∈ default [] (Map_get owner (userStatuses db)) /\
    listed now s = true /\ v = with_viewer (Some uid) s.
Proof.
  unfold allStatuses. rewrite <- elem_of_collected.
  rewrite sort_newest_first_Permutation. reflexivity.
Qed.

(** X24. The statuses collected for a feed are sorted newest first: the
    sorted list is a rearrangement of the collected one, no status comes
    before a newer one, statuses created at the same instant keep the order
    in which they were collected, and a status is in the feed exactly when
    it is a listed (active, unexpired) status of the reader or of a user the
    reader follows. *)
Theorem feed_newest_first uid now db :
  allStatuses uid now db ≡ₚ collected uid now db /\
  StronglySorted newer_or_equal (allStatuses uid now db) /\
  (forall t : Z,
     filter (λ x, status_createdAt (shown x) = t) (allStatuses uid now db) =
     filter (λ x, status_createdAt (shown x) = t) (collected uid now db)) /\
  (forall v,
     v ∈ allStatuses uid now db <->
     exists owner s,
       owner ∈ followingUsers uid db /\
       s ∈ default [] (Map_get owner (userStatuses db)) /\
       listed now s = true /\ v = with_viewer (Some uid) s).
Proof.
  unfold allStatuses. split; [apply sort_newest_first_Permutation|].
  split; [apply sort_newest_first_sorted|]. split; [intros t; apply sort_newest_first_stable|].
  intros v. apply elem_of_allStatuses.
Qed.

(** X25. Whatever requests were made, a status in the feed of a reader is
    active and unexpired, and its author is the reader or a user the
    discover endpoints flag as followed by the reader. *)
Theorem feed_of_followed_only uid now db v :
  reachable_db db ->
  v ∈ allStatuses uid now db ->
  listed now (shown v) = true /\
  (status_userId (shown v) = uid \/
   isFollowing_flag (Some uid) (status_userId (shown v)) db = true).
Proof.
  intros Hdb Hv.
  apply elem_of_allStatuses in Hv as (owner & s & Ho & Hs & Hl & ->).
  cbn [shown with_viewer]. split; [exact Hl|].
  destruct (Map_get owner (userStatuses db)) as [l|] eqn:Hg; [|inversion Hs].
  destruct (reachable_db_statuses_sound db Hdb owner l s Hg Hs) as [-> _].
  destruct (decide (owner = uid)) as [Heq|Hne]; [left; exact Heq|right].
  destruct (reachable_db_follows_sound db Hdb) as [_ Hkey].
  apply elem_of_followingUsers in Ho as [Heq|(k & r & Hin & Hf & Hg')]; [congruence|].
  unfold isFollowing_flag. cbn [template]. apply Map_has_true.
  apply list_elem_of_fmap. exists (k, r). split; [|exact Hin].
  cbn [fst]. rewrite (Hkey k r Hin), Hf, Hg'. reflexivity.
Qed.

Lemma feed_of_followed_only_witness :
  let v := with_viewer (Some "alice") (push_view "alice" bobStatus) in
  listed 6000 (shown v) = true /\
  (status_userId (shown v) = "alice" \/
   isFollowing_flag (Some "alice") (status_userId (shown v)) bobViewed = true).
Proof.
  apply (feed_of_followed_only "alice" 6000 bobViewed
           (with_viewer (Some "alice") (push_view "alice" bobStatus))).
  - apply reachable_db_handle, reachable_db_handle, reachable_db_handle, reachable_db_empty.
  - vm_compute. apply list_elem_of_here.
Defined.

(** ** Chat *)

(** X26. A chat message is accepted exactly when the conversation and the
    sender are given and either the content is given or the type is
    ['voice'].  A refusal is a 400 and changes nothing.  An accepted message
    becomes the last of its conversation, the other conversations and the
    other stores are unchanged, its content is the one sent, and its
    duration is kept for a voice message only. *)
Theorem chat_send_appends conversationId senderId content type duration rnd now db :
  let r := chat_send conversationId senderId content type duration rnd now db in
  ((exists body, r.2 = Json body) <->
   truthy conversationId = true /\ truthy senderId = true /\
   (truthy content = true \/ type = Some "voice")) /\
  (forall code error, r.2 = HttpError code error -> r.1 = db /\ code = 400%Z) /\
  (forall message mid,
     r.2 = Json (MessageSent message mid) ->
     Map_get (or_empty conversationId) (chatMessages r.1) =
       Some (default [] (Map_get (or_empty conversationId) (chatMessages db)) ++ [message])%list /\
     (forall cid, cid <> or_empty conversationId ->
        Map_get cid (chatMessages r.1) = Map_get cid (chatMessages db)) /\
     mid = messageId message /\
     msg_content message = content /\
     msg_duration message = (if decide (type = Some "voice") then duration else None) /\
     followRelationships r.1 = followRelationships db /\
     userStatuses r.1 = userStatuses db).
Proof.
  intros r. unfold r, chat_send.
  assert (Hvoice : String.eqb (default "text" type) "voice" =
                   bool_decide (type = Some "voice")).
  { destruct type as [t|]; cbn [default from_option id].
    - destruct (String.eqb_spec t "voice") as [->|Hne].
      + rewrite bool_decide_eq_true_2; reflexivity.
      + rewrite bool_decide_eq_false_2; [reflexivity | congruence].
    - rewrite bool_decide_eq_false_2; [reflexivity | discriminate]. }
  rewrite !Hvoice.
  destruct (truthy conversationId), (truthy senderId), (truthy content),
    (decide (type = Some "voice")) as [Hv|Hv];
    rewrite ?(bool_decide_eq_true_2 _ Hv), ?(bool_decide_eq_false_2 _ Hv);
    cbn [negb orb andb fst snd];
    (split; [split; [intros [body Hb]; try discriminate; auto
                    | intros (H1 & H2 & [H3|H3]); try discriminate; try contradiction; eauto]
            |split; [intros code error Heq; try discriminate; injection Heq as <- <-; auto
                    |intros message mid Heq; try discriminate; injection Heq as <- <-;
                     cbn [chatMessages set_chatMessages messageId msg_content msg_duration];
                     rewrite Map_push_get_eq;
                     repeat split; try reflexivity;
                     intros cid Hne; apply Map_push_get_ne; congruence]]).
Qed.

(** ** Stored messages *)

Lemma handle_messages_sound req db : messages_sound db -> messages_sound (handle req db).1.
Proof.
  intros Hdb.
  destruct req as [a b now|a b|userId content type mediaUrl bg rnd now|sid viewerId
                  |sid userId|cid sender content type duration rnd now]; cbn [handle].
  - unfold follow. repeat case_match; exact Hdb.
  - unfold unfollow. repeat case_match; exact Hdb.
  - unfold status_create. case_match; exact Hdb.
  - unfold status_view. repeat case_match; exact Hdb.
  - unfold status_delete. repeat case_match; exact Hdb.
  - unfold chat_send.
    destruct (negb (truthy cid) || negb (truthy sender)
              || negb (truthy content) && negb (default "text" type =? "voice")) eqn:Hguard;
      [exact Hdb|].
    cbn [fst]. intros cid' l m. cbn [chatMessages set_chatMessages].
    destruct (decide (or_empty cid = cid')) as [<-|Hne].
    + rewrite Map_push_get_eq. intros [= <-] Hin.
      apply elem_of_app in Hin as [Hin|Hin].
      * destruct (Map_get (or_empty cid) (chatMessages db)) as [l0|] eqn:Hg;
          [apply (Hdb _ l0 m Hg Hin) | inversion Hin].
      * apply list_elem_of_singleton in Hin as ->.
        cbn [msg_conversationId msg_isRead msg_reactions msg_content msg_type msg_duration].
        split; [reflexivity|]. split; [reflexivity|]. split; [reflexivity|].
        apply orb_false_iff in Hguard as [_ Hc].
        destruct (String.eqb_spec (default "text" type) "voice") as [Hv|Hv].
        -- split; intros _; exact Hv.
        -- split; [|intros H; contradiction].
           intros Hnc. rewrite Hnc in Hc. discriminate.
    + rewrite Map_push_get_ne by exact Hne. apply Hdb.
Qed.

(** X27. Whatever requests are made, a stored chat message is filed under
    its own conversation, is unread and has no reactions, and it lacks a
    content or carries a duration only if its type is ['voice']. *)
Theorem stored_messages_sound db cid l m :
  reachable_db db ->
  Map_get cid (chatMessages db) = Some l -> m ∈ l ->
  msg_conversationId m = cid /\ msg_isRead m = false /\ msg_reactions m = [] /\
  (truthy (msg_content m) = false -> msg_type m = "voice") /\
  (msg_duration m <> None -> msg_type m = "voice").
Proof.
  intros Hdb. revert cid l m. change (messages_sound db).
  induction Hdb as [|db req _ IH].
  - intros cid l m. cbn. discriminate.
  - apply handle_messages_sound, IH.
Qed.

Lemma stored_messages_sound_witness :
  msg_conversationId firstMessage = "c1" /\ msg_isRead firstMessage = false /\
  msg_reactions firstMessage = [] /\
  (truthy (msg_content firstMessage) = false -> msg_type firstMessage = "voice") /\
  (msg_duration firstMessage <> None -> msg_type firstMessage = "voice").
Proof.
  apply (stored_messages_sound chatted "c1" [firstMessage] firstMessage).
  - apply reachable_db_handle, reachable_db_empty.
  - reflexivity.
  - apply list_elem_of_here.
Defined.
